(** * BubbleTrans: a shallow embedding of the OCR / translation pipeline

    The development follows the Python sources module by module:
    - [utils/config.py]  : [Config]   (load_config, save_config)
    - [ui/settings.py]   : [Settings] (the successful-model history)
    - [engine/ocr.py]    : [Ocr]      (_extract_text, recognize)
    - [engine/llm.py]    : [Llm]      (encode_image, translate)
    - [ui/window.py]     : [Window]   (TranslationWorker.run, on_translation_finished),
                           [MainWindow] (the slots of the window, the OCR warm-up),
                           [FileList] (load_file_list)
    - [engine/llm.py]    : [LlmConfig] (configure, _load_from_config, test_connection)
    - [ui/settings.py]   : [SettingsDialog] (save_settings, test_connection)
    - [setup_check.py]   : [SetupCheck] (check_package, install_package, main)

    Python [str] values are sequences of Unicode code points; they are
    modelled as [list N].  Everything that lives outside the repository
    (the PaddleOCR recogniser, PIL, the file system, the OpenAI client, the
    builtin [str()] on objects that are not strings) is an oracle of the
    environment record of the module that uses it. *)

From Stdlib Require Import ZArith NArith List Lia Bool Ascii.
From stdpp Require Import base gmap list strings sorting.

Local Open Scope N_scope.
Set Warnings "-register-all".

(** ** Python strings *)

Module PyStr.

(** A Python [str]: a sequence of code points. *)
Abbreviation pystr := (list N).

(** UTF-8 decoding of the bytes of a source literal into code points. *)
Fixpoint utf8_decode (bs : list N) : pystr :=
  match bs with
  | [] => []
  | b :: t =>
      if b <? 128 then b :: utf8_decode t
      else if b <? 224 then
        match t with
        | c1 :: t1 => ((b - 192) * 64 + (c1 - 128)) :: utf8_decode t1
        | [] => [b]
        end
      else if b <? 240 then
        match t with
        | c1 :: c2 :: t2 =>
            ((b - 224) * 4096 + (c1 - 128) * 64 + (c2 - 128)) :: utf8_decode t2
        | _ => [b]
        end
      else
        match t with
        | c1 :: c2 :: c3 :: t3 =>
            ((b - 240) * 262144 + (c1 - 128) * 4096 + (c2 - 128) * 64 + (c3 - 128))
              :: utf8_decode t3
        | _ => [b]
        end
  end.

Fixpoint bytes_of_string (s : string) : list N :=
  match s with
  | EmptyString => []
  | String a r => Ascii.N_of_ascii a :: bytes_of_string r
  end.

(** A string literal of the Python source, as a [str]. *)
Definition lit (s : string) : pystr := utf8_decode (bytes_of_string s).
Arguments lit s%_string : simpl never.

Definition LF : N := 10.
Definition CR : N := 13.
Definition DQUOTE : N := 34.
Definition SQUOTE : N := 39.

(** [==] on strings. *)
Definition str_eqb (a b : pystr) : bool := bool_decide (a = b).

(** The code points [str.strip()] removes: those for which [str.isspace]
    holds (CPython's [_PyUnicode_IsWhitespace]). *)
Definition is_space (c : N) : bool :=
  ((9 <=? c) && (c <=? 13)) || ((28 <=? c) && (c <=? 32))
  || (c =? 133) || (c =? 160) || (c =? 5760)
  || ((8192 <=? c) && (c <=? 8202))
  || (c =? 8232) || (c =? 8233) || (c =? 8239) || (c =? 8287) || (c =? 12288).

Fixpoint lstrip (s : pystr) : pystr :=
  match s with
  | [] => []
  | c :: t => if is_space c then lstrip t else s
  end.

Definition rstrip (s : pystr) : pystr := rev (lstrip (rev s)).

(** [s.strip()] *)
Definition strip (s : pystr) : pystr := rstrip (lstrip s).

(** Truth value of a string: [bool(s)], as in [if s:]. *)
Definition nonempty (s : pystr) : bool :=
  match s with [] => false | _ => true end.

(** [s.startswith(p)] *)
Fixpoint startswith (p s : pystr) : bool :=
  match p, s with
  | [], _ => true
  | _ :: _, [] => false
  | a :: p', b :: s' => (a =? b) && startswith p' s'
  end.

(** [s.replace(old, new)] for a non-empty [old]: occurrences are replaced
    from the left and do not overlap.  [skip] counts the code points of an
    occurrence that was just replaced and are still to be dropped. *)
Fixpoint replace_from (old new : pystr) (skip : nat) (s : pystr) : pystr :=
  match s with
  | [] => []
  | c :: t =>
      match skip with
      | S k => replace_from old new k t
      | O =>
          if startswith old s
          then new ++ replace_from old new (Nat.pred (length old)) t
          else c :: replace_from old new O t
      end
  end.

Definition replace (old new s : pystr) : pystr := replace_from old new O s.

(** [s.split(sep)] for a separator of one code point. *)
Fixpoint split (sep : N) (s : pystr) : list pystr :=
  match s with
  | [] => [[]]
  | c :: t =>
      if c =? sep then [] :: split sep t
      else match split sep t with
           | [] => [[c]]
           | w :: ws => (c :: w) :: ws
           end
  end.

(** [sep.join(parts)] *)
Fixpoint join (sep : pystr) (parts : list pystr) : pystr :=
  match parts with
  | [] => []
  | [p] => p
  | p :: rest => p ++ sep ++ join sep rest
  end.

End PyStr.
Import PyStr.

(** ** Effects: state, exceptions, try/except *)

Module Eff.

(** What a call does: it returns, or it raises an exception, of which the
    program only ever uses the message [str(e)]. *)
Inductive outcome (A : Type) : Type :=
| Ret (a : A)
| Raise (e : pystr).
Arguments Ret {A} a.
Arguments Raise {A} e.

(** A computation over a mutable state [S]; the state survives an
    exception. *)
Definition M (S A : Type) : Type := S -> outcome A * S.

Definition ret {S A} (a : A) : M S A := fun s => (Ret a, s).

Definition raise {S A} (e : pystr) : M S A := fun s => (Raise e, s).

Definition bind {S A B} (m : M S A) (k : A -> M S B) : M S B :=
  fun s =>
    match m s with
    | (Ret a, s') => k a s'
    | (Raise e, s') => (Raise e, s')
    end.

(** [try: m  except Exception as e: h e] *)
Definition try_except {S A} (m : M S A) (h : pystr -> M S A) : M S A :=
  fun s =>
    match m s with
    | (Ret a, s') => (Ret a, s')
    | (Raise e, s') => h e s'
    end.

(** [try: m  finally: f] *)
Definition try_finally {S A} (m : M S A) (f : M S unit) : M S A :=
  fun s =>
    match m s with
    | (r, s') =>
        match f s' with
        | (Ret _, s'') => (r, s'')
        | (Raise e, s'') => (Raise e, s'')
        end
    end.

Definition get {S} : M S S := fun s => (Ret s, s).

Definition modify {S} (f : S -> S) : M S unit := fun s => (Ret tt, f s).

(** Lifting an outcome decided by the environment. *)
Definition lift {S A} (o : outcome A) : M S A := fun s => (o, s).

(** The outcome of a computation that has no state to work on. *)
Definition eval {A} (m : M unit A) : outcome A := fst (m tt).

Declare Scope eff_scope.
Delimit Scope eff_scope with eff.
Notation "x <- m ;; k" := (bind m (fun x => k))
  (at level 100, m at next level, right associativity) : eff_scope.
Notation "m ;; k" := (bind m (fun _ => k))
  (at level 100, right associativity) : eff_scope.

End Eff.
Import Eff.
Local Open Scope eff_scope.

(** ** utils/config.py *)

Module Config.

(** A JSON document, as [json.load] returns it and [json.dump] writes it. *)
Inductive json : Type :=
| JNull
| JBool (b : bool)
| JNum (digits : Z) (places : nat)
| JStr (s : pystr)
| JArr (items : list json)
| JObj (d : gmap pystr json).

(** Truth value of a loaded value, as [if v:] takes it. *)
Definition truthy (v : json) : bool :=
  match v with
  | JNull => false
  | JBool b => b
  | JNum digits _ => negb (digits =? 0)%Z
  | JStr s => nonempty s
  | JArr l => match l with [] => false | _ => true end
  | JObj d => negb (bool_decide (d = ∅))
  end.

(** The file [config.json] of the working directory. *)
Inductive file_state : Type :=
| Absent                        (* os.path.exists(CONFIG_FILE) is False *)
| Unreadable (e : pystr)        (* the path exists, open(..., 'r') raises *)
| Malformed (e : pystr)         (* the file opens, json.load raises *)
| Stored (v : json).            (* the file holds the JSON text of [v] *)

(** What opening the file for writing and dumping into it will do. *)
Inductive write_behaviour : Type :=
| Writes
| OpenRaises (e : pystr)        (* open(..., 'w') raises: the file is untouched *)
| DumpRaises (e : pystr).       (* json.dump raises after open truncated the file *)

Record disk : Type := {
  config_json : file_state;
  on_write : write_behaviour
}.

Definition os_path_exists : M disk bool :=
  fun d => (Ret (match config_json d with Absent => false | _ => true end), d).

(** [with open(CONFIG_FILE, 'r', encoding='utf-8') as f: json.load(f)] *)
Definition read_json : M disk json :=
  fun d =>
    match config_json d with
    | Absent => (Raise (lit "[Errno 2] No such file or directory: 'config.json'"), d)
    | Unreadable e => (Raise e, d)
    | Malformed e => (Raise e, d)
    | Stored v => (Ret v, d)
    end.

(** [with open(CONFIG_FILE, 'w', encoding='utf-8') as f: json.dump(v, f, indent=4)] *)
Definition write_json (v : json) : M disk unit :=
  fun d =>
    match on_write d with
    | Writes => (Ret tt, {| config_json := Stored v; on_write := on_write d |})
    | OpenRaises e => (Raise e, d)
    | DumpRaises e =>
        (Raise e, {| config_json := Malformed e; on_write := on_write d |})
    end.

(** [current_config.update(data)]: only a dict has the method. *)
Definition dict_update (current : json) (data : gmap pystr json) : outcome json :=
  match current with
  | JObj d => Ret (JObj (data ∪ d))
  | _ => Raise (lit "object has no attribute 'update'")
  end.

Definition load_config : M disk json :=
  exists_ <- os_path_exists ;;
  if negb exists_ then ret (JObj ∅)
  else try_except read_json (fun e => ret (JObj ∅)).

Definition save_config (data : gmap pystr json) : M disk bool :=
  try_except
    (current_config <- load_config ;;
     current_config <- lift (dict_update current_config data) ;;
     write_json current_config ;;
     ret true)
    (fun e => ret false).

(** The dict the next [load_config] sees in [d], when it sees one. *)
Definition stored_dict (d : disk) : option (gmap pystr json) :=
  match fst (load_config d) with
  | Ret (JObj m) => Some m
  | _ => None
  end.

(** A step of [save_config] raises in [d]. *)
Definition save_step_raises (d : disk) : Prop :=
  stored_dict d = None ∨ on_write d ≠ Writes.

End Config.

(** ** ui/settings.py: the history of models that connected *)

Module Settings.
Import Config.

(** [config.get(key, default)]: only a dict has the method. *)
Definition config_get (config : json) (key : pystr) (default : json) : outcome json :=
  match config with
  | JObj d => Ret (match d !! key with Some v => v | None => default end)
  | _ => Raise (lit "object has no attribute 'get'")
  end.

(** The loop of [_load_successful_models]: [cleaned] and [seen] are its two
    accumulators. *)
Fixpoint clean_loop (models : list json) (cleaned : list pystr) (seen : gset pystr)
  : list pystr :=
  match models with
  | [] => cleaned
  | item :: rest =>
      match item with
      | JStr s =>
          let value := strip s in
          if negb (nonempty value) || bool_decide (value ∈ seen)
          then clean_loop rest cleaned seen
          else clean_loop rest (cleaned ++ [value]) ({[value]} ∪ seen)
      | _ => clean_loop rest cleaned seen
      end
  end.

Definition _load_successful_models : M disk (list pystr) :=
  config <- load_config ;;
  models <- lift (config_get config (lit "successful_models") (JArr [])) ;;
  match models with
  | JArr items => ret (clean_loop items [] ∅)
  | _ => ret []
  end.

(** The editable combo box of the dialog. *)
Record combo : Type := {
  items : list pystr;
  current_text : pystr
}.

(** The dialog: [model_combo] is [None] until [init_ui] built it. *)
Record dialog : Type := {
  model_combo : option combo;
  files : disk
}.

Definition on_disk {A} (m : M disk A) : M dialog A :=
  fun g =>
    match m (files g) with
    | (r, d') => (r, {| model_combo := model_combo g; files := d' |})
    end.

(** [self.model_combo.insertItem(0, model)] unless it is listed, then
    [setCurrentText(model)]. *)
Definition update_combo (model : pystr) : M dialog unit :=
  modify (fun g =>
    match model_combo g with
    | Some c =>
        let existing := items c in
        {| model_combo :=
             Some {| items := if bool_decide (model ∈ existing) then existing
                              else model :: existing;
                     current_text := model |};
           files := files g |}
    | None => g
    end).

Definition _save_successful_model (model : pystr) : M dialog unit :=
  let model := strip (if nonempty model then model else []) in
  if negb (nonempty model) then ret tt
  else
    models <- on_disk _load_successful_models ;;
    let models := filter (fun m => m ≠ model) models in
    let models := model :: models in
    let models := take 30 models in
    on_disk (save_config {[ lit "successful_models" := JArr (JStr <$> models) ]}) ;;
    update_combo model.

(** The value stored under ["successful_models"], when the file holds a dict. *)
Definition stored_models (g : dialog) : option json :=
  match stored_dict (files g) with
  | Some m => m !! lit "successful_models"
  | None => None
  end.

End Settings.

(** ** Python values handed around by the recogniser *)

Module PyVal.

(** What PaddleOCR may hand to [_extract_text]: [PNum] is a number written
    as a decimal ([digits / 10 ^ places]), [PObj] an object of any other
    type (an array, a result object, ...). *)
Inductive pyval : Type :=
| PNone
| PBool (b : bool)
| PNum (digits : Z) (places : nat)
| PStr (s : pystr)
| PList (items : list pyval)
| PTuple (items : list pyval)
| PDict (d : gmap pystr pyval)
| PObj (id : N).

(** Truth value of an object, as [a or b] and [if v:] take it. *)
Definition truthy (v : pyval) : bool :=
  match v with
  | PNone => false
  | PBool b => b
  | PNum digits _ => negb (digits =? 0)%Z
  | PStr s => nonempty s
  | PList l | PTuple l => match l with [] => false | _ => true end
  | PDict d => negb (bool_decide (d = ∅))
  | PObj _ => true
  end.

(** [a or b] *)
Definition py_or (a b : pyval) : pyval := if truthy a then a else b.

(** [d.get(key)]: [None] when the key is absent. *)
Definition dict_get (d : gmap pystr pyval) (key : pystr) : pyval :=
  match d !! key with
  | Some v => v
  | None => PNone
  end.

(** [v[i]] for a list or a tuple; it raises out of range, and on a value
    that cannot be indexed by position. *)
Definition py_index (v : pyval) (i : nat) : outcome pyval :=
  match v with
  | PList l =>
      match l !! i with
      | Some x => Ret x
      | None => Raise (lit "list index out of range")
      end
  | PTuple l =>
      match l !! i with
      | Some x => Ret x
      | None => Raise (lit "tuple index out of range")
      end
  | _ => Raise (lit "object is not subscriptable")
  end.

End PyVal.
Import PyVal.

(** ** The world around the program *)

Module World.

(** A part of the [content] list of a chat message. *)
Inductive content_part : Type :=
| TextPart (text : pystr)            (* {"type": "text", "text": ...} *)
| ImageUrlPart (url : pystr).        (* {"type": "image_url", "image_url": {"url": ...}} *)

Inductive message_content : Type :=
| ContentStr (s : pystr)
| ContentParts (parts : list content_part).

Record message : Type := {
  role : pystr;
  content : message_content
}.

(** The arguments of [client.chat.completions.create]. *)
Record request : Type := {
  req_model : pystr;
  req_messages : list message;
  req_max_tokens : Z
}.

(** What the program does to the outside, in the order it does it: the
    calls into the two engines and into the third-party services, and the
    signals the worker thread emits. *)
Inductive event : Type :=
| CallRecognize (image_path : pystr)            (* ocr_engine.recognize(path) *)
| NewPaddleOCR                                  (* PaddleOCR(lang='en', ...) *)
| CallPredict (path : pystr) (kwargs : gmap pystr pyval)   (* self.ocr.predict(path, **kwargs) *)
| CallOcr (path : pystr)                        (* self.ocr.ocr(path) *)
| Unlink (path : pystr)                         (* os.unlink(tmp_path) *)
| CallTranslate (text context : pystr) (image_path : option pystr) (use_vision : bool)
                                                (* llm_engine.translate(...) *)
| ChatCreate (req : request)                    (* client.chat.completions.create(...) *)
| EmitStatus (msg : pystr)
| EmitFinished (ocr_text trans_text : pystr)
| EmitError (msg : pystr).

(** The oracles: everything the program asks of code that is not its own. *)
Record env : Type := {
  (* str(x) for an x that is not a str *)
  str_of : pyval -> pystr;
  (* os.path.exists(path) *)
  path_exists : pystr -> bool;
  (* open(path, "rb").read() *)
  read_bytes : pystr -> outcome (list N);
  (* from paddleocr import PaddleOCR; PaddleOCR(...) *)
  new_paddle : outcome unit;
  (* hasattr(self.ocr, "predict") *)
  has_predict : bool;
  (* self.ocr.predict(path, **kwargs) *)
  predict : pystr -> gmap pystr pyval -> outcome pyval;
  (* self.ocr.ocr(path) *)
  legacy_ocr : pystr -> outcome pyval;
  (* Image.open(path), .convert("RGB"), .size *)
  image_open : pystr -> outcome (Z * Z);
  (* ImageOps.expand(im, border=pad, fill=(255, 255, 255)) *)
  image_expand : pystr -> Z -> outcome unit;
  (* im.resize((sw, sh), resample=LANCZOS) *)
  image_resize : pystr -> Z * Z -> outcome unit;
  (* tempfile.mkstemp(prefix="pact_ocr_", suffix=".png"), os.close(fd):
     the file made for the image scaled by [scale] *)
  mkstemp : Z -> outcome pystr;
  (* sim.save(tmp_path) *)
  image_save : pystr -> outcome unit;
  (* client.chat.completions.create(...), then
     response.choices[0].message.content: a str, or None *)
  chat_create : request -> outcome (option pystr);
  (* whether a signal declared with a str argument takes None (as the
     empty string) instead of raising TypeError *)
  signal_takes_none : bool
}.

(** The mutable state: the [initialized] flag of the OCR singleton, and the
    events so far. *)
Record world : Type := {
  initialized : bool;
  trace : list event
}.

Definition log (ev : event) : M world unit :=
  modify (fun w => {| initialized := initialized w; trace := trace w ++ [ev] |}).

Definition set_initialized : M world unit :=
  modify (fun w => {| initialized := true; trace := trace w |}).

(** The builtin [str(x)]. *)
Definition py_str (E : env) (x : pyval) : pystr :=
  match x with
  | PStr s => s
  | _ => str_of E x
  end.

End World.
Import World.

(** ** engine/ocr.py *)

Module Ocr.

(** [_extract_text] reads its argument and nothing else: it runs without a
    state. *)
Section WithEnv.
Context (E : env).

(** [if isinstance(x, str) and x.strip(): lines.append(x.strip())] *)
Definition append_text (lines : list pystr) (x : pyval) : list pystr :=
  match x with
  | PStr s => if nonempty (strip s) then lines ++ [strip s] else lines
  | _ => lines
  end.

(** ["\n".join([str(x).strip() for x in value if str(x).strip()])] *)
Definition join_texts (value : list pyval) : pystr :=
  join [LF]
    (omap (fun x => if nonempty (strip (py_str E x)) then Some (strip (py_str E x)) else None)
          value).

(** The loop over the keys of the dict branch: the first key that holds a
    list or a str decides. *)
Fixpoint dict_text (d : gmap pystr pyval) (keys : list pystr) : pystr :=
  match keys with
  | [] => []
  | key :: rest =>
      match dict_get d key with
      | PList value => join_texts value
      | PStr value => strip value
      | _ => dict_text d rest
      end
  end.

(** The inner loop over ["rec_texts"] and ["texts"] of a dict item; its
    closing [if lines: continue] only skips to the next key. *)
Fixpoint item_dict_lists (d : gmap pystr pyval) (keys : list pystr) (lines : list pystr)
  : list pystr :=
  match keys with
  | [] => lines
  | key :: rest =>
      match dict_get d key with
      | PList value => item_dict_lists d rest (foldl append_text lines value)
      | _ => item_dict_lists d rest lines
      end
  end.

(** One round of [for item in result:]. *)
Definition extract_item (lines : list pystr) (item : pyval) : M unit (list pystr) :=
  match item with
  | PNone => ret lines
  | PStr s => ret (append_text lines item)
  | PDict d =>
      let lines := item_dict_lists d [lit "rec_texts"; lit "texts"] lines in
      let text := py_or (dict_get d (lit "rec_text")) (dict_get d (lit "text")) in
      ret (append_text lines text)
  | PList l | PTuple l =>
      if (2 <=? length l)%nat then
        second <- lift (py_index item 1) ;;
        match second with
        | PList l2 | PTuple l2 =>
            if (1 <=? length l2)%nat then
              text <- lift (py_index second 0) ;;
              ret (append_text lines text)
            else ret lines
        | _ => ret lines
        end
      else ret lines
  | _ => ret lines
  end.

Fixpoint extract_items (items : list pyval) (lines : list pystr) : M unit (list pystr) :=
  match items with
  | [] => ret lines
  | item :: rest =>
      lines <- extract_item lines item ;;
      extract_items rest lines
  end.

Definition _extract_text (result : pyval) : M unit pystr :=
  match result with
  | PNone => ret []
  | PStr s => ret (strip s)
  | PDict d => ret (dict_text d [lit "rec_texts"; lit "texts"; lit "text"; lit "result"])
  | PList items =>
      match items with
      | [] => ret []
      | _ =>
          result <-
            (if (length items =? 1)%nat then
               first <- lift (py_index result 0) ;;
               match first with
               | PList inner => ret inner
               | _ => ret items
               end
             else ret items) ;;
          lines <- extract_items result [] ;;
          ret (join [LF] lines)
      end
  | _ => ret []
  end.

End WithEnv.

(** The keyword arguments of [_predict]. *)
Definition base_kwargs : gmap pystr pyval :=
  {[ lit "use_doc_orientation_classify" := PBool false;
     lit "use_doc_unwarping" := PBool false;
     lit "use_textline_orientation" := PBool false ]}.

Definition lenient_kwargs : gmap pystr pyval :=
  {[ lit "text_det_thresh" := PNum 15 2;
     lit "text_det_box_thresh" := PNum 25 2;
     lit "text_det_unclip_ratio" := PNum 22 1;
     lit "text_rec_score_thresh" := PNum 15 2;
     lit "text_det_limit_type" := PStr (lit "max");
     lit "text_det_limit_side_len" := PNum 2560 0 ]}.

(** [kwargs.update(new)] *)
Definition kwargs_for (lenient : bool) : gmap pystr pyval :=
  if lenient then lenient_kwargs ∪ base_kwargs else base_kwargs.

Section Engine.
Context (E : env).

Definition initialize : M world bool :=
  w <- get ;;
  if initialized w then ret true
  else
    try_except
      (log NewPaddleOCR ;;
       lift (new_paddle E) ;;
       set_initialized ;;
       ret true)
      (fun e => ret false).

(** [self.ocr.ocr(path)] *)
Definition call_ocr (path : pystr) : M world pyval :=
  log (CallOcr path) ;; lift (legacy_ocr E path).

(** The inner function [_predict(path, lenient=...)]. *)
Definition _predict (path : pystr) (lenient : bool) : M world pyval :=
  if negb (has_predict E) then call_ocr path
  else
    let kwargs := kwargs_for lenient in
    log (CallPredict path kwargs) ;; lift (predict E path kwargs).

(** [result = call; text = self._extract_text(result); if text.strip():
    return text]: [Some text] is the [return]. *)
Definition attempt (call : M world pyval) : M world (option pystr) :=
  result <- call ;;
  text <- lift (eval (_extract_text E result)) ;;
  if nonempty (strip text) then ret (Some text) else ret None.

(** [pad = max(10, int(min(w, h) * 0.08))]; the product with the float
    0.08, truncated, is the integer quotient for every image size. *)
Definition pad_of (w h : Z) : Z := Z.max 10 (Z.min w h * 8 / 100).

Definition scales_of (max_side : Z) : list Z :=
  if (max_side <? 700)%Z then [2; 3]%Z
  else if (max_side <? 1100)%Z then [2]%Z
  else [].

(** The [finally] clause of the loop body. *)
Definition cleanup (tmp_path : pystr) : M world unit :=
  if nonempty tmp_path && path_exists E tmp_path then log (Unlink tmp_path)
  else ret tt.

(** [for scale in scales:] over the padded image of size [size]. *)
Fixpoint scale_loop (image_path : pystr) (size : Z * Z) (scales : list Z)
  : M world (option pystr) :=
  match scales with
  | [] => ret None
  | scale :: rest =>
      let (sw, sh) := ((fst size * scale)%Z, (snd size * scale)%Z) in
      lift (image_resize E image_path (sw, sh)) ;;
      found <-
        (* tmp_path is None until mkstemp returned: nothing to clean up *)
        (tmp_path <- lift (mkstemp E scale) ;;
         try_finally
           (lift (image_save E tmp_path) ;;
            if has_predict E then attempt (_predict tmp_path true)
            else attempt (call_ocr tmp_path))
           (cleanup tmp_path)) ;;
      match found with
      | Some text => ret (Some text)
      | None => scale_loop image_path size rest
      end
  end.

(** Strategy 3, inside its own [try: ... except Exception: pass]. *)
Definition enhanced (image_path : pystr) : M world (option pystr) :=
  try_except
    (size <- lift (image_open E image_path) ;;
     let (w, h) := (size : Z * Z) in
     if (w <=? 0)%Z || (h <=? 0)%Z then ret (Some [])
     else
       let pad := pad_of w h in
       lift (image_expand E image_path pad) ;;
       let size := ((w + 2 * pad)%Z, (h + 2 * pad)%Z) in
       let max_side := Z.max (fst size) (snd size) in
       scale_loop image_path size (scales_of max_side))
    (fun e => ret None).

Definition recognize (image_path : pystr) : M world pystr :=
  log (CallRecognize image_path) ;;
  w <- get ;;
  ready <- (if negb (initialized w) then initialize else ret true) ;;
  if negb ready then ret (lit "Error: PaddleOCR not initialized or not installed.")
  else
    try_except
      (if negb (path_exists E image_path) then ret []
       else
         (* strategy 1 *)
         found <- (if has_predict E then attempt (_predict image_path false)
                   else attempt (call_ocr image_path)) ;;
         match found with
         | Some text => ret text
         | None =>
             (* strategy 2 *)
             found <- (if has_predict E then attempt (_predict image_path true)
                       else ret None) ;;
             match found with
             | Some text => ret text
             | None =>
                 (* strategy 3 *)
                 found <- enhanced image_path ;;
                 match found with
                 | Some text => ret text
                 | None => ret []
                 end
             end
         end)
      (fun e => ret (lit "OCR Error: " ++ e)).

End Engine.

End Ocr.

(** ** engine/llm.py *)

Module Llm.

(** The fields of the [llm_engine] singleton that [translate] and the
    worker read.  [use_vision] is whatever config.json gave; [client] is
    [None] until [configure] ran with an API key. *)
Record engine : Type := {
  model : pystr;
  use_vision : Config.json;
  client : option unit
}.

(** The base64 alphabet. *)
Definition b64_char (i : N) : N :=
  if i <? 26 then 65 + i
  else if i <? 52 then 97 + (i - 26)
  else if i <? 62 then 48 + (i - 52)
  else if i =? 62 then 43
  else 47.

(** [base64.b64encode(data).decode('utf-8')] *)
Fixpoint b64encode (data : list N) : pystr :=
  match data with
  | [] => []
  | [a] => [b64_char (a / 4); b64_char (a mod 4 * 16); 61; 61]
  | [a; b] =>
      [b64_char (a / 4); b64_char (a mod 4 * 16 + b / 16); b64_char (b mod 16 * 4); 61]
  | a :: b :: c :: rest =>
      [b64_char (a / 4); b64_char (a mod 4 * 16 + b / 16);
       b64_char (b mod 16 * 4 + c / 64); b64_char (c mod 64)] ++ b64encode rest
  end.

Definition system_prompt (context : pystr) : pystr :=
  lit "You are an expert American comic translator and localization editor.
Context about the comic: " ++ context ++ lit "

Task:
- Translate the input English (often OCR text) into fluent Simplified Chinese suitable for comic speech balloons.

Rules:
1. Prefer natural Chinese phrasing; do NOT translate word-for-word.
2. Maintain the speaker's tone, emotion, and rhythm.
3. Proper nouns: prioritize official DC/Marvel Chinese names (heroes, villains, organizations, locations, aliases). If uncertain, keep the original English (or transliterate).
4. OCR artifacts: treat line breaks and stray periods as layout markers, not sentence boundaries. Re-segment by meaning.
5. Output formatting:
   - Use standard Chinese punctuation（，。！？…）
   - Do NOT put every short phrase on its own line.
   - Only use line breaks to separate different speakers or different speech bubbles/paragraphs.
   - Inside a paragraph, do NOT insert manual line breaks.
   - If the text likely comes from multiple bubbles, merge into 1–2 coherent paragraphs when possible.
6. Return ONLY the translated text. No explanations. Do NOT wrap the whole output in quotes.
".

Definition vision_prompt : pystr :=
  lit "Please read the English text in the image and translate it to Simplified Chinese.".

(** Truth value of [image_path], a path or [None]. *)
Definition path_given (image_path : option pystr) : bool :=
  match image_path with
  | Some p => nonempty p
  | None => false
  end.

Section WithEnv.
Context (E : env).

(** [encode_image]: [None] when the file does not exist; reading may raise. *)
Definition encode_image (image_path : pystr) : M world (option pystr) :=
  if negb (path_exists E image_path) then ret None
  else
    data <- lift (read_bytes E image_path) ;;
    ret (Some (b64encode data)).

Definition translate (self : engine) (text context : pystr)
    (image_path : option pystr) (use_vision : bool) : M world (option pystr) :=
  log (CallTranslate text context image_path use_vision) ;;
  match client self with
  | None => ret (Some (lit "Error: API not configured. Please go to Settings."))
  | Some _ =>
      let messages := [ {| role := lit "system";
                           content := ContentStr (system_prompt context) |} ] in
      let user_content :=
        if nonempty (strip text) then [TextPart (lit "Original Text:
" ++ text)]
        else if use_vision && path_given image_path then [TextPart vision_prompt]
        else [TextPart (lit "Original Text:
")] in
      user_content <-
        (match image_path with
         | Some path =>
             if use_vision && nonempty path then
               base64_image <- encode_image path ;;
               match base64_image with
               | Some b64 =>
                   if nonempty b64
                   then ret (user_content
                               ++ [ImageUrlPart (lit "data:image/jpeg;base64," ++ b64)])
                   else ret user_content
               | None => ret user_content
               end
             else ret user_content
         | None => ret user_content
         end) ;;
      let messages := messages ++ [ {| role := lit "user";
                                       content := ContentParts user_content |} ] in
      let req := {| req_model := model self;
                    req_messages := messages;
                    req_max_tokens := 1000 |} in
      try_except
        (log (ChatCreate req) ;; lift (chat_create E req))
        (fun e => ret (Some (lit "API Error: " ++ e)))
  end.

End WithEnv.

End Llm.

(** ** ui/window.py *)

Module Window.

(** The texts the worker shows and sends. *)
Definition vision_status : pystr := lit "Vision 模式：跳过本地 OCR，直接翻译...".
Definition vision_ocr_text : pystr := lit "Vision 模式：已跳过本地 OCR".
Definition ocr_status : pystr := lit "Running OCR...".
Definition llm_status : pystr := lit "Translating with LLM...".
Definition no_text : pystr := lit "__OCR_NO_TEXT__".
Definition none_rejected : pystr :=
  lit "TranslationWorker.finished[str, str].emit(): argument 2 has unexpected type 'NoneType'".

Section Worker.
Context (E : env) (llm_engine : Llm.engine).

(** [self.finished.emit(ocr_text, trans_text)]: the signal is declared
    [pyqtSignal(str, str)], and [trans_text] may be [None]. *)
Definition emit_finished (ocr_text : pystr) (trans_text : option pystr) : M world unit :=
  match trans_text with
  | Some t => log (EmitFinished ocr_text t)
  | None =>
      if signal_takes_none E then log (EmitFinished ocr_text [])
      else raise none_rejected
  end.

(** [TranslationWorker.run]; every [return] of the source ends a branch. *)
Definition run (image_path context : pystr) : M world unit :=
  try_except
    (let use_vision := Config.truthy (Llm.use_vision llm_engine) in
     if use_vision then
       log (EmitStatus vision_status) ;;
       let ocr_text := vision_ocr_text in
       trans_text <- Llm.translate E llm_engine [] context (Some image_path) true ;;
       emit_finished ocr_text trans_text
     else
       log (EmitStatus ocr_status) ;;
       ocr_text <- Ocr.recognize E image_path ;;
       if startswith (lit "OCR Error:") ocr_text then log (EmitError ocr_text)
       else if negb (nonempty (strip ocr_text)) then log (EmitError no_text)
       else
         log (EmitStatus llm_status) ;;
         trans_text <- Llm.translate E llm_engine ocr_text context (Some image_path) false ;;
         emit_finished ocr_text trans_text)
    (fun e => log (EmitError e)).

End Worker.

(** The widgets [on_translation_finished] writes to: what [setText] and
    [showMessage] were last given. *)
Record panes : Type := {
  ocr_text_edit : pystr;
  trans_text_edit : pystr;
  status_bar : pystr
}.

Definition quote_chars : list N :=
  [DQUOTE; SQUOTE] ++ lit "“”「」『』《》‹›«»".

(** The local function [is_quote_only]. *)
Definition is_quote_only (s : pystr) : bool :=
  let stripped := strip s in
  nonempty stripped && forallb (fun ch => bool_decide (ch ∈ quote_chars)) stripped.

(** The loop [for i, line in enumerate(lines):]. *)
Fixpoint enhance (lines : list pystr) : list pystr :=
  match lines with
  | [] => []
  | line :: rest =>
      match rest with
      | [] => [line]
      | next :: _ =>
          let cur := strip line in
          let nxt := strip next in
          if negb (nonempty cur) || negb (nonempty nxt) then line :: enhance rest
          else if is_quote_only cur || is_quote_only nxt then line :: enhance rest
          else line :: [] :: enhance rest
      end
  end.

(** [normalized[1:-1]] when the text is wrapped in one kind of quote. *)
Definition unwrap_quotes (normalized : pystr) : pystr :=
  match normalized, last normalized with
  | first :: rest, Some final =>
      if (2 <=? length normalized)%nat && (first =? final)
         && ((first =? SQUOTE) || (first =? DQUOTE))
      then removelast rest
      else normalized
  | _, _ => normalized
  end.

(** The [isinstance(trans_text, str)] branch, up to [setText]. *)
Definition normalize_translation (trans_text : pystr) : pystr :=
  let normalized := replace [CR; LF] [LF] trans_text in
  let normalized := replace [CR] [LF] normalized in
  let normalized := replace (lit "\n") [LF] (replace (lit "\r\n") [LF] normalized) in
  let normalized := unwrap_quotes normalized in
  let lines := split LF normalized in
  if (1 <? length lines)%nat then join [LF] (enhance lines) else normalized.

(** [MainWindow.on_translation_finished]; the signal delivers two strs. *)
Definition on_translation_finished (ocr_text trans_text : pystr) (ui : panes) : panes :=
  let ui := {| ocr_text_edit := ocr_text;
               trans_text_edit := trans_text_edit ui;
               status_bar := status_bar ui |} in
  let ui := {| ocr_text_edit := ocr_text_edit ui;
               trans_text_edit := normalize_translation trans_text;
               status_bar := status_bar ui |} in
  {| ocr_text_edit := ocr_text_edit ui;
     trans_text_edit := trans_text_edit ui;
     status_bar := lit "Translation Complete" |}.

End Window.

(** ** ui/window.py: the slots of the main window *)

Module MainWindow.
Import Window.

(** A [QMessageBox] that was shown. *)
Inductive box : Type :=
| Warning (title text : pystr)
| Critical (title text : pystr).

(** The widgets the slots write to. *)
Record window : Type := {
  view : panes;
  boxes : list box;
  ocr_init_action_enabled : bool
}.

Definition show_message (msg : pystr) (win : window) : window :=
  {| view := {| ocr_text_edit := ocr_text_edit (view win);
                trans_text_edit := trans_text_edit (view win);
                status_bar := msg |};
     boxes := boxes win;
     ocr_init_action_enabled := ocr_init_action_enabled win |}.

Definition set_ocr_text (text : pystr) (win : window) : window :=
  {| view := {| ocr_text_edit := text;
                trans_text_edit := trans_text_edit (view win);
                status_bar := status_bar (view win) |};
     boxes := boxes win;
     ocr_init_action_enabled := ocr_init_action_enabled win |}.

Definition clear_translation (win : window) : window :=
  {| view := {| ocr_text_edit := ocr_text_edit (view win);
                trans_text_edit := [];
                status_bar := status_bar (view win) |};
     boxes := boxes win;
     ocr_init_action_enabled := ocr_init_action_enabled win |}.

Definition show_box (b : box) (win : window) : window :=
  {| view := view win;
     boxes := boxes win ++ [b];
     ocr_init_action_enabled := ocr_init_action_enabled win |}.

Definition set_ocr_init_action (enabled : bool) (win : window) : window :=
  {| view := view win;
     boxes := boxes win;
     ocr_init_action_enabled := enabled |}.

Definition no_text_hint : pystr :=
  lit "未检测到文字：请重新框选更清晰/更大的区域，或在 Settings 启用 Vision。".

(** [MainWindow.on_translation_finished] *)
Definition on_finished (ocr_text trans_text : pystr) (win : window) : window :=
  {| view := on_translation_finished ocr_text trans_text (view win);
     boxes := boxes win;
     ocr_init_action_enabled := ocr_init_action_enabled win |}.

(** [MainWindow.on_translation_error] *)
Definition on_translation_error (error_msg : pystr) (win : window) : window :=
  if bool_decide (error_msg = no_text) then
    let msg := no_text_hint in
    set_ocr_text msg (show_message (lit "Error: " ++ msg) win)
  else
    set_ocr_text (lit "Error")
      (show_box (Warning (lit "Task Failed") error_msg)
         (show_message (lit "Error: " ++ error_msg) win)).

(** The three connections [handle_region_selected] makes: what a signal
    of the worker does to the window. *)
Definition slot (ev : event) (win : window) : window :=
  match ev with
  | EmitStatus msg => show_message msg win
  | EmitFinished ocr_text trans_text => on_finished ocr_text trans_text win
  | EmitError msg => on_translation_error msg win
  | _ => win
  end.

(** The signals of a run, delivered in the order they were emitted. *)
Definition deliver_signals (evs : list event) (win : window) : window :=
  foldl (λ win ev, slot ev win) win evs.

(** The events a computation added to a world. *)
Definition emitted (before after : world) : list event :=
  drop (length (trace before)) (trace after).

(** [handle_region_selected] once the user confirmed the crop: [saved] is
    what saving the crop to the temporary file came to, the path or an
    exception. *)
Definition translate_selection (E : env) (llm_engine : Llm.engine)
    (saved : outcome pystr) (context : pystr) (w : world) (win : window)
  : world * window :=
  let win := show_message (lit "Processing selection...") win in
  let win := set_ocr_text (lit "Processing...") win in
  let win := clear_translation win in
  match saved with
  | Raise e =>
      (w, show_box (Critical (lit "Error") (lit "Failed to save temp image: " ++ e)) win)
  | Ret temp_path =>
      let w' := snd (run E llm_engine temp_path context w) in
      (w', deliver_signals (emitted w w') win)
  end.

(** [OcrInitWorker.run]: the arguments of its one [finished.emit]. *)
Definition ocr_init_run (E : env) : M world (bool * pystr) :=
  try_except
    (ok <- Ocr.initialize E ;;
     ret (ok, []))
    (λ e, ret (false, e)).

(** [MainWindow.on_ocr_warmup_finished] *)
Definition on_ocr_warmup_finished (ok : bool) (error_msg : pystr) (win : window)
  : window :=
  let win := set_ocr_init_action true win in
  if ok then show_message (lit "OCR 预热完成") win
  else
    let msg := lit "OCR 预热失败" in
    let msg := if nonempty error_msg then msg ++ lit ": " ++ error_msg else msg in
    show_message msg win.

(** [MainWindow.warmup_ocr], followed by the run of the worker it starts
    and by the slot of its signal; [running] tells whether a warm-up is
    under way already. *)
Definition warmup_ocr (E : env) (running : bool) (w : world) (win : window)
  : world * window :=
  if initialized w then (w, show_message (lit "OCR 已就绪") win)
  else if running then (w, show_message (lit "OCR 预热中...") win)
  else
    let win := set_ocr_init_action false win in
    let win := show_message (lit "OCR 预热中...") win in
    match ocr_init_run E w with
    | (Ret (ok, error_msg), w') => (w', on_ocr_warmup_finished ok error_msg win)
    | (Raise _, w') => (w', win)
    end.

End MainWindow.

(** ** More string methods *)

Module PyStrMore.

(** [s.lstrip(chars)] *)
Fixpoint lstrip_chars (chars s : pystr) : pystr :=
  match s with
  | [] => []
  | c :: t => if bool_decide (c ∈ chars) then lstrip_chars chars t else s
  end.

(** [s.rstrip(chars)] *)
Definition rstrip_chars (chars s : pystr) : pystr :=
  rev (lstrip_chars chars (rev s)).

(** [pat in s] for two strings. *)
Fixpoint contains (pat s : pystr) : bool :=
  startswith pat s || match s with [] => false | _ :: t => contains pat t end.

(** [s[-n:]] for a positive [n]. *)
Definition last_chars (n : nat) (s : pystr) : pystr := drop (length s - n) s.

(** A literal in which the backquote stands for the double quote. *)
Definition litq (s : string) : pystr :=
  (λ c, if c =? 96 then DQUOTE else c) <$> lit s.
Arguments litq s%_string : simpl never.

(** [str(x)] for an [x] that is a string or [None]. *)
Definition show_optional (x : option pystr) : pystr :=
  match x with
  | Some s => s
  | None => lit "None"
  end.

End PyStrMore.
Import PyStrMore.

(** ** engine/llm.py: configuration and connection test *)

Module LlmConfig.
Import Config.

(** The arguments an [OpenAI] client was constructed with. *)
Record openai_client : Type := {
  client_base_url : json;
  client_api_key : json;
  client_headers : option (list (pystr * pystr));
  client_timeout : option Z
}.

(** The attributes of an [LLMEngine]. *)
Record llm : Type := {
  api_key : json;
  base_url : json;
  model : json;
  use_vision : json;
  client : option openai_client
}.

(** What the engine asks of the outside. *)
Record services : Type := {
  (* OpenAI(base_url=..., api_key=..., default_headers=..., [timeout=...]) *)
  openai_new : openai_client -> outcome unit;
  (* test_client.chat.completions.create(...), then
     response.choices[0].message.content *)
  test_chat : openai_client -> request -> outcome (option pystr);
  (* os.environ.get(name) *)
  environ : pystr -> option pystr;
  (* traceback.format_exc(), for the exception with this message *)
  format_exc : pystr -> pystr
}.

Definition openrouter_headers : list (pystr * pystr) :=
  [ (lit "HTTP-Referer", lit "https://github.com");
    (lit "X-Title", lit "BubbleTrans") ].

Definition default_base_url : pystr := lit "https://openrouter.ai/api/v1".
Definition default_model : pystr := lit "google/gemini-2.0-flash-001".

(** ["openrouter.ai" in x]: a substring of a string, an element of a list,
    a key of a dict; anything else cannot be searched. *)
Definition mentions_openrouter (x : json) : outcome bool :=
  match x with
  | JStr s => Ret (contains (lit "openrouter.ai") s)
  | JArr items =>
      Ret (existsb (λ v, match v with
                         | JStr s => bool_decide (s = lit "openrouter.ai")
                         | _ => false
                         end) items)
  | JObj d => Ret (bool_decide (is_Some (d !! lit "openrouter.ai")))
  | _ => Raise (lit "argument of type is not iterable")
  end.

(** [x.rstrip('/')]: only a string has the method. *)
Definition rstrip_slash (x : json) : outcome json :=
  match x with
  | JStr s => Ret (JStr (rstrip_chars [47] s))
  | _ => Raise (lit "object has no attribute 'rstrip'")
  end.

Section WithServices.
Context (V : services).

Definition set_api_key (v : json) : M llm unit :=
  modify (λ s, {| api_key := v; base_url := base_url s; model := model s;
                  use_vision := use_vision s; client := client s |}).
Definition set_base_url (v : json) : M llm unit :=
  modify (λ s, {| api_key := api_key s; base_url := v; model := model s;
                  use_vision := use_vision s; client := client s |}).
Definition set_model (v : json) : M llm unit :=
  modify (λ s, {| api_key := api_key s; base_url := base_url s; model := v;
                  use_vision := use_vision s; client := client s |}).
Definition set_use_vision (v : json) : M llm unit :=
  modify (λ s, {| api_key := api_key s; base_url := base_url s; model := model s;
                  use_vision := v; client := client s |}).
Definition set_client (c : openai_client) : M llm unit :=
  modify (λ s, {| api_key := api_key s; base_url := base_url s; model := model s;
                  use_vision := use_vision s; client := Some c |}).

(** [LLMEngine.configure(api_key, base_url, model)] *)
Definition configure (api_key_ base_url_ model_ : json) : M llm unit :=
  set_api_key api_key_ ;;
  (if truthy base_url_ then
     stripped <- lift (rstrip_slash base_url_) ;;
     set_base_url stripped
   else ret tt) ;;
  (if truthy model_ then set_model model_ else ret tt) ;;
  self <- get ;;
  if truthy (api_key self) then
    openrouter <- lift (mentions_openrouter (base_url self)) ;;
    let default_headers := if openrouter then Some openrouter_headers else None in
    let c := {| client_base_url := base_url self;
                client_api_key := api_key self;
                client_headers := default_headers;
                client_timeout := None |} in
    lift (openai_new V c) ;;
    set_client c
  else ret tt.

(** [config.get(key, default)] *)
Definition config_get (config : json) (key : pystr) (default : json) : outcome json :=
  match config with
  | JObj d => Ret (match d !! key with Some v => v | None => default end)
  | _ => Raise (lit "object has no attribute 'get'")
  end.

(** [LLMEngine._load_from_config], given what [load_config()] returned. *)
Definition _load_from_config (config : json) : M llm unit :=
  v <- lift (config_get config (lit "api_key") (JStr [])) ;;
  set_api_key v ;;
  v <- lift (config_get config (lit "base_url") (JStr default_base_url)) ;;
  set_base_url v ;;
  v <- lift (config_get config (lit "model") (JStr default_model)) ;;
  set_model v ;;
  v <- lift (config_get config (lit "use_vision") (JBool false)) ;;
  set_use_vision v ;;
  self <- get ;;
  if truthy (api_key self) then configure (api_key self) (base_url self) (model self)
  else ret tt.

(** The attributes [__init__] sets before it loads the configuration. *)
Definition blank_llm : llm :=
  {| api_key := JStr [];
     base_url := JStr default_base_url;
     model := JStr default_model;
     use_vision := JBool false;
     client := None |}.

(** [LLMEngine()], on a disk: the outcome, and the engine as far as it
    got. *)
Definition new_llm (d : disk) : outcome unit * llm :=
  match load_config d with
  | (Ret config, _) => _load_from_config config blank_llm
  | (Raise e, _) => (Raise e, blank_llm)
  end.

(** The state of [test_connection]: the trace, and the lines of
    [debug_info], which the [except] block goes on with. *)
Record probe : Type := {
  probe_world : world;
  debug_info : list pystr
}.

Definition append_line (line : pystr) : M probe unit :=
  modify (λ p, {| probe_world := probe_world p;
                  debug_info := debug_info p ++ [line] |}).

Definition log_probe (ev : event) : M probe unit :=
  modify (λ p, {| probe_world := {| initialized := initialized (probe_world p);
                                    trace := trace (probe_world p) ++ [ev] |};
                  debug_info := debug_info p |}).

(** [json.dumps(default_headers)] *)
Definition headers_json : pystr :=
  litq "{`HTTP-Referer`: `https://github.com`, `X-Title`: `BubbleTrans`}".

(** The masked key of the debug text. *)
Definition masked (api_key_ : pystr) : pystr :=
  take 4 api_key_ ++ lit "..."
  ++ (if (8 <? length api_key_)%nat then last_chars 4 api_key_ else lit "****").

(** [a or b] for two values of [os.environ.get]. *)
Definition first_set (a b : option pystr) : option pystr :=
  match a with
  | Some s => if nonempty s then a else b
  | None => b
  end.

Definition curl_cmd (clean_base_url api_key_ model_ : pystr) : pystr :=
  litq "curl.exe -v `" ++ clean_base_url
  ++ litq "/chat/completions` -H `Authorization: Bearer " ++ api_key_
  ++ litq "` -H `Content-Type: application/json` -d `{\`model\`: \`" ++ model_
  ++ litq "\`, \`messages\`: [{\`role\`: \`user\`: \`content\`: \`Hi\`}]}`".

Definition probe_request (model_ : pystr) : request :=
  {| req_model := model_;
     req_messages := [ {| role := lit "user"; content := ContentStr (lit "Hi") |} ];
     req_max_tokens := 5 |}.

(** [LLMEngine.test_connection(api_key, base_url, model)], for three
    strings.  [default_headers] is a local variable that only the
    OpenRouter branch binds. *)
Definition test_connection (api_key_ base_url_ model_ : pystr)
  : M probe (bool * pystr) :=
  let clean_base_url := rstrip_chars [47] base_url_ in
  try_except
    (append_line (lit "=== Debug Information ===") ;;
     append_line (lit "Target URL: " ++ clean_base_url) ;;
     append_line (lit "Model: " ++ model_) ;;
     append_line (lit "API Key: " ++ masked api_key_) ;;
     let http_proxy := first_set (environ V (lit "HTTP_PROXY")) (environ V (lit "http_proxy")) in
     let https_proxy := first_set (environ V (lit "HTTPS_PROXY")) (environ V (lit "https_proxy")) in
     append_line (lit "HTTP_PROXY: " ++ show_optional http_proxy) ;;
     append_line (lit "HTTPS_PROXY: " ++ show_optional https_proxy) ;;
     default_headers <-
       (if contains (lit "openrouter.ai") clean_base_url then
          append_line (lit "Headers: " ++ headers_json) ;;
          ret (Some openrouter_headers)
        else ret None) ;;
     test_client <-
       (match default_headers with
        | None =>
            raise (lit "cannot access local variable 'default_headers' where it is not associated with a value")
        | Some headers =>
            let c := {| client_base_url := JStr clean_base_url;
                        client_api_key := JStr api_key_;
                        client_headers := Some headers;
                        client_timeout := Some 10%Z |} in
            lift (openai_new V c) ;;
            ret c
        end) ;;
     append_line (lit "Attempting chat completion...") ;;
     log_probe (ChatCreate (probe_request model_)) ;;
     answer <- lift (test_chat V test_client (probe_request model_)) ;;
     append_line (lit "Response received.") ;;
     append_line (lit "Content: " ++ show_optional answer) ;;
     p <- get ;;
     ret (true, lit "Connection successful!

" ++ join [LF] (debug_info p)))
    (λ e,
       append_line (lit "ERROR: " ++ e) ;;
       append_line (lit "=== Traceback ===") ;;
       append_line (format_exc V e) ;;
       append_line (lit "
=== Manual Test Command (PowerShell) ===") ;;
       append_line (lit "You can try running this command in terminal to check network:") ;;
       append_line (curl_cmd clean_base_url api_key_ model_) ;;
       p <- get ;;
       ret (false, join [LF] (debug_info p))).

End WithServices.

End LlmConfig.

(** ** ui/settings.py: the two buttons of the dialog *)

Module SettingsDialog.
Import Config LlmConfig.

(** A dialog the settings window put up. *)
Inductive notice : Type :=
| WarningBox (title text : pystr)
| InfoBox (title text : pystr)
| DebugDialog (title message : pystr).

(** The settings window, the engine it configures and the world it acts on. *)
Record settings : Type := {
  api_key_edit : pystr;
  base_url_edit : pystr;
  vision_check : bool;
  history : Settings.dialog;
  engine : llm;
  net : world;
  notices : list notice;
  accepted : bool
}.

Definition notify (n : notice) : M settings unit :=
  modify (λ s, {| api_key_edit := api_key_edit s; base_url_edit := base_url_edit s;
                  vision_check := vision_check s; history := history s;
                  engine := engine s; net := net s;
                  notices := notices s ++ [n]; accepted := accepted s |}).

Definition accept : M settings unit :=
  modify (λ s, {| api_key_edit := api_key_edit s; base_url_edit := base_url_edit s;
                  vision_check := vision_check s; history := history s;
                  engine := engine s; net := net s;
                  notices := notices s; accepted := true |}).

(** Running a method of the engine. *)
Definition on_engine {A} (m : M llm A) : M settings A :=
  λ s, match m (engine s) with
       | (r, e') =>
           (r, {| api_key_edit := api_key_edit s; base_url_edit := base_url_edit s;
                  vision_check := vision_check s; history := history s;
                  engine := e'; net := net s;
                  notices := notices s; accepted := accepted s |})
       end.

(** Running a method of the dialog that works on the history. *)
Definition on_history {A} (m : M Settings.dialog A) : M settings A :=
  λ s, match m (history s) with
       | (r, h') =>
           (r, {| api_key_edit := api_key_edit s; base_url_edit := base_url_edit s;
                  vision_check := vision_check s; history := h';
                  engine := engine s; net := net s;
                  notices := notices s; accepted := accepted s |})
       end.

(** Running the connection test: it starts with an empty [debug_info]. *)
Definition on_net {A} (m : M probe A) : M settings A :=
  λ s, match m {| probe_world := net s; debug_info := [] |} with
       | (r, p') =>
           (r, {| api_key_edit := api_key_edit s; base_url_edit := base_url_edit s;
                  vision_check := vision_check s; history := history s;
                  engine := engine s; net := probe_world p';
                  notices := notices s; accepted := accepted s |})
       end.

(** [self.model_combo.currentText()] *)
Definition current_model : M settings pystr :=
  s <- get ;;
  match Settings.model_combo (history s) with
  | Some c => ret (Settings.current_text c)
  | None => raise (lit "'NoneType' object has no attribute 'currentText'")
  end.

Section WithServices.
Context (V : services).

(** [SettingsDialog.save_settings] *)
Definition save_settings : M settings unit :=
  s <- get ;;
  let api_key_ := strip (api_key_edit s) in
  if negb (nonempty api_key_) then
    notify (WarningBox (lit "Warning") (lit "API Key is empty!"))
  else
    model_ <- current_model ;;
    on_engine (configure V (JStr api_key_) (JStr (strip (base_url_edit s)))
                 (JStr (strip model_))) ;;
    on_engine (set_use_vision (JBool (vision_check s))) ;;
    s <- get ;;
    on_history (Settings.on_disk
      (save_config {[ lit "api_key" := JStr api_key_;
                      lit "base_url" := base_url (engine s);
                      lit "model" := model (engine s);
                      lit "use_vision" := use_vision (engine s) ]})) ;;
    accept.

(** [SettingsDialog.test_connection] *)
Definition test_connection_clicked : M settings unit :=
  s <- get ;;
  let api_key_ := strip (api_key_edit s) in
  let base_url_ := strip (base_url_edit s) in
  model_ <- current_model ;;
  let model_ := strip model_ in
  if negb (nonempty api_key_) then
    notify (WarningBox (lit "Warning") (lit "Please enter API Key first."))
  else
    result <- on_net (test_connection V api_key_ base_url_ model_) ;;
    let (success, message) := (result : bool * pystr) in
    if success then
      on_history (Settings._save_successful_model model_) ;;
      notify (InfoBox (lit "Success") (lit "Connection Verified!"))
    else
      notify (DebugDialog (lit "Connection Failed - Debug Info") message).

End WithServices.

End SettingsDialog.

(** ** setup_check.py *)

Module SetupCheck.

(** What [subprocess.check_call([sys.executable, "-m", "pip", "install",
    name])] does. *)
Inductive pip_result : Type :=
| PipOk                         (* pip exits with 0 *)
| PipFailed                     (* CalledProcessError: pip exits with something else *)
| PipRaised (e : pystr).        (* any other exception, such as an OSError *)

(** What the script asks of the outside. *)
Record shell : Type := {
  (* the truth value of importlib.util.find_spec(name), or its exception *)
  find_spec : pystr -> outcome bool;
  check_call_pip : pystr -> pip_result;
  (* input(prompt): the line typed, or an exception such as EOFError *)
  input_line : outcome pystr;
  (* s.lower() *)
  lower : pystr -> pystr
}.

(** What the script does to the outside, in order. *)
Inductive action : Type :=
| Print (text : pystr)
| FindSpec (name : pystr)
| PipInstall (name : pystr)
| Input (prompt : pystr).

Definition console : Type := list action.

Definition say (a : action) : M console unit := modify (λ t, t ++ [a]).

(** How [main] ends: it returns, or [sys.exit(code)] ends the process. *)
Inductive ending : Type :=
| Returned
| Exit (code : Z).

(** The dict [REQUIRED_PACKAGES], in the order of its items. *)
Definition REQUIRED_PACKAGES : list (pystr * pystr) :=
  [ (lit "PyQt6", lit "PyQt6");
    (lit "paddleocr", lit "paddleocr");
    (lit "paddle", lit "paddlepaddle");
    (lit "openai", lit "openai");
    (lit "PIL", lit "Pillow");
    (lit "requests", lit "requests") ].

Section WithShell.
Context (Sh : shell).

Definition check_package (package_name install_name : pystr) : M console bool :=
  say (Print (lit "Checking " ++ package_name ++ lit "... ")) ;;
  say (FindSpec package_name) ;;
  found <- lift (find_spec Sh package_name) ;;
  if found then say (Print (lit "OK" ++ [LF])) ;; ret true
  else say (Print (lit "MISSING" ++ [LF])) ;; ret false.

Definition install_package (install_name : pystr) : M console bool :=
  say (Print (lit "Installing " ++ install_name ++ lit "..." ++ [LF])) ;;
  say (PipInstall install_name) ;;
  match check_call_pip Sh install_name with
  | PipOk =>
      say (Print (lit "Successfully installed " ++ install_name ++ [LF])) ;;
      ret true
  | PipFailed =>
      say (Print (lit "Failed to install " ++ install_name ++ [LF])) ;;
      ret false
  | PipRaised e => raise e
  end.

(** The loop [for package_name, install_name in REQUIRED_PACKAGES.items():]
    over the items that are left. *)
Fixpoint check_loop (packages : list (pystr * pystr)) (all_good : bool)
    (missing_packages : list pystr) : M console (bool * list pystr) :=
  match packages with
  | [] => ret (all_good, missing_packages)
  | (package_name, install_name) :: rest =>
      ok <- check_package package_name install_name ;;
      if negb ok then check_loop rest false (missing_packages ++ [install_name])
      else check_loop rest all_good missing_packages
  end.

(** The loop [for pkg in missing_packages:]; [sys.exit(1)] ends it. *)
Fixpoint install_loop (missing_packages : list pystr) : M console ending :=
  match missing_packages with
  | [] => ret Returned
  | pkg :: rest =>
      ok <- install_package pkg ;;
      if negb ok then
        say (Print (lit "Error: Installation failed. Please check your internet connection or try manually." ++ [LF])) ;;
        ret (Exit 1)
      else install_loop rest
  end.

Definition consents (choice : pystr) : bool :=
  bool_decide (choice ∈ [[]; lit "y"; lit "yes"]).

Definition main : M console ending :=
  say (Print (lit "=== BubbleTrans Environment Check ===" ++ [LF])) ;;
  checked <- check_loop REQUIRED_PACKAGES true [] ;;
  let all_good := fst checked in
  let missing_packages := snd checked in
  if negb all_good then
    say (Print ([LF] ++ lit "Missing dependencies detected." ++ [LF])) ;;
    say (Input (lit "Do you want to try installing missing packages? ("
                ++ join (lit ", ") missing_packages ++ lit ") [Y/n]: ")) ;;
    line <- lift (input_line Sh) ;;
    let choice := lower Sh (strip line) in
    if consents choice then
      installed <- install_loop missing_packages ;;
      match installed with
      | Exit code => ret (Exit code)
      | Returned =>
          say (Print ([LF] ++ lit "All dependencies installed successfully!" ++ [LF])) ;;
          ret Returned
      end
    else
      say (Print (lit "Please install missing packages manually to run BubbleTrans." ++ [LF])) ;;
      ret (Exit 1)
  else
    say (Print ([LF] ++ lit "Environment is ready!" ++ [LF])) ;;
    ret Returned.

End WithShell.

End SetupCheck.

(** ** ui/window.py: the list of image files *)

Module FileList.
Import MainWindow.

(** What [load_file_list] asks of the outside. *)
Record folder_env : Type := {
  (* os.listdir(path): the names in the folder, or an exception *)
  listdir : pystr -> outcome (list pystr);
  (* s.lower() *)
  lower : pystr -> pystr
}.

(** The last dot of a name and what follows it. *)
Fixpoint last_dot_suffix (name : pystr) : option pystr :=
  match name with
  | [] => None
  | c :: t =>
      match last_dot_suffix t with
      | Some ext => Some ext
      | None => if c =? 46 then Some name else None
      end
  end.

(** [os.path.splitext(name)] for a name without directory part, as
    [os.listdir] gives them: the extension starts at the last dot, unless
    only dots come before it. *)
Definition splitext (name : pystr) : pystr * pystr :=
  match last_dot_suffix name with
  | Some ext =>
      let root := take (length name - length ext) name in
      if forallb (λ c, c =? 46) root then (name, []) else (root, ext)
  | None => (name, [])
  end.

Definition valid_exts : list pystr :=
  [lit ".jpg"; lit ".jpeg"; lit ".png"; lit ".webp"; lit ".bmp"].

(** The order of [str]: by code points, a prefix first. *)
Fixpoint str_le (a b : pystr) : bool :=
  match a, b with
  | [], _ => true
  | _ :: _, [] => false
  | x :: a', y :: b' => (x <? y) || ((x =? y) && str_le a' b')
  end.

Definition str_order (a b : pystr) : Prop := str_le a b = true.

#[global] Instance str_order_dec (a b : pystr) : Decision (str_order a b).
Proof. unfold str_order. apply _. Defined.

(** [sorted(names)]: on strings, where equal elements are the same, any
    sort gives the one sorted arrangement. *)
Definition sorted (names : list pystr) : list pystr :=
  merge_sort str_order names.

Section WithFolder.
Context (F : folder_env).

(** The test of the list comprehension. *)
Definition is_image (name : pystr) : bool :=
  bool_decide (lower F (snd (splitext name)) ∈ valid_exts).

(** The file list of the window, and the boxes shown. *)
Record browser : Type := {
  file_list : list pystr;
  current_folder : pystr;
  shown_boxes : list box
}.

(** [MainWindow.load_file_list] *)
Definition load_file_list (b : browser) : browser :=
  let b := {| file_list := []; current_folder := current_folder b;
              shown_boxes := shown_boxes b |} in
  match listdir F (current_folder b) with
  | Ret names =>
      let files := sorted (List.filter is_image names) in
      {| file_list := file_list b ++ files; current_folder := current_folder b;
         shown_boxes := shown_boxes b |}
  | Raise e =>
      {| file_list := file_list b; current_folder := current_folder b;
         shown_boxes := shown_boxes b
                        ++ [Critical (lit "Error") (lit "Failed to load folder: " ++ e)] |}
  end.

End WithFolder.

End FileList.

(** * Facts

    Sanity checks of the string primitives on literals. *)

Example lit_ascii : lit "OCR" = [79; 67; 82].
Proof. reflexivity. Qed.

Example lit_cjk : lit "「" = [12300].
Proof. reflexivity. Qed.

Example strip_ex : strip (lit "  a b
 ") = lit "a b".
Proof. reflexivity. Qed.

Example replace_ex : replace (lit "aa") (lit "b") (lit "aaaxaa") = lit "baxb".
Proof. reflexivity. Qed.

Example split_ex : split LF (lit "a
b
") = [lit "a"; lit "b"; []].
Proof. reflexivity. Qed.

Example join_ex : join [LF] [lit "a"; lit "b"; []] = lit "a
b
".
Proof. reflexivity. Qed.

(** ** Facts about utils/config.py *)

Section ConfigFacts.
Import Config.

(** [load_config] leaves the disk as it found it. *)
Lemma load_config_pure (d : disk) : snd (load_config d) = d.
Proof.
  destruct d as [file w].
  unfold load_config, bind, os_path_exists, try_except, read_json, ret.
  destruct file; reflexivity.
Qed.

(** [load_config] returns, whatever the file is. *)
Lemma load_config_returns (d : disk) :
  ∃ v, load_config d = (Ret v, d).
Proof.
  destruct d as [file w].
  unfold load_config, bind, os_path_exists, try_except, read_json, ret.
  destruct file; cbn; eauto.
Qed.

Lemma stored_dict_spec (d : disk) :
  stored_dict d =
    match config_json d with
    | Stored (JObj m) => Some m
    | Stored _ => None
    | _ => Some ∅
    end.
Proof.
  destruct d as [file w].
  unfold stored_dict, load_config, bind, os_path_exists, try_except, read_json, ret.
  destruct file as [| e | e | v]; reflexivity.
Qed.

(** C9. [load_config] never raises and always returns a value: the parsed
    content of config.json when the file exists and parses, and the empty
    dict when the file does not exist, cannot be read or is not valid
    JSON.  The disk is left as it was. *)
Theorem load_config_never_raises (d : disk) :
  ∃ v, load_config d = (Ret v, d)
       ∧ (∀ content, config_json d = Stored content → v = content)
       ∧ (config_json d = Absent → v = JObj ∅)
       ∧ (∀ e, config_json d = Unreadable e → v = JObj ∅)
       ∧ (∀ e, config_json d = Malformed e → v = JObj ∅).
Proof.
  destruct d as [file w].
  unfold load_config, bind, os_path_exists, try_except, read_json, ret.
  destruct file as [| e | e | v]; cbn.
  - exists (JObj ∅). repeat split; intros; congruence.
  - exists (JObj ∅). repeat split; intros; congruence.
  - exists (JObj ∅). repeat split; intros; congruence.
  - exists v. repeat split; intros; congruence.
Qed.

(** What [save_config] does, by the dict the load step sees and by what the
    write does. *)
Lemma save_config_cases (data : gmap pystr json) (d : disk) :
  save_config data d =
    match stored_dict d, on_write d with
    | None, _ => (Ret false, d)
    | Some prev, Writes =>
        (Ret true, {| config_json := Stored (JObj (data ∪ prev)); on_write := Writes |})
    | Some prev, OpenRaises e => (Ret false, d)
    | Some prev, DumpRaises e =>
        (Ret false, {| config_json := Malformed e; on_write := DumpRaises e |})
    end.
Proof.
  rewrite stored_dict_spec.
  unfold save_config, try_except, bind, load_config, os_path_exists, read_json,
    lift, dict_update, write_json, ret.
  destruct d as [file w].
  destruct file as [| e | e | v]; [destruct w; reflexivity .. |].
  destruct v; try reflexivity.
  destruct w; reflexivity.
Qed.

(** C8. [save_config] is a read-merge-write.  It never propagates an
    exception: it returns [True] or [False].  After a call that returned
    [True], the stored configuration maps every key of [data] to the value
    [data] gives it and every other key to the value the configuration
    loaded before the call gave it.  It returns [False] exactly when a
    step raises (the loaded value is no dict, or opening or dumping
    fails). *)
Theorem save_config_read_merge_write (data : gmap pystr json) (d : disk) :
  ∃ (ok : bool) (d' : disk),
    save_config data d = (Ret ok, d')
    ∧ (ok = true →
       ∃ prev new,
         stored_dict d = Some prev
         ∧ stored_dict d' = Some new
         ∧ (∀ k v, data !! k = Some v → new !! k = Some v)
         ∧ (∀ k, data !! k = None → new !! k = prev !! k))
    ∧ (ok = false ↔ save_step_raises d).
Proof.
  rewrite save_config_cases. unfold save_step_raises.
  destruct (stored_dict d) as [prev |] eqn:Hprev.
  - destruct (on_write d) as [| e | e] eqn:Hw.
    + eexists true, _. split; [reflexivity |]. split.
      * intros _. exists prev, (data ∪ prev).
        repeat split.
        -- intros k v Hk. apply lookup_union_Some_l. exact Hk.
        -- intros k Hk. apply lookup_union_r. exact Hk.
      * split; [discriminate |]. intros [H | H]; [discriminate | congruence].
    + eexists false, _. split; [reflexivity |]. split; [discriminate |].
      split; [| reflexivity]. intros _. right. discriminate.
    + eexists false, _. split; [reflexivity |]. split; [discriminate |].
      split; [| reflexivity]. intros _. right. discriminate.
  - eexists false, _. split; [reflexivity |]. split; [discriminate |].
    split; [| reflexivity]. intros _. left. reflexivity.
Qed.

(** A save into a configuration that already has other keys. *)
Example save_config_keeps_other_keys :
  let d := {| config_json :=
                Stored (JObj {[ lit "api_key" := JStr (lit "k1");
                                lit "model" := JStr (lit "m1") ]});
              on_write := Writes |} in
  ∃ d', save_config {[ lit "model" := JStr (lit "m2") ]} d = (Ret true, d')
        ∧ stored_dict d' = Some {[ lit "api_key" := JStr (lit "k1");
                                   lit "model" := JStr (lit "m2") ]}.
Proof.
  cbv zeta. rewrite save_config_cases, stored_dict_spec.
  eexists. split; [reflexivity |].
  rewrite stored_dict_spec. vm_compute. reflexivity.
Qed.

(** A config.json that holds a list: the merge step raises, [False] comes back. *)
Example save_config_not_a_dict :
  let d := {| config_json := Stored (JArr []); on_write := Writes |} in
  save_config {[ lit "model" := JStr (lit "m2") ]} d = (Ret false, d).
Proof. cbv zeta. rewrite save_config_cases, stored_dict_spec. reflexivity. Qed.

End ConfigFacts.

(** ** Facts about the successful-model history *)

Section SettingsFacts.
Import Config Settings.

Lemma or_empty (s : pystr) : (if nonempty s then s else []) = s.
Proof. destruct s; reflexivity. Qed.

(** The loop of [_load_successful_models] keeps its accumulator free of
    repetitions, as long as [seen] holds what [cleaned] holds. *)
Lemma clean_loop_NoDup (models : list json) :
  ∀ (cleaned : list pystr) (seen : gset pystr),
    NoDup cleaned →
    (∀ x, x ∈ cleaned ↔ x ∈ seen) →
    NoDup (clean_loop models cleaned seen).
Proof.
  induction models as [| item rest IH]; intros cleaned seen Hnd Hseen; cbn.
  - exact Hnd.
  - destruct item; try (apply IH; assumption).
    destruct (nonempty (strip s)); cbn; [| apply IH; assumption].
    case_bool_decide as Hin; cbn; [apply IH; assumption |].
    apply IH.
    + apply NoDup_app. repeat split.
      * exact Hnd.
      * intros x Hx Hx'. apply list_elem_of_singleton in Hx'. subst x.
        apply Hin, Hseen, Hx.
      * apply NoDup_singleton.
    + intros x. rewrite elem_of_app, list_elem_of_singleton, elem_of_union,
        elem_of_singleton, Hseen. tauto.
Qed.

Lemma load_config_of_stored_dict (d : disk) (prev : gmap pystr json) :
  stored_dict d = Some prev → load_config d = (Ret (JObj prev), d).
Proof.
  unfold stored_dict. intros H.
  destruct (load_config_returns d) as [v Hv]. rewrite Hv in *. cbn in H.
  destruct v; try discriminate. congruence.
Qed.

(** What [_load_successful_models] returns on a configuration that loads as
    a dict: a list without repetitions. *)
Lemma load_successful_models_NoDup (d : disk) (prev : gmap pystr json) :
  stored_dict d = Some prev →
  ∃ models, _load_successful_models d = (Ret models, d) ∧ NoDup models.
Proof.
  intros Hprev. unfold _load_successful_models, bind.
  rewrite (load_config_of_stored_dict _ _ Hprev). cbn.
  destruct (prev !! lit "successful_models") as [v |]; cbn.
  - destruct v; try (eexists; split; [reflexivity | constructor]).
    eexists; split; [reflexivity |].
    apply clean_loop_NoDup; [constructor | set_solver].
  - eexists; split; [reflexivity | constructor].
Qed.

(** The list [_save_successful_model] hands to [save_config]. *)
Definition new_history (model : pystr) (models : list pystr) : list pystr :=
  take 30 (model :: filter (fun m => m ≠ model) models).

Lemma new_history_mru (model : pystr) (models : list pystr) :
  NoDup models →
  head (new_history model models) = Some model
  ∧ NoDup (new_history model models)
  ∧ (length (new_history model models) ≤ 30)%nat.
Proof.
  intros Hnd. unfold new_history. repeat split.
  - eapply sublist_NoDup; [| apply sublist_take].
    apply NoDup_cons. split.
    + rewrite list_elem_of_filter. intros [Hne _]. contradiction.
    + apply NoDup_filter, Hnd.
  - rewrite length_take. lia.
Qed.

(** C10, as amended.  For a model name that is not blank, when the
    configuration file loads as a dict (it holds a JSON object, or it is
    absent, unreadable or malformed, which loads as the empty dict) and
    the write goes through, [_save_successful_model] returns and the
    stored ["successful_models"] list has the stripped model as its first
    element, no duplicates and at most 30 elements.  For a blank name
    nothing changes at all. *)
Theorem save_successful_model_mru (model : pystr) (g : dialog) :
  (nonempty (strip model) = true →
   is_Some (stored_dict (files g)) →
   on_write (files g) = Writes →
   ∃ g' history,
     _save_successful_model model g = (Ret tt, g')
     ∧ stored_models g' = Some (JArr (JStr <$> history))
     ∧ head history = Some (strip model)
     ∧ NoDup history
     ∧ (length history ≤ 30)%nat)
  ∧ (nonempty (strip model) = false →
     _save_successful_model model g = (Ret tt, g)).
Proof.
  unfold _save_successful_model. rewrite or_empty. split.
  - intros Hmodel [prev Hprev] Hw. rewrite Hmodel. cbn [negb].
    destruct (load_successful_models_NoDup _ _ Hprev) as (models & Hload & Hnd).
    destruct (new_history_mru (strip model) models Hnd) as (Hhead & Hnd' & Hlen).
    unfold bind at 1. unfold on_disk at 1. rewrite Hload.
    unfold bind at 1. unfold on_disk at 1. cbn [files model_combo].
    rewrite save_config_cases, Hprev, Hw.
    fold (new_history (strip model) models).
    eexists _, (new_history (strip model) models).
    split; [unfold update_combo, modify; reflexivity |].
    split; [| auto].
    unfold stored_models.
    destruct (model_combo g); cbn [files]; rewrite stored_dict_spec; cbn;
      (rewrite lookup_union_l'; [| eexists]; apply lookup_singleton_eq).
  - intros Hmodel. rewrite Hmodel. reflexivity.
Qed.

(** When opening the file for writing raises, [save_config] returns
    [False], which [_save_successful_model] does not look at: it returns
    as usual and the disk is as before. *)
Lemma save_successful_model_open_raises (model e : pystr) (g : dialog) :
  nonempty (strip model) = true →
  is_Some (stored_dict (files g)) →
  on_write (files g) = OpenRaises e →
  ∃ g', _save_successful_model model g = (Ret tt, g') ∧ files g' = files g.
Proof.
  intros Hmodel [prev Hprev] Hw.
  unfold _save_successful_model. rewrite or_empty, Hmodel. cbn [negb].
  destruct (load_successful_models_NoDup _ _ Hprev) as (models & Hload & _).
  unfold bind at 1. unfold on_disk at 1. rewrite Hload.
  unfold bind at 1. unfold on_disk at 1. cbn [files model_combo].
  rewrite save_config_cases, Hprev, Hw.
  unfold update_combo, modify. eexists. split; [reflexivity |].
  destruct (model_combo g); reflexivity.
Qed.

(** A dialog over a read-only config.json whose history is ["b"]. *)
Definition read_only_dialog : dialog :=
  {| model_combo := None;
     files := {| config_json :=
                   Stored (JObj {[ lit "successful_models" := JArr [JStr (lit "b")] ]});
                 on_write := OpenRaises (lit "[Errno 13] Permission denied: 'config.json'") |} |}.

(** The claim as it stands fails when the write does not go through:
    after [_save_successful_model("a")] on the read-only file the stored
    list still is ["b"], whose first element is not "a". *)
Lemma save_successful_model_write_fails :
  nonempty (strip (lit "a")) = true
  ∧ ∃ g', _save_successful_model (lit "a") read_only_dialog = (Ret tt, g')
          ∧ stored_models g' = Some (JArr [JStr (lit "b")])
          ∧ head [JStr (lit "b")] ≠ Some (JStr (strip (lit "a"))).
Proof.
  split; [reflexivity |].
  assert (Hdict : stored_dict (files read_only_dialog)
                  = Some {[ lit "successful_models" := JArr [JStr (lit "b")] ]})
    by (rewrite stored_dict_spec; reflexivity).
  edestruct (save_successful_model_open_raises (lit "a")) with (g := read_only_dialog)
    as (g' & Hrun & Hfiles); [reflexivity | by eexists | reflexivity |].
  exists g'. split; [exact Hrun |]. split.
  - unfold stored_models. rewrite Hfiles, Hdict. apply lookup_singleton_eq.
  - vm_compute. congruence.
Qed.

(** A dialog over a writable config.json whose history is ["b", " a "]. *)
Definition writable_dialog : dialog :=
  {| model_combo := None;
     files := {| config_json :=
                   Stored (JObj {[ lit "successful_models" :=
                                     JArr [JStr (lit "b"); JStr (lit " a ")] ]});
                 on_write := Writes |} |}.

(** The amended statement at work: the second model of the history is
    chosen again. *)
Lemma save_successful_model_mru_witness :
  ∃ g' history,
    _save_successful_model (lit "a") writable_dialog = (Ret tt, g')
    ∧ stored_models g' = Some (JArr (JStr <$> history))
    ∧ head history = Some (strip (lit "a"))
    ∧ NoDup history
    ∧ (length history ≤ 30)%nat.
Proof.
  apply (proj1 (save_successful_model_mru (lit "a") writable_dialog)).
  - reflexivity.
  - rewrite stored_dict_spec. eexists. reflexivity.
  - reflexivity.
Defined.

End SettingsFacts.

(** ** Facts about [on_translation_finished] *)

Section PaneFacts.
Import Window.





Lemma unwrap_quotes_wrapped (q : N) (body : pystr) :
  q = SQUOTE ∨ q = DQUOTE → unwrap_quotes (q :: body ++ [q]) = body.
Proof.
  intros Hq. unfold unwrap_quotes.
  rewrite (last_snoc q (q :: body) : last (q :: body ++ [q]) = Some q).
  replace ((2 <=? length (q :: body ++ [q]))%nat) with true
    by (symmetry; apply Nat.leb_le; cbn; rewrite length_app; cbn; lia).
  rewrite N.eqb_refl.
  replace ((q =? SQUOTE) || (q =? DQUOTE)) with true
    by (destruct Hq as [-> | ->]; reflexivity).
  cbn [andb]. apply removelast_last.
Qed.



Definition empty_panes : panes :=
  {| ocr_text_edit := []; trans_text_edit := []; status_bar := lit "Ready" |}.


(** It fails as well on a translation the model wrapped in quotes. *)
Example on_translation_finished_quoted :
  trans_text_edit (on_translation_finished (lit "HI") (lit "'你好'") empty_panes)
  = lit "你好".
Proof. vm_compute. reflexivity. Qed.


End PaneFacts.

(** ** Facts about [_extract_text] *)

Section ExtractFacts.
Import Ocr.
Context (E : env).

(** A line of the result: it is the stripped form of an extracted text and
    it is not blank. *)
Definition stripped_line (l : pystr) : Prop :=
  nonempty l = true ∧ ∃ x, l = strip x.

Lemma append_text_lines (lines : list pystr) (x : pyval) :
  Forall stripped_line lines → Forall stripped_line (append_text lines x).
Proof.
  intros H. destruct x; try exact H. unfold append_text.
  destruct (nonempty (strip s)) eqn:Hs; [| exact H].
  apply Forall_app. split; [exact H |].
  constructor; [| constructor]. split; [exact Hs | eauto].
Qed.

Lemma foldl_append_text_lines (value : list pyval) :
  ∀ lines, Forall stripped_line lines →
           Forall stripped_line (foldl append_text lines value).
Proof.
  induction value as [| x rest IH]; intros lines H; [exact H |].
  apply IH, append_text_lines, H.
Qed.

Lemma item_dict_lists_lines (d : gmap pystr pyval) (keys : list pystr) :
  ∀ lines, Forall stripped_line lines →
           Forall stripped_line (item_dict_lists d keys lines).
Proof.
  induction keys as [| key rest IH]; intros lines H; [exact H |].
  cbn [item_dict_lists]. destruct (dict_get d key); try (apply IH, H).
  apply IH, foldl_append_text_lines, H.
Qed.

Lemma join_texts_lines (value : list pyval) :
  ∃ lines, join_texts E value = join [LF] lines ∧ Forall stripped_line lines.
Proof.
  unfold join_texts. eexists. split; [reflexivity |].
  induction value as [| x rest IH]; [constructor |].
  cbn [omap list_omap].
  destruct (nonempty (strip (py_str E x))) eqn:Hx; [| exact IH].
  constructor; [| exact IH]. split; [exact Hx | eauto].
Qed.

Lemma strip_lines (s : pystr) :
  ∃ lines, strip s = join [LF] lines ∧ Forall stripped_line lines.
Proof.
  destruct (nonempty (strip s)) eqn:Hs.
  - exists [strip s]. split; [reflexivity |].
    constructor; [| constructor]. split; [exact Hs | eauto].
  - exists []. split; [| constructor]. destruct (strip s); [reflexivity | discriminate].
Qed.

Lemma dict_text_lines (d : gmap pystr pyval) (keys : list pystr) :
  ∃ lines, dict_text E d keys = join [LF] lines ∧ Forall stripped_line lines.
Proof.
  induction keys as [| key rest IH].
  - exists []. split; [reflexivity | constructor].
  - cbn [dict_text]. destruct (dict_get d key); try exact IH.
    + apply strip_lines.
    + apply join_texts_lines.
Qed.

(** The guard [len(item) >= 2] makes [item[1]] safe, and so on. *)
Lemma index_in_range (l : list pyval) (i : nat) :
  (S i <=? length l)%nat = true → ∃ x, l !! i = Some x.
Proof.
  intros H. apply Nat.leb_le in H.
  destruct (lookup_lt_is_Some_2 l i) as [x Hx]; [lia | eauto].
Qed.

(** One round of the loop returns, and keeps the lines well formed. *)
Lemma extract_item_returns (lines : list pystr) (item : pyval) (s : unit) :
  Forall stripped_line lines →
  ∃ lines', extract_item lines item s = (Ret lines', s)
            ∧ Forall stripped_line lines'.
Proof.
  intros H.
  assert (Hsecond : ∀ second,
    ∃ lines', match second with
              | PList l2 | PTuple l2 =>
                  if (1 <=? length l2)%nat
                  then bind (lift (py_index second 0))
                            (λ text, ret (append_text lines text))
                  else ret lines
              | _ => ret lines
              end s = (Ret lines', s) ∧ Forall stripped_line lines').
  { intros second.
    destruct second as [| | | | l2 | l2 | |]; try (exists lines; split; [reflexivity | exact H]).
    - destruct (1 <=? length l2)%nat eqn:Hlen; [| exists lines; split; [reflexivity | exact H]].
      destruct (index_in_range l2 0 Hlen) as [text Htext].
      unfold bind, lift, py_index. rewrite Htext.
      eexists. split; [reflexivity |]. apply append_text_lines, H.
    - destruct (1 <=? length l2)%nat eqn:Hlen; [| exists lines; split; [reflexivity | exact H]].
      destruct (index_in_range l2 0 Hlen) as [text Htext].
      unfold bind, lift, py_index. rewrite Htext.
      eexists. split; [reflexivity |]. apply append_text_lines, H. }
  destruct item as [| | | s0 | l | l | d |]; try (exists lines; split; [reflexivity | exact H]).
  - eexists. split; [reflexivity |]. apply append_text_lines, H.
  - unfold extract_item.
    destruct (2 <=? length l)%nat eqn:Hlen; [| exists lines; split; [reflexivity | exact H]].
    destruct (index_in_range l 1 Hlen) as [second Hsnd].
    unfold bind at 1. unfold lift at 1. unfold py_index at 1. rewrite Hsnd.
    apply Hsecond.
  - unfold extract_item.
    destruct (2 <=? length l)%nat eqn:Hlen; [| exists lines; split; [reflexivity | exact H]].
    destruct (index_in_range l 1 Hlen) as [second Hsnd].
    unfold bind at 1. unfold lift at 1. unfold py_index at 1. rewrite Hsnd.
    apply Hsecond.
  - eexists. split; [reflexivity |].
    apply append_text_lines, item_dict_lists_lines, H.
Qed.

Lemma extract_items_returns (items : list pyval) (s : unit) :
  ∀ lines, Forall stripped_line lines →
    ∃ lines', extract_items items lines s = (Ret lines', s)
              ∧ Forall stripped_line lines'.
Proof.
  induction items as [| item rest IH]; intros lines H.
  - exists lines. split; [reflexivity | exact H].
  - destruct (extract_item_returns lines item s H) as (lines1 & Hrun & H1).
    cbn [extract_items]. unfold bind. rewrite Hrun. apply IH, H1.
Qed.

(** [_extract_text] returns on every value, and what it returns is made of
    stripped lines that are not blank. *)
Lemma extract_text_returns_lines (result : pyval) (s : unit) :
  ∃ text lines,
    _extract_text E result s = (Ret text, s)
    ∧ text = join [LF] lines
    ∧ Forall stripped_line lines.
Proof.
  destruct result as [| | | s0 | items | items | d |];
    try (exists [], []; split; [reflexivity | split; [reflexivity | constructor]]).
  - destruct (strip_lines s0) as (lines & Hjoin & Hlines).
    exists (strip s0), lines. split; [reflexivity | split; assumption].
  - unfold _extract_text.
    destruct items as [| first rest];
      [exists [], []; split; [reflexivity | split; [reflexivity | constructor]] |].
    assert (Hpick : ∃ chosen,
      (if (length (first :: rest) =? 1)%nat
       then bind (lift (py_index (PList (first :: rest)) 0))
                 (λ first0, match first0 with
                            | PList inner => ret inner
                            | _ => ret (first :: rest)
                            end)
       else ret (first :: rest)) s = (Ret chosen, s)).
    { destruct (length (first :: rest) =? 1)%nat; [| eauto].
      unfold bind, lift, py_index. cbn [lookup list_lookup].
      destruct first; eauto. }
    destruct Hpick as [chosen Hchosen].
    unfold bind at 1. rewrite Hchosen.
    destruct (extract_items_returns chosen s [] (Forall_nil_2 _)) as (lines & Hrun & Hlines).
    unfold bind at 1. rewrite Hrun.
    exists (join [LF] lines), lines. split; [reflexivity | split; [reflexivity | exact Hlines]].
  - destruct (dict_text_lines d [lit "rec_texts"; lit "texts"; lit "text"; lit "result"])
      as (lines & Hjoin & Hlines).
    eexists _, lines. split; [reflexivity | split; assumption].
Qed.

(** The text [_extract_text] returns for [result]. *)
Definition extracted (result : pyval) : pystr :=
  match eval (_extract_text E result) with
  | Ret text => text
  | Raise _ => []
  end.

Lemma eval_extract_text (result : pyval) :
  eval (_extract_text E result) = Ret (extracted result).
Proof.
  unfold extracted, eval.
  destruct (extract_text_returns_lines result tt) as (text & lines & Hrun & _).
  rewrite Hrun. reflexivity.
Qed.


End ExtractFacts.

(** ** Running computations over the world *)

Section TraceFacts.

(** The world after more events. *)
Definition extend (w : world) (evs : list event) : world :=
  {| initialized := initialized w; trace := trace w ++ evs |}.

Lemma extend_nil (w : world) : extend w [] = w.
Proof. destruct w as [i t]. unfold extend. cbn. rewrite app_nil_r. reflexivity. Qed.

Lemma extend_extend (w : world) (a b : list event) :
  extend (extend w a) b = extend w (a ++ b).
Proof. unfold extend. cbn. rewrite app_assoc. reflexivity. Qed.

Lemma initialized_extend (w : world) (evs : list event) :
  initialized (extend w evs) = initialized w.
Proof. reflexivity. Qed.

Lemma trace_extend (w : world) (evs : list event) :
  trace (extend w evs) = trace w ++ evs.
Proof. reflexivity. Qed.

Lemma log_run (ev : event) (w : world) : log ev w = (Ret tt, extend w [ev]).
Proof. reflexivity. Qed.

Lemma bind_log {A} (ev : event) (k : unit → M world A) (w : world) :
  bind (log ev) k w = k tt (extend w [ev]).
Proof. reflexivity. Qed.

Lemma bind_ret {St A B} (a : A) (k : A → M St B) (s : St) :
  bind (ret a) k s = k a s.
Proof. reflexivity. Qed.

Lemma bind_lift {St A B} (o : outcome A) (k : A → M St B) (s : St) :
  bind (lift o) k s =
    match o with
    | Ret a => k a s
    | Raise e => (Raise e, s)
    end.
Proof. destruct o; reflexivity. Qed.

Lemma bind_get {St B} (k : St → M St B) (s : St) : bind get k s = k s s.
Proof. reflexivity. Qed.

(** A computation that only ever adds events, all of them of one kind, and
    at most sets the [initialized] flag. *)
Definition appends {A} (P : event → Prop) (m : M world A) : Prop :=
  ∀ w, ∃ evs, trace (snd (m w)) = trace w ++ evs ∧ Forall P evs.

(** A computation that does not raise. *)
Definition returns {St A} (m : M St A) : Prop :=
  ∀ s, ∃ a, fst (m s) = Ret a.

Context {P : event → Prop}.

Lemma appends_ret {A} (a : A) : appends P (ret a).
Proof. intros w. exists []. cbn. rewrite app_nil_r. auto. Qed.

Lemma appends_raise {A} (e : pystr) : appends P (raise (A := A) e).
Proof. intros w. exists []. cbn. rewrite app_nil_r. auto. Qed.

Lemma appends_lift {A} (o : outcome A) : appends P (lift o).
Proof. intros w. exists []. cbn. rewrite app_nil_r. auto. Qed.

Lemma appends_get : appends P get.
Proof. intros w. exists []. cbn. rewrite app_nil_r. auto. Qed.

Lemma appends_set_initialized : appends P set_initialized.
Proof. intros w. exists []. cbn. rewrite app_nil_r. auto. Qed.

Lemma appends_log (ev : event) : P ev → appends P (log ev).
Proof. intros Hev w. exists [ev]. cbn. auto. Qed.

Lemma appends_bind {A B} (m : M world A) (k : A → M world B) :
  appends P m → (∀ a, appends P (k a)) → appends P (bind m k).
Proof.
  intros Hm Hk w. unfold bind.
  destruct (Hm w) as (evs1 & Ht1 & H1).
  destruct (m w) as [[a | e] w1]; cbn in Ht1.
  - destruct (Hk a w1) as (evs2 & Ht2 & H2).
    exists (evs1 ++ evs2). rewrite Ht2, Ht1, app_assoc.
    split; [reflexivity | apply Forall_app; auto].
  - exists evs1. cbn. auto.
Qed.

Lemma appends_try_except {A} (m : M world A) (h : pystr → M world A) :
  appends P m → (∀ e, appends P (h e)) → appends P (try_except m h).
Proof.
  intros Hm Hh w. unfold try_except.
  destruct (Hm w) as (evs1 & Ht1 & H1).
  destruct (m w) as [[a | e] w1]; cbn in Ht1.
  - exists evs1. cbn. auto.
  - destruct (Hh e w1) as (evs2 & Ht2 & H2).
    exists (evs1 ++ evs2). rewrite Ht2, Ht1, app_assoc.
    split; [reflexivity | apply Forall_app; auto].
Qed.

Lemma appends_try_finally {A} (m : M world A) (f : M world unit) :
  appends P m → appends P f → appends P (try_finally m f).
Proof.
  intros Hm Hf w. unfold try_finally.
  destruct (Hm w) as (evs1 & Ht1 & H1).
  destruct (m w) as [r w1]; cbn in Ht1.
  destruct (Hf w1) as (evs2 & Ht2 & H2).
  exists (evs1 ++ evs2).
  split; [| apply Forall_app; auto].
  destruct (f w1) as [[u | e] w2]; cbn in *; rewrite Ht2, Ht1, app_assoc; reflexivity.
Qed.

Lemma returns_ret {St A} (a : A) : returns (St := St) (ret a).
Proof. intros s. eauto. Qed.

Lemma returns_bind {St A B} (m : M St A) (k : A → M St B) :
  returns m → (∀ a, returns (k a)) → returns (bind m k).
Proof.
  intros Hm Hk s. unfold bind. destruct (Hm s) as [a Ha].
  destruct (m s) as [r s1]. cbn in Ha. subst r. apply Hk.
Qed.

Lemma returns_try_except {St A} (m : M St A) (h : pystr → M St A) :
  (∀ e, returns (h e)) → returns (try_except m h).
Proof.
  intros Hh s. unfold try_except. destruct (m s) as [[a | e] s1]; [cbn; eauto |].
  apply Hh.
Qed.

End TraceFacts.

(** ** Facts about [recognize] *)

Section RecognizeFacts.
Import Ocr.
Context (E : env).

(** The strategies of [recognize], in the words of its docstring. *)
Inductive strategy : Type :=
| Standard
| Lenient
| Upscaled (scale : Z).

(** What the recogniser is asked, by the API the installed PaddleOCR has. *)
Definition recognizer_call (lenient : bool) (path : pystr) : outcome pyval :=
  if has_predict E then predict E path (kwargs_for lenient) else legacy_ocr E path.

Definition call_event (lenient : bool) (path : pystr) : event :=
  if has_predict E then CallPredict path (kwargs_for lenient) else CallOcr path.

(** The text a strategy extracts from what the recogniser answers. *)
Definition text_of (answer : outcome pyval) : outcome pystr :=
  match answer with
  | Ret result => Ret (extracted E result)
  | Raise e => Raise e
  end.

(** A strategy, the text it yields or the exception it dies of, and the
    events it leaves. *)
Definition step : Type := strategy * outcome pystr * list event.

(** Scaling the padded image up, saving it to a temporary file and
    recognising that file with the lowered thresholds. *)
Definition upscaled_step (image_path : pystr) (size : Z * Z) (scale : Z) : step :=
  match image_resize E image_path ((fst size * scale)%Z, (snd size * scale)%Z) with
  | Raise e => (Upscaled scale, Raise e, [])
  | Ret _ =>
      match mkstemp E scale with
      | Raise e => (Upscaled scale, Raise e, [])
      | Ret tmp_path =>
          let removed :=
            if nonempty tmp_path && path_exists E tmp_path then [Unlink tmp_path] else [] in
          match image_save E tmp_path with
          | Raise e => (Upscaled scale, Raise e, removed)
          | Ret _ =>
              (Upscaled scale, text_of (recognizer_call true tmp_path),
               call_event true tmp_path :: removed)
          end
      end
  end.

(** The scales tried on an image: none when the image cannot be opened or
    padded, or is too large already. *)
Definition scales_for (image_path : pystr) : list Z :=
  match image_open E image_path with
  | Raise _ => []
  | Ret (w, h) =>
      if (w <=? 0)%Z || (h <=? 0)%Z then []
      else
        match image_expand E image_path (pad_of w h) with
        | Raise _ => []
        | Ret _ =>
            let pad := pad_of w h in
            scales_of (Z.max (w + 2 * pad) (h + 2 * pad))
        end
  end.

Definition padded_size (image_path : pystr) : Z * Z :=
  match image_open E image_path with
  | Ret (w, h) => ((w + 2 * pad_of w h)%Z, (h + 2 * pad_of w h)%Z)
  | Raise _ => (0, 0)%Z
  end.

(** The strategies [recognize] has for an image, in their fixed order:
    standard, lenient (with the [predict] API), then the upscaled ones. *)
Definition plan (image_path : pystr) : list step :=
  [(Standard, text_of (recognizer_call false image_path), [call_event false image_path])]
  ++ (if has_predict E
      then [(Lenient, text_of (predict E image_path (kwargs_for true)),
             [CallPredict image_path (kwargs_for true)])]
      else [])
  ++ (upscaled_step image_path (padded_size image_path) <$> scales_for image_path).

(** Going through the strategies: the first one whose stripped text is not
    empty gives the result; an exception ends the search, as an
    ["OCR Error: ..."] string when the standard or the lenient strategy
    raised it, and as the empty string when an upscaled one did; the
    empty string comes back when no strategy yields text.  The events are
    those of the strategies gone through. *)
Fixpoint first_text (steps : list step) : pystr * list event :=
  match steps with
  | [] => ([], [])
  | (_, Ret text, evs) :: rest =>
      if nonempty (strip text) then (text, evs)
      else (fst (first_text rest), evs ++ snd (first_text rest))
  | (Upscaled _, Raise e, evs) :: _ => ([], evs)
  | (_, Raise e, evs) :: _ => (lit "OCR Error: " ++ e, evs)
  end.

(** [Some text] when an attempt returns [text] to the caller. *)
Definition hit (text : pystr) : option pystr :=
  if nonempty (strip text) then Some text else None.

Lemma attempt_run (call : M world pyval) (w : world) :
  attempt E call w =
    match call w with
    | (Ret result, w') => (Ret (hit (extracted E result)), w')
    | (Raise e, w') => (Raise e, w')
    end.
Proof.
  unfold attempt, bind. destruct (call w) as [[result | e] w']; [| reflexivity].
  unfold lift. rewrite eval_extract_text. unfold hit.
  destruct (nonempty (strip (extracted E result))); reflexivity.
Qed.

(** An attempt through whichever API there is. *)
Lemma strategy_run (lenient : bool) (path : pystr) (w : world) :
  (if has_predict E then attempt E (_predict E path lenient)
   else attempt E (call_ocr E path)) w =
    (match text_of (recognizer_call lenient path) with
     | Ret text => Ret (hit text)
     | Raise e => Raise e
     end,
     extend w [call_event lenient path]).
Proof.
  unfold recognizer_call, call_event, _predict, call_ocr.
  destruct (has_predict E); rewrite attempt_run; cbn [negb];
    rewrite bind_log; unfold lift.
  - destruct (predict E path (kwargs_for lenient)); reflexivity.
  - destruct (legacy_ocr E path); reflexivity.
Qed.

(** What the loop over the scales comes to. *)
Fixpoint loop_outcome (steps : list step) : outcome (option pystr) * list event :=
  match steps with
  | [] => (Ret None, [])
  | (_, Ret text, evs) :: rest =>
      if nonempty (strip text) then (Ret (Some text), evs)
      else (fst (loop_outcome rest), evs ++ snd (loop_outcome rest))
  | (_, Raise e, evs) :: _ => (Raise e, evs)
  end.

Lemma scale_loop_run (image_path : pystr) (size : Z * Z) (scales : list Z) :
  ∀ w, scale_loop E image_path size scales w =
       (fst (loop_outcome (upscaled_step image_path size <$> scales)),
        extend w (snd (loop_outcome (upscaled_step image_path size <$> scales)))).
Proof.
  induction scales as [| scale rest IH]; intros w.
  - cbn [scale_loop fmap list_fmap loop_outcome fst snd].
    rewrite extend_nil. reflexivity.
  - cbn [scale_loop fmap list_fmap loop_outcome].
    set (tail := loop_outcome (upscaled_step image_path size <$> rest)) in *.
    unfold upscaled_step. cbn [fst snd].
    rewrite bind_lift.
    destruct (image_resize E image_path _) as [[] | e];
      [| cbn [fst snd]; rewrite extend_nil; reflexivity].
    unfold bind at 1. unfold bind at 1. unfold lift at 1.
    destruct (mkstemp E scale) as [tmp_path | e];
      [| cbn [fst snd]; rewrite extend_nil; reflexivity].
    unfold try_finally. rewrite bind_lift.
    destruct (image_save E tmp_path) as [[] | e].
    + rewrite strategy_run. unfold cleanup.
      destruct (text_of (recognizer_call true tmp_path)) as [text | e].
      * unfold hit.
        destruct (nonempty tmp_path && path_exists E tmp_path);
          destruct (nonempty (strip text)); cbn [fst snd ret];
          rewrite ?log_run; cbn [fst snd ret]; rewrite ?IH;
          rewrite ?extend_extend; reflexivity.
      * destruct (nonempty tmp_path && path_exists E tmp_path);
          cbn [fst snd ret]; rewrite ?log_run, ?extend_extend; reflexivity.
    + unfold cleanup.
      destruct (nonempty tmp_path && path_exists E tmp_path);
        cbn [fst snd ret]; rewrite ?log_run, ?extend_nil; reflexivity.
Qed.

(** The second strategy exists with the [predict] API only. *)
Lemma lenient_run (path : pystr) (w : world) :
  (if has_predict E then attempt E (_predict E path true) else ret None) w =
    if has_predict E
    then (match text_of (predict E path (kwargs_for true)) with
          | Ret text => Ret (hit text)
          | Raise e => Raise e
          end,
          extend w [CallPredict path (kwargs_for true)])
    else (Ret None, w).
Proof.
  destruct (has_predict E) eqn:Hapi; [| reflexivity].
  rewrite attempt_run. unfold _predict. rewrite Hapi. cbn [negb].
  rewrite bind_log. unfold lift.
  destruct (predict E path (kwargs_for true)); reflexivity.
Qed.

Lemma upscaled_step_strategy (image_path : pystr) (size : Z * Z) (scale : Z) :
  fst (fst (upscaled_step image_path size scale)) = Upscaled scale.
Proof.
  unfold upscaled_step.
  destruct (image_resize E image_path _); [| reflexivity].
  destruct (mkstemp E scale); [| reflexivity].
  destruct (image_save E _); reflexivity.
Qed.

(** On upscaled steps, the search is the loop with its exception dropped. *)
Lemma first_text_upscaled (image_path : pystr) (size : Z * Z) (scales : list Z) :
  first_text (upscaled_step image_path size <$> scales) =
    (match fst (loop_outcome (upscaled_step image_path size <$> scales)) with
     | Ret (Some text) => text
     | _ => []
     end,
     snd (loop_outcome (upscaled_step image_path size <$> scales))).
Proof.
  induction scales as [| scale rest IH]; [reflexivity |].
  cbn [fmap list_fmap first_text loop_outcome].
  pose proof (upscaled_step_strategy image_path size scale) as Hs.
  destruct (upscaled_step image_path size scale) as [[s [text | e]] evs];
    cbn [fst] in Hs; subst s.
  - destruct (nonempty (strip text)); [reflexivity |].
    rewrite IH. reflexivity.
  - reflexivity.
Qed.

(** Strategy 3 never raises; what it finds is what the search over the
    upscaled steps finds. *)
Lemma enhanced_run (image_path : pystr) (w : world) :
  ∃ found,
    enhanced E image_path w =
      (Ret found,
       extend w (snd (first_text (upscaled_step image_path (padded_size image_path)
                                    <$> scales_for image_path))))
    ∧ match found with Some text => text | None => [] end
      = fst (first_text (upscaled_step image_path (padded_size image_path)
                           <$> scales_for image_path)).
Proof.
  unfold enhanced, try_except, scales_for, padded_size.
  rewrite bind_lift.
  destruct (image_open E image_path) as [[iw ih] | e];
    [| exists None; cbn [fmap list_fmap first_text fst snd];
       rewrite extend_nil; split; reflexivity].
  destruct ((iw <=? 0)%Z || (ih <=? 0)%Z);
    [exists (Some []); cbn [fmap list_fmap first_text fst snd ret];
     rewrite extend_nil; split; reflexivity |].
  rewrite bind_lift.
  destruct (image_expand E image_path (pad_of iw ih)) as [[] | e];
    [| exists None; cbn [fmap list_fmap first_text fst snd];
       rewrite extend_nil; split; reflexivity].
  cbn [fst snd]. rewrite scale_loop_run, first_text_upscaled. cbn [fst snd].
  destruct (fst (loop_outcome _)) as [[text |] | e].
  - exists (Some text). split; reflexivity.
  - exists None. split; reflexivity.
  - exists None. split; reflexivity.
Qed.

(** The scales are tried in increasing order. *)
Lemma scales_of_increasing (max_side : Z) :
  scales_of max_side = [2; 3]%Z ∨ scales_of max_side = [2]%Z ∨ scales_of max_side = [].
Proof.
  unfold scales_of.
  destruct (max_side <? 700)%Z; [auto |].
  destruct (max_side <? 1100)%Z; auto.
Qed.

(** C3, as amended.  On an initialized engine and for an image path that
    exists, [recognize] goes through its strategies in their fixed order
    (standard; lenient, when the recogniser has the [predict] API; then
    the padded image scaled by 2 and by 3, by 2 alone or not at all,
    according to its size) and returns the text of the first one whose
    stripped text is not empty, and the empty string when there is none.
    It never propagates an exception: when the recogniser raises in the
    standard or the lenient strategy the result is ["OCR Error: "]
    followed by the message, and when anything raises in an upscaled
    strategy the result is the empty string.  The events it leaves are
    those of the strategies it went through, in that order. *)
Theorem recognize_follows_plan (image_path : pystr) (w : world) :
  initialized w = true →
  path_exists E image_path = true →
  recognize E image_path w =
    (Ret (fst (first_text (plan image_path))),
     extend w (CallRecognize image_path :: snd (first_text (plan image_path)))).
Proof.
  intros Hinit Hexists. unfold recognize.
  rewrite bind_log, bind_get, initialized_extend, Hinit. cbn [negb].
  rewrite bind_ret. cbn [negb].
  unfold try_except. rewrite Hexists. cbn [negb].
  unfold bind at 1. rewrite strategy_run.
  unfold plan. cbn [app first_text].
  destruct (text_of (recognizer_call false image_path)) as [text1 | e1];
    [| cbn [fst snd ret]; rewrite extend_extend; reflexivity].
  unfold hit at 1.
  destruct (nonempty (strip text1));
    [cbn [fst snd ret]; rewrite extend_extend; reflexivity |].
  unfold bind at 1. rewrite lenient_run.
  destruct (has_predict E).
  - cbn [app first_text].
    destruct (text_of (predict E image_path (kwargs_for true))) as [text2 | e2];
      [| cbn [fst snd ret]; rewrite !extend_extend; reflexivity].
    unfold hit at 1.
    destruct (nonempty (strip text2));
      [cbn [fst snd ret]; rewrite !extend_extend; reflexivity |].
    destruct (enhanced_run image_path
                (extend (extend (extend w [CallRecognize image_path])
                           [call_event false image_path])
                   [CallPredict image_path (kwargs_for true)]))
      as (found & Hrun & Hfound).
    unfold bind. rewrite Hrun. cbn [fst snd]. rewrite <- Hfound, !extend_extend.
    destruct found; reflexivity.
  - cbn [app].
    destruct (enhanced_run image_path
                (extend (extend w [CallRecognize image_path])
                   [call_event false image_path]))
      as (found & Hrun & Hfound).
    unfold bind. rewrite Hrun. cbn [fst snd]. rewrite <- Hfound, !extend_extend.
    destruct found; reflexivity.
Qed.

End RecognizeFacts.

(** ** What the two engines leave in the trace *)

Section EngineFrames.
Context (E : env).

(** The events of the local OCR engine. *)
Definition is_ocr (ev : event) : bool :=
  match ev with
  | CallRecognize _ | NewPaddleOCR | CallPredict _ _ | CallOcr _ | Unlink _ => true
  | _ => false
  end.


(** The two signals that carry a result back to the window. *)
Definition is_result (ev : event) : bool :=
  match ev with
  | EmitFinished _ _ | EmitError _ => true
  | _ => false
  end.

Ltac appends_step :=
  first
    [ apply appends_ret | apply appends_raise | apply appends_lift
    | apply appends_get | apply appends_set_initialized
    | apply appends_log; reflexivity
    | apply appends_bind; [| intros ?]
    | apply appends_try_except; [| intros ?]
    | apply appends_try_finally
    | match goal with |- appends _ (if ?c then _ else _) => destruct c end
    | match goal with |- appends _ (match ?x with _ => _ end) => destruct x end ].

Lemma initialize_appends : appends (λ ev, is_ocr ev = true) (Ocr.initialize E).
Proof. unfold Ocr.initialize. repeat appends_step. Qed.

Lemma attempt_appends (call : M world pyval) :
  appends (λ ev, is_ocr ev = true) call →
  appends (λ ev, is_ocr ev = true) (Ocr.attempt E call).
Proof. intros H. unfold Ocr.attempt. apply appends_bind; [exact H |]. intros r. repeat appends_step. Qed.

Lemma call_ocr_appends (path : pystr) :
  appends (λ ev, is_ocr ev = true) (Ocr.call_ocr E path).
Proof. unfold Ocr.call_ocr. repeat appends_step. Qed.

Lemma predict_appends (path : pystr) (lenient : bool) :
  appends (λ ev, is_ocr ev = true) (Ocr._predict E path lenient).
Proof.
  unfold Ocr._predict. destruct (has_predict E); cbn [negb].
  - repeat appends_step.
  - apply call_ocr_appends.
Qed.

Lemma scale_loop_appends (image_path : pystr) (size : Z * Z) (scales : list Z) :
  appends (λ ev, is_ocr ev = true) (Ocr.scale_loop E image_path size scales).
Proof.
  induction scales as [| scale rest IH]; [apply appends_ret |].
  cbn [Ocr.scale_loop].
  apply appends_bind; [apply appends_lift | intros _].
  apply appends_bind.
  - apply appends_bind; [apply appends_lift | intros tmp_path].
    apply appends_try_finally.
    + apply appends_bind; [apply appends_lift | intros _].
      destruct (has_predict E);
        apply attempt_appends; [apply predict_appends | apply call_ocr_appends].
    + unfold Ocr.cleanup. repeat appends_step.
  - intros [text |]; [apply appends_ret | exact IH].
Qed.

Lemma enhanced_appends (image_path : pystr) :
  appends (λ ev, is_ocr ev = true) (Ocr.enhanced E image_path).
Proof.
  unfold Ocr.enhanced.
  apply appends_try_except; [| intros e; apply appends_ret].
  apply appends_bind; [apply appends_lift | intros [iw ih]].
  destruct ((iw <=? 0)%Z || (ih <=? 0)%Z); [apply appends_ret |].
  apply appends_bind; [apply appends_lift | intros _].
  apply scale_loop_appends.
Qed.

Lemma initialize_returns : returns (Ocr.initialize E).
Proof.
  unfold Ocr.initialize. apply returns_bind; [intros w; cbn; eauto |].
  intros w0. destruct (initialized w0); [apply returns_ret |].
  apply returns_try_except. intros e. apply returns_ret.
Qed.

(** [recognize] hands every exception back as a string. *)
Lemma recognize_returns (image_path : pystr) : returns (Ocr.recognize E image_path).
Proof.
  unfold Ocr.recognize.
  apply returns_bind; [intros w; cbn; eauto | intros _].
  apply returns_bind; [intros w; cbn; eauto | intros w0].
  apply returns_bind.
  { destruct (negb (initialized w0)); [apply initialize_returns | apply returns_ret]. }
  intros ready. destruct (negb ready); [apply returns_ret |].
  apply returns_try_except. intros e. apply returns_ret.
Qed.

(** A computation that starts by logging [ev]. *)
Lemma appends_after_log {A} (P : event → Prop) (ev : event) (k : unit → M world A) :
  appends P (k tt) →
  ∀ w, ∃ evs, trace (snd (bind (log ev) k w)) = trace w ++ ev :: evs ∧ Forall P evs.
Proof.
  intros Hk w. rewrite bind_log.
  destruct (Hk (extend w [ev])) as (evs & Ht & Hevs).
  exists evs. rewrite Ht. cbn [extend trace]. rewrite <- app_assoc. auto.
Qed.

(** [recognize], whatever the state of the engine and of the files: it
    returns a string, and leaves its own entry followed by OCR events. *)
Lemma recognize_total (image_path : pystr) (w : world) :
  ∃ text evs,
    fst (Ocr.recognize E image_path w) = Ret text
    ∧ trace (snd (Ocr.recognize E image_path w))
      = trace w ++ CallRecognize image_path :: evs
    ∧ Forall (λ ev, is_ocr ev = true) evs.
Proof.
  destruct (recognize_returns image_path w) as [text Htext].
  exists text.
  enough (∃ evs, trace (snd (Ocr.recognize E image_path w))
                 = trace w ++ CallRecognize image_path :: evs
                 ∧ Forall (λ ev, is_ocr ev = true) evs) as (evs & Ht & Hevs)
    by (exists evs; auto).
  unfold Ocr.recognize. apply appends_after_log.
  apply appends_bind; [apply appends_get | intros w0].
  apply appends_bind.
  { destruct (negb (initialized w0)); [apply initialize_appends | apply appends_ret]. }
  intros ready. destruct (negb ready); [apply appends_ret |].
  apply appends_try_except; [| intros e; apply appends_ret].
  destruct (negb (path_exists E image_path)); [apply appends_ret |].
  apply appends_bind.
  { destruct (has_predict E);
      apply attempt_appends; [apply predict_appends | apply call_ocr_appends]. }
  intros [text1 |]; [apply appends_ret |].
  apply appends_bind.
  { destruct (has_predict E);
      [apply attempt_appends, predict_appends | apply appends_ret]. }
  intros [text2 |]; [apply appends_ret |].
  apply appends_bind; [apply enhanced_appends |].
  intros [text3 |]; apply appends_ret.
Qed.

End EngineFrames.

(** ** Facts about [translate] *)

Section TranslateFacts.
Import Llm.
Context (E : env).

(** The URL under which an image is embedded in a message. *)
Definition data_url (data : list N) : pystr :=
  lit "data:image/jpeg;base64," ++ b64encode data.

(** The text part of the user message. *)
Definition user_text (text : pystr) (image_path : option pystr) (use_vision : bool)
  : content_part :=
  if nonempty (strip text) then TextPart (lit "Original Text:
" ++ text)
  else if use_vision && path_given image_path then TextPart vision_prompt
  else TextPart (lit "Original Text:
").

(** The image part of the user message, when there is one; reading the
    file may raise. *)
Definition user_image (image_path : option pystr) (use_vision : bool)
  : outcome (list content_part) :=
  match image_path with
  | Some path =>
      if use_vision && nonempty path && path_exists E path then
        match read_bytes E path with
        | Ret data => Ret (if nonempty data then [ImageUrlPart (data_url data)] else [])
        | Raise e => Raise e
        end
      else Ret []
  | None => Ret []
  end.

(** The request [translate] builds around the parts of the user message. *)
Definition request_of (self : engine) (context : pystr) (parts : list content_part)
  : request :=
  {| req_model := model self;
     req_messages :=
       [ {| role := lit "system"; content := ContentStr (system_prompt context) |};
         {| role := lit "user"; content := ContentParts parts |} ];
     req_max_tokens := 1000 |}.

(** What [translate] returns once the request went out. *)
Definition reply (req : request) : option pystr :=
  match chat_create E req with
  | Ret answer => answer
  | Raise e => Some (lit "API Error: " ++ e)
  end.

Lemma b64encode_nonempty (data : list N) :
  nonempty (b64encode data) = nonempty data.
Proof. destruct data as [| a [| b [| c rest]]]; reflexivity. Qed.

(** [translate], step by step. *)
Lemma translate_run (self : engine) (text context : pystr)
    (image_path : option pystr) (use_vision : bool) (w : world) :
  translate E self text context image_path use_vision w =
    let entry := CallTranslate text context image_path use_vision in
    match client self with
    | None =>
        (Ret (Some (lit "Error: API not configured. Please go to Settings.")),
         extend w [entry])
    | Some _ =>
        match user_image image_path use_vision with
        | Raise e => (Raise e, extend w [entry])
        | Ret image =>
            let req := request_of self context
                         (user_text text image_path use_vision :: image) in
            (Ret (reply req), extend w [entry; ChatCreate req])
        end
    end.
Proof.
  cbv zeta. unfold translate. rewrite bind_log.
  destruct (client self) as [[] |]; [| reflexivity].
  set (entry := CallTranslate text context image_path use_vision).
  assert (Hsend : ∀ parts,
    try_except
      (bind (log (ChatCreate (request_of self context parts)))
            (λ _, lift (chat_create E (request_of self context parts))))
      (λ e, ret (Some (lit "API Error: " ++ e))) (extend w [entry])
    = (Ret (reply (request_of self context parts)),
       extend w [entry; ChatCreate (request_of self context parts)])).
  { intros parts. unfold try_except, reply. rewrite bind_log, extend_extend.
    unfold lift. destruct (chat_create E (request_of self context parts)); reflexivity. }
  unfold user_image, user_text, encode_image.
  destruct image_path as [path |].
  - destruct use_vision; cbn [andb path_given].
    + destruct (nonempty path); cbn [andb].
      * destruct (path_exists E path); cbn [negb].
        -- unfold bind at 1. unfold bind at 1. unfold bind at 1. unfold lift at 1.
           destruct (read_bytes E path) as [data | e]; [| reflexivity].
           cbn [ret]. rewrite b64encode_nonempty.
           destruct (nonempty data); destruct (nonempty (strip text)); exact (Hsend _).
        -- destruct (nonempty (strip text)); exact (Hsend _).
      * destruct (nonempty (strip text)); exact (Hsend _).
    + destruct (nonempty (strip text)); exact (Hsend _).
  - rewrite andb_false_r. destruct (nonempty (strip text)); exact (Hsend _).
Qed.

End TranslateFacts.

(** ** Facts about [TranslationWorker.run] *)

Section WorkerFacts.
Import Llm Window.
Context (E : env) (llm_engine : engine).


(** The result signals among some events. *)
Definition results (evs : list event) : list event := List.filter is_result evs.

(** What [emit_finished] leaves, and what the handler of [run] adds when
    the emission raises. *)
Definition finished_events (ocr_text : pystr) (trans_text : option pystr) : list event :=
  match trans_text with
  | Some t => [EmitFinished ocr_text t]
  | None =>
      if signal_takes_none E then [EmitFinished ocr_text []]
      else [EmitError none_rejected]
  end.

(** The events of [translate] followed by the delivery of its result, as
    [run] does it inside its [try]. *)
Definition deliver (ocr_text text context : pystr) (image_path : option pystr)
    (use_vision : bool) : list event :=
  CallTranslate text context image_path use_vision ::
  match client llm_engine with
  | None =>
      finished_events ocr_text
        (Some (lit "Error: API not configured. Please go to Settings."))
  | Some _ =>
      match user_image E image_path use_vision with
      | Raise e => [EmitError e]
      | Ret image =>
          let req := request_of llm_engine context
                       (user_text text image_path use_vision :: image) in
          ChatCreate req :: finished_events ocr_text (reply E req)
      end
  end.

Lemma try_except_log {A} (ev : event) (k : unit → M world A)
    (h : pystr → M world A) (w : world) :
  try_except (bind (log ev) k) h w = try_except (k tt) h (extend w [ev]).
Proof. reflexivity. Qed.

Lemma deliver_run (ocr_text text context : pystr) (image_path : option pystr)
    (use_vision : bool) (w : world) :
  try_except
    (bind (translate E llm_engine text context image_path use_vision)
          (λ trans_text, emit_finished E ocr_text trans_text))
    (λ e, log (EmitError e)) w
  = (Ret tt, extend w (deliver ocr_text text context image_path use_vision)).
Proof.
  unfold try_except, bind, deliver. rewrite translate_run. cbv zeta.
  destruct (client llm_engine) as [[] |].
  - destruct (user_image E image_path use_vision) as [image | e].
    + unfold emit_finished, finished_events.
      destruct (reply E _) as [t |].
      * rewrite log_run, extend_extend. reflexivity.
      * destruct (signal_takes_none E).
        -- rewrite log_run, extend_extend. reflexivity.
        -- unfold raise. rewrite log_run, extend_extend. reflexivity.
    + rewrite log_run, extend_extend. reflexivity.
  - unfold emit_finished, finished_events. rewrite log_run, extend_extend. reflexivity.
Qed.


(** [run] with Vision mode on. *)
Lemma run_vision (image_path context : pystr) (w : world) :
  Config.truthy (use_vision llm_engine) = true →
  run E llm_engine image_path context w
  = (Ret tt,
     extend w (EmitStatus vision_status
               :: deliver vision_ocr_text [] context (Some image_path) true)).
Proof.
  intros Hvision. unfold run. cbv zeta. rewrite Hvision. cbv beta iota.
  rewrite try_except_log, deliver_run, extend_extend. reflexivity.
Qed.

(** What [run] does with the string [recognize] returned. *)
Definition after_ocr (ocr_text image_path context : pystr) : list event :=
  if startswith (lit "OCR Error:") ocr_text then [EmitError ocr_text]
  else if negb (nonempty (strip ocr_text)) then [EmitError no_text]
  else EmitStatus llm_status
       :: deliver ocr_text ocr_text context (Some image_path) false.

Lemma try_except_bind_ret {A B} (m : M world A) (k : A → M world B)
    (h : pystr → M world B) (a : A) (w w1 : world) :
  m w = (Ret a, w1) → try_except (bind m k) h w = try_except (k a) h w1.
Proof. intros Hm. unfold try_except, bind. rewrite Hm. reflexivity. Qed.

Lemma after_ocr_run (ocr_text image_path context : pystr) (w : world) :
  try_except
    (if startswith (lit "OCR Error:") ocr_text then log (EmitError ocr_text)
     else if negb (nonempty (strip ocr_text)) then log (EmitError no_text)
     else
       bind (log (EmitStatus llm_status))
         (λ _, bind (translate E llm_engine ocr_text context (Some image_path) false)
                 (λ trans_text, emit_finished E ocr_text trans_text)))
    (λ e, log (EmitError e)) w
  = (Ret tt, extend w (after_ocr ocr_text image_path context)).
Proof.
  unfold after_ocr.
  destruct (startswith (lit "OCR Error:") ocr_text); [reflexivity |].
  destruct (negb (nonempty (strip ocr_text))); [reflexivity |].
  rewrite try_except_log, deliver_run, extend_extend. reflexivity.
Qed.

(** [run] with Vision mode off: the OCR status, [recognize], and then
    what follows from its result. *)
Lemma run_ocr (image_path context : pystr) (w : world) :
  Config.truthy (use_vision llm_engine) = false →
  ∃ ocr_text ocr_events,
    fst (Ocr.recognize E image_path (extend w [EmitStatus ocr_status])) = Ret ocr_text
    ∧ Forall (λ ev, is_ocr ev = true) ocr_events
    ∧ fst (run E llm_engine image_path context w) = Ret tt
    ∧ trace (snd (run E llm_engine image_path context w))
      = trace w ++ EmitStatus ocr_status :: CallRecognize image_path :: ocr_events
                ++ after_ocr ocr_text image_path context.
Proof.
  intros Hvision. unfold run. cbv zeta. rewrite Hvision. cbv beta iota.
  rewrite try_except_log.
  destruct (recognize_total E image_path (extend w [EmitStatus ocr_status]))
    as (ocr_text & ocr_events & Hret & Htrace & Hocr).
  exists ocr_text, ocr_events. split; [exact Hret |]. split; [exact Hocr |].
  destruct (Ocr.recognize E image_path (extend w [EmitStatus ocr_status]))
    as [r w1] eqn:Hrec. cbn [fst snd] in Hret, Htrace. subst r.
  rewrite (try_except_bind_ret _ _ _ _ _ _ Hrec), after_ocr_run. cbn [fst snd].
  split; [reflexivity |].
  cbn [extend trace]. rewrite Htrace. cbn [extend trace].
  rewrite <- !app_assoc. reflexivity.
Qed.

End WorkerFacts.

(** ** The worker thread, end to end *)

Section WorkerClaims.
Import Llm Window.
Context (E : env) (llm_engine : engine).

Lemma results_app (a b : list event) : results (a ++ b) = results a ++ results b.
Proof. apply List.filter_app. Qed.

Lemma results_ocr (evs : list event) :
  Forall (λ ev, is_ocr ev = true) evs → results evs = [].
Proof.
  induction 1 as [| ev evs Hev _ IH]; [reflexivity |].
  unfold results in *. cbn [List.filter]. destruct ev; try discriminate; exact IH.
Qed.




End WorkerClaims.

(** ** The statements at work on sample environments *)

Section Samples.
Import Llm Window.

(** An environment with the [predict] API, a 200 x 80 crop, temporary
    files named after the scale, and a service that answers; which paths
    exist and what the recogniser answers are left open. *)
Definition sample_env (exists_ : pystr → bool)
    (answer : pystr → gmap pystr pyval → outcome pyval) : env :=
  {| str_of := λ _, lit "<object>";
     path_exists := exists_;
     read_bytes := λ _, Ret [137; 80; 78; 71];
     new_paddle := Ret tt;
     has_predict := true;
     predict := answer;
     legacy_ocr := λ _, Raise (lit "'PaddleOCR' object has no attribute 'ocr'");
     image_open := λ _, Ret (200, 80)%Z;
     image_expand := λ _ _, Ret tt;
     image_resize := λ _ _, Ret tt;
     mkstemp := λ scale, Ret (lit "/tmp/pact_ocr_" ++ [48 + Z.to_N scale] ++ lit ".png");
     image_save := λ _, Ret tt;
     chat_create := λ _, Ret (Some (lit "你好"));
     signal_takes_none := false |}.

Definition crop : pystr := lit "/tmp/pact_crop.png".

(** An engine that was initialized, with nothing in the trace. *)
Definition ready : world := {| initialized := true; trace := [] |}.

(** The recogniser finds nothing in the crop and runs out of memory on
    anything else. *)
Definition answer_fails_upscaled (path : pystr) (kwargs : gmap pystr pyval)
  : outcome pyval :=
  if bool_decide (path = crop) then Ret (PList []) else Raise (lit "out of memory").

(** The recogniser finds text only with the lowered thresholds. *)
Definition answer_lenient (path : pystr) (kwargs : gmap pystr pyval) : outcome pyval :=
  match kwargs !! lit "text_det_thresh" with
  | Some _ => Ret (PDict {[ lit "rec_texts" := PList [PStr (lit " HELLO "); PStr (lit "WORLD")] ]})
  | None => Ret (PList [])
  end.

(** The claim C3 as it stands fails when the recogniser raises in an
    upscaled strategy: the exception is dropped and the empty string comes
    back, not a string that starts with ["OCR Error:"]; the scale 3 is
    not tried any more. *)
Lemma recognize_drops_upscaled_error :
  let E := sample_env (λ _, true) answer_fails_upscaled in
  predict E (lit "/tmp/pact_ocr_2.png") (Ocr.kwargs_for true) = Raise (lit "out of memory")
  ∧ Ocr.recognize E crop ready
    = (Ret [],
       extend ready [CallRecognize crop;
                     CallPredict crop (Ocr.kwargs_for false);
                     CallPredict crop (Ocr.kwargs_for true);
                     CallPredict (lit "/tmp/pact_ocr_2.png") (Ocr.kwargs_for true);
                     Unlink (lit "/tmp/pact_ocr_2.png")])
  ∧ startswith (lit "OCR Error:") [] = false.
Proof.
  cbv zeta. split; [reflexivity |]. split; [| reflexivity].
  vm_compute. reflexivity.
Qed.

(** The amended C3 at work: the standard strategy finds nothing, the
    lenient one does. *)
Lemma recognize_follows_plan_witness :
  let E := sample_env (λ _, true) answer_lenient in
  Ocr.recognize E crop ready
  = (Ret (fst (first_text (plan E crop))),
     extend ready (CallRecognize crop :: snd (first_text (plan E crop)))).
Proof.
  cbv zeta. apply recognize_follows_plan; reflexivity.
Defined.

Example recognize_lenient_text :
  fst (Ocr.recognize (sample_env (λ _, true) answer_lenient) crop ready)
  = Ret (lit "HELLO
WORLD").
Proof. vm_compute. reflexivity. Qed.

(** The engine with Vision mode on and a client. *)
Definition vision_engine : engine :=
  {| model := lit "google/gemini-2.0-flash-001";
     use_vision := Config.JBool true;
     client := Some tt |}.

(** The engine with Vision mode off and a client. *)
Definition text_engine : engine :=
  {| model := lit "google/gemini-2.0-flash-001";
     use_vision := Config.JBool false;
     client := Some tt |}.



Example run_vision_sends_image :
  run (sample_env (λ _, true) answer_lenient) vision_engine crop [] ready
  = (Ret tt,
     extend ready
       [EmitStatus vision_status;
        CallTranslate [] [] (Some crop) true;
        ChatCreate (request_of vision_engine []
                      [TextPart vision_prompt;
                       ImageUrlPart (lit "data:image/jpeg;base64,iVBORw==")]);
        EmitFinished vision_ocr_text (lit "你好")]).
Proof. rewrite run_vision by reflexivity. reflexivity. Qed.


(** [_extract_text] on the result formats of the PaddleOCR versions. *)
Example extract_text_old_format :
  eval (Ocr._extract_text (sample_env (λ _, true) answer_lenient)
          (PList [PList [PList [PObj 1; PTuple [PStr (lit " HI "); PNum 99 2]];
                         PList [PObj 2; PTuple [PStr (lit "  "); PNum 10 2]];
                         PNone;
                         PList [PObj 3; PTuple [PStr (lit "THERE"); PNum 98 2]]]]))
  = Ret (lit "HI
THERE").
Proof. vm_compute. reflexivity. Qed.

Example extract_text_new_format :
  eval (Ocr._extract_text (sample_env (λ _, true) answer_lenient)
          (PList [PDict {[ lit "rec_texts" := PList [PStr (lit "A"); PNum 1 0; PStr (lit " B")] ]}]))
  = Ret (lit "A
B").
Proof. vm_compute. reflexivity. Qed.

End Samples.

(** * Further facts

    ** Stripping *)

Section StripFacts.

(** A string that neither starts nor ends with white space. *)
Definition trimmed (s : pystr) : Prop :=
  (∀ c t, s = c :: t → is_space c = false)
  ∧ (∀ c t, s = t ++ [c] → is_space c = false).

Lemma lstrip_suffix (s : pystr) : ∃ spaces, s = spaces ++ lstrip s.
Proof.
  induction s as [| c t [spaces IH]]; [exists []; reflexivity |].
  cbn. destruct (is_space c); [| exists []; reflexivity].
  exists (c :: spaces). cbn. rewrite <- IH. reflexivity.
Qed.

Lemma lstrip_head (s : pystr) (c : N) (t : pystr) :
  lstrip s = c :: t → is_space c = false.
Proof.
  induction s as [| a r IH]; [discriminate |].
  cbn. destruct (is_space a) eqn:Ha; [exact IH |].
  intros H. injection H as <- _. exact Ha.
Qed.

Lemma lstrip_fixed (s : pystr) :
  (∀ c t, s = c :: t → is_space c = false) → lstrip s = s.
Proof.
  destruct s as [| c t]; [reflexivity |].
  intros H. cbn. rewrite (H c t eq_refl). reflexivity.
Qed.

(** [lstrip] keeps what the string ends with. *)
Lemma lstrip_last (s : pystr) (c : N) (t : pystr) :
  lstrip s = t ++ [c] → ∃ t', s = t' ++ [c].
Proof.
  intros H. destruct (lstrip_suffix s) as [spaces Hs].
  exists (spaces ++ t). rewrite Hs at 1. rewrite H, app_assoc. reflexivity.
Qed.

Lemma rstrip_last (s : pystr) (c : N) (t : pystr) :
  rstrip s = t ++ [c] → is_space c = false.
Proof.
  unfold rstrip. intros H.
  apply (f_equal (@rev N)) in H. rewrite rev_involutive, rev_app_distr in H.
  cbn in H. apply lstrip_head in H. exact H.
Qed.

Lemma rstrip_fixed (s : pystr) :
  (∀ c t, s = t ++ [c] → is_space c = false) → rstrip s = s.
Proof.
  intros H. unfold rstrip. rewrite lstrip_fixed; [apply rev_involutive |].
  intros c t Hrev. apply (H c (rev t)).
  apply (f_equal (@rev N)) in Hrev. rewrite rev_involutive in Hrev.
  rewrite Hrev. reflexivity.
Qed.

(** [rstrip] keeps what the string starts with, unless it removes it all. *)
Lemma rstrip_head (s : pystr) (c : N) (t : pystr) :
  rstrip s = c :: t → ∃ t', s = c :: t'.
Proof.
  unfold rstrip. intros H.
  destruct (lstrip_suffix (rev s)) as [spaces Hs].
  apply (f_equal (@rev N)) in Hs. rewrite rev_involutive, rev_app_distr, H in Hs.
  exists (t ++ rev spaces). rewrite Hs. reflexivity.
Qed.

Lemma strip_trimmed (s : pystr) : trimmed (strip s).
Proof.
  unfold strip. split.
  - intros c t H. apply rstrip_head in H as [t' H]. apply lstrip_head in H. exact H.
  - intros c t H. apply rstrip_last in H. exact H.
Qed.

Lemma trimmed_strip (s : pystr) : trimmed s → strip s = s.
Proof.
  intros [Hhead Hlast]. unfold strip.
  rewrite (lstrip_fixed s Hhead). apply rstrip_fixed, Hlast.
Qed.

(** Stripping is idempotent. *)
Lemma strip_strip (s : pystr) : strip (strip s) = strip s.
Proof. apply trimmed_strip, strip_trimmed. Qed.

(** A string that starts with something else than white space is not
    blank. *)
Lemma strip_nonblank (c : N) (s : pystr) :
  is_space c = false → nonempty (strip (c :: s)) = true.
Proof.
  intros Hc. unfold strip. cbn [lstrip]. rewrite Hc.
  unfold rstrip.
  destruct (lstrip (rev (c :: s))) as [| a r] eqn:H.
  - exfalso. destruct (lstrip_suffix (rev (c :: s))) as [spaces Hs].
    rewrite H, app_nil_r in Hs. cbn [rev] in Hs.
    assert (Hall : ∀ l, lstrip l = [] → Forall (λ x, is_space x = true) l).
    { induction l as [| x l IH]; [constructor |]. cbn.
      destruct (is_space x) eqn:Hx; [| discriminate].
      intros Hl. constructor; [exact Hx | exact (IH Hl)]. }
    apply Hall in H. cbn [rev] in H. apply Forall_app in H as [_ H].
    apply Forall_cons in H as [H _]. congruence.
  - destruct (rev (a :: r)) eqn:Hrev; [| reflexivity].
    apply (f_equal (@length N)) in Hrev. rewrite length_rev in Hrev. discriminate.
Qed.

Lemma trimmed_nil : trimmed [].
Proof. split; intros c t H; [discriminate | destruct t; discriminate]. Qed.

(** Joining lines that are trimmed and not empty gives a trimmed string. *)
Lemma join_trimmed (sep : pystr) (lines : list pystr) :
  Forall (λ l, nonempty l = true ∧ trimmed l) lines → trimmed (join sep lines).
Proof.
  intros H. induction H as [| l rest [Hne [Hhead Hlast]] Hrest IH]; [apply trimmed_nil |].
  destruct rest as [| l2 rest2]; [split; assumption |].
  change (join sep (l :: l2 :: rest2)) with (l ++ sep ++ join sep (l2 :: rest2)).
  destruct IH as [_ IHlast]. split.
  - intros c t Heq. destruct l as [| a l']; [discriminate |].
    injection Heq as <- _. apply (Hhead a l' eq_refl).
  - intros c t Heq.
    assert (Hne2 : join sep (l2 :: rest2) ≠ []).
    { apply Forall_cons in Hrest as [[Hl2 _] _].
      destruct l2; [discriminate |].
      destruct rest2; discriminate. }
    destruct (join sep (l2 :: rest2)) as [| x xs] eqn:Hj using rev_ind;
      [contradiction |].
    clear IHxs. rewrite !app_assoc in Heq.
    apply app_inj_tail in Heq as [_ <-].
    apply (IHlast x xs eq_refl).
Qed.

End StripFacts.

(** ** More about engine/ocr.py *)

Section OcrExtras.
Import Ocr.
Context (E : env).

(** What [_extract_text] returns is already stripped: the test
    [if text.strip():] of [recognize] is then a test for the empty
    string. *)
Theorem extracted_is_stripped (result : pyval) :
  ∃ text, eval (_extract_text E result) = Ret text ∧ strip text = text.
Proof.
  destruct (extract_text_returns_lines E result tt)
    as (text & lines & Hrun & Hjoin & Hlines).
  exists text. split; [unfold eval; rewrite Hrun; reflexivity |].
  apply trimmed_strip. rewrite Hjoin. apply join_trimmed.
  eapply Forall_impl; [exact Hlines |].
  intros l [Hne [x ->]]. split; [exact Hne | apply strip_trimmed].
Qed.

(** The loop over the items, on strings alone: the stripped forms of those
    that are not blank, in their order. *)
Lemma extract_items_strings (texts : list pystr) :
  ∀ lines, extract_items (PStr <$> texts) lines tt
           = (Ret (lines ++ List.filter nonempty (strip <$> texts)), tt).
Proof.
  induction texts as [| t rest IH]; intros lines.
  - cbn. rewrite app_nil_r. reflexivity.
  - cbn [fmap list_fmap extract_items]. unfold bind.
    cbn [extract_item ret append_text]. rewrite IH.
    cbn [List.filter]. destruct (nonempty (strip t)).
    + rewrite <- app_assoc. reflexivity.
    + reflexivity.
Qed.

(** A result that is a list of strings gives its lines stripped, the blank
    ones left out, joined by newlines, in the order of the list. *)
Theorem extract_text_of_strings (texts : list pystr) :
  eval (_extract_text E (PList (PStr <$> texts)))
  = Ret (join [LF] (List.filter nonempty (strip <$> texts))).
Proof.
  unfold eval, _extract_text.
  destruct texts as [| t rest]; [reflexivity |].
  change (PStr <$> t :: rest) with (PStr t :: (PStr <$> rest)).
  cbv beta iota.
  set (items := PStr t :: (PStr <$> rest)).
  assert (Hpick :
    (if (length items =? 1)%nat
     then bind (lift (py_index (PList items) 0))
               (λ first, match first with
                         | PList inner => ret inner
                         | _ => ret items
                         end)
     else ret items) tt = (Ret items, tt)).
  { destruct (length items =? 1)%nat; reflexivity. }
  unfold bind at 1. rewrite Hpick.
  unfold bind. subst items.
  change (PStr t :: (PStr <$> rest)) with (PStr <$> t :: rest).
  rewrite extract_items_strings. reflexivity.
Qed.

(** An entry [[box, (text, score)]] of the result of the older PaddleOCR. *)
Definition old_entry (box : pyval) (text : pystr) (score : pyval) : pyval :=
  PList [box; PTuple [PStr text; score]].

Lemma extract_items_old_entries (entries : list (pyval * pystr * pyval)) :
  ∀ lines,
    extract_items ((λ e, old_entry e.1.1 e.1.2 e.2) <$> entries) lines tt
    = (Ret (lines ++ List.filter nonempty ((λ e, strip e.1.2) <$> entries)), tt).
Proof.
  induction entries as [| [[box text] score] rest IH]; intros lines.
  - cbn. rewrite app_nil_r. reflexivity.
  - cbn [fmap list_fmap extract_items]. unfold bind at 1.
    unfold old_entry at 1. cbn [fst snd].
    cbn [extract_item length Nat.leb]. unfold bind at 1. unfold lift at 1.
    cbn [py_index lookup list_lookup].
    cbn [length Nat.leb]. unfold bind at 1. unfold lift at 1.
    cbn [py_index lookup list_lookup ret append_text].
    rewrite IH. cbn [List.filter fst snd]. destruct (nonempty (strip text)).
    + rewrite <- app_assoc. reflexivity.
    + reflexivity.
Qed.

(** The result of the older PaddleOCR, a list that holds the list of the
    entries of one image: the recognised texts, stripped, the blank ones
    left out, joined by newlines; boxes and scores play no part. *)
Theorem extract_text_of_old_format (entries : list (pyval * pystr * pyval)) :
  eval (_extract_text E (PList [PList ((λ e, old_entry e.1.1 e.1.2 e.2) <$> entries)]))
  = Ret (join [LF] (List.filter nonempty ((λ e, strip e.1.2) <$> entries))).
Proof.
  unfold eval, _extract_text. cbn [length Nat.eqb].
  unfold bind at 1. unfold bind at 1. unfold lift at 1.
  cbn [py_index lookup list_lookup ret].
  unfold bind. rewrite (extract_items_old_entries entries []). reflexivity.
Qed.

(** [initialize] never raises. *)
Lemma initialize_run (w : world) :
  initialize E w =
    if initialized w then (Ret true, w)
    else match new_paddle E with
         | Ret _ => (Ret true, {| initialized := true; trace := trace w ++ [NewPaddleOCR] |})
         | Raise _ => (Ret false, extend w [NewPaddleOCR])
         end.
Proof.
  unfold initialize. rewrite bind_get.
  destruct (initialized w); [reflexivity |].
  unfold try_except. rewrite bind_log, bind_lift.
  destruct (new_paddle E) as [[] | e]; reflexivity.
Qed.

(** The engine is loaded lazily and once: [initialize] returns [True]
    exactly when the engine is initialized afterwards, raises nothing,
    constructs PaddleOCR only on an engine that is not initialized, and
    after a success every further call returns [True] and does nothing. *)
Theorem initialize_once (w : world) :
  ∃ ok w1,
    initialize E w = (Ret ok, w1)
    ∧ (ok = true ↔ initialized w1 = true)
    ∧ (initialized w = true → w1 = w)
    ∧ (ok = true → initialize E w1 = (Ret true, w1)).
Proof.
  rewrite initialize_run.
  destruct (initialized w) eqn:Hinit.
  - exists true, w. split; [reflexivity |]. split; [tauto |]. split; [reflexivity |].
    intros _. rewrite initialize_run, Hinit. reflexivity.
  - destruct (new_paddle E) as [[] | e].
    + eexists true, _. split; [reflexivity |]. split; [cbn; tauto |].
      split; [discriminate |]. intros _. rewrite initialize_run. reflexivity.
    + eexists false, _. split; [reflexivity |].
      split; [cbn; rewrite Hinit; split; discriminate |].
      split; discriminate.
Qed.

(** [recognize] on an engine that cannot be initialized. *)
Lemma recognize_without_paddle_run (image_path e : pystr) (w : world) :
  initialized w = false →
  new_paddle E = Raise e →
  recognize E image_path w
  = (Ret (lit "Error: PaddleOCR not initialized or not installed."),
     extend w [CallRecognize image_path; NewPaddleOCR]).
Proof.
  intros Hinit Hpaddle. unfold recognize.
  rewrite bind_log, bind_get, initialized_extend, Hinit. cbn [negb].
  unfold bind at 1. rewrite initialize_run, initialized_extend, Hinit, Hpaddle.
  cbn [negb ret]. rewrite extend_extend. reflexivity.
Qed.

(** When PaddleOCR cannot be constructed, [recognize] returns the fixed
    message (which does not start with ["OCR Error:"]), asks no
    recogniser anything, and leaves the engine uninitialized, so that the
    next call tries again. *)
Theorem recognize_without_paddle (image_path e : pystr) (w : world) :
  initialized w = false →
  new_paddle E = Raise e →
  ∃ evs,
    fst (recognize E image_path w)
    = Ret (lit "Error: PaddleOCR not initialized or not installed.")
    ∧ trace (snd (recognize E image_path w)) = trace w ++ evs
    ∧ Forall (λ ev, ∀ p k, ev ≠ CallPredict p k ∧ ev ≠ CallOcr p) evs
    ∧ initialized (snd (recognize E image_path w)) = false
    ∧ startswith (lit "OCR Error:")
        (lit "Error: PaddleOCR not initialized or not installed.") = false.
Proof.
  intros Hinit Hpaddle.
  rewrite (recognize_without_paddle_run image_path e w Hinit Hpaddle).
  exists [CallRecognize image_path; NewPaddleOCR].
  split; [reflexivity |]. split; [reflexivity |]. split.
  - repeat constructor; discriminate.
  - split; [exact Hinit | reflexivity].
Qed.

(** On an initialized engine a path that does not exist gives the empty
    string at once: nothing is asked of the recogniser. *)
Theorem recognize_missing_file (image_path : pystr) (w : world) :
  initialized w = true →
  path_exists E image_path = false →
  recognize E image_path w = (Ret [], extend w [CallRecognize image_path]).
Proof.
  intros Hinit Hmissing. unfold recognize.
  rewrite bind_log, bind_get, initialized_extend, Hinit. cbn [negb].
  rewrite bind_ret. cbn [negb].
  unfold try_except. rewrite Hmissing. reflexivity.
Qed.

End OcrExtras.

(** ** The statements about the engine at work *)

Section OcrSamples.
Import Ocr.

(** An environment in which PaddleOCR is not installed. *)
Definition offline_env : env :=
  {| str_of := λ _, lit "<object>";
     path_exists := λ _, true;
     read_bytes := λ _, Ret [137; 80; 78; 71];
     new_paddle := Raise (lit "No module named 'paddleocr'");
     has_predict := true;
     predict := λ _ _, Ret (PList []);
     legacy_ocr := λ _, Ret (PList []);
     image_open := λ _, Ret (200, 80)%Z;
     image_expand := λ _ _, Ret tt;
     image_resize := λ _ _, Ret tt;
     mkstemp := λ _, Ret (lit "/tmp/pact_ocr.png");
     image_save := λ _, Ret tt;
     chat_create := λ _, Ret (Some (lit "你好"));
     signal_takes_none := false |}.

(** An engine that was not initialized yet, with nothing in the trace. *)
Definition fresh : world := {| initialized := false; trace := [] |}.

Lemma recognize_without_paddle_witness :
  let E := offline_env in
  let image_path := crop in
  let w := fresh in
  ∃ evs,
    fst (recognize E image_path w)
    = Ret (lit "Error: PaddleOCR not initialized or not installed.")
    ∧ trace (snd (recognize E image_path w)) = trace w ++ evs
    ∧ Forall (λ ev, ∀ p k, ev ≠ CallPredict p k ∧ ev ≠ CallOcr p) evs
    ∧ initialized (snd (recognize E image_path w)) = false
    ∧ startswith (lit "OCR Error:")
        (lit "Error: PaddleOCR not initialized or not installed.") = false.
Proof.
  cbv zeta.
  apply (recognize_without_paddle offline_env crop (lit "No module named 'paddleocr'")
           fresh); reflexivity.
Defined.

Lemma recognize_missing_file_witness :
  let E := sample_env (λ _, false) answer_lenient in
  recognize E crop ready = (Ret [], extend ready [CallRecognize crop]).
Proof.
  cbv zeta.
  apply (recognize_missing_file (sample_env (λ _, false) answer_lenient) crop ready);
    reflexivity.
Defined.

End OcrSamples.

(** ** [recognize], whatever the state of the engine *)

Section RecognizeExtras.
Import Ocr.
Context (E : env).

(** The [try] block of [recognize] for a path that exists, from any world. *)
Lemma recognize_try_run (image_path : pystr) (w : world) :
  path_exists E image_path = true →
  try_except
    (if negb (path_exists E image_path) then ret []
     else
       bind (if has_predict E then attempt E (_predict E image_path false)
             else attempt E (call_ocr E image_path))
         (λ found,
            match found with
            | Some text => ret text
            | None =>
                bind (if has_predict E then attempt E (_predict E image_path true)
                      else ret None)
                  (λ found,
                     match found with
                     | Some text => ret text
                     | None =>
                         bind (enhanced E image_path)
                           (λ found,
                              match found with
                              | Some text => ret text
                              | None => ret []
                              end)
                     end)
            end))
    (λ e, ret (lit "OCR Error: " ++ e)) w
  = (Ret (fst (first_text (plan E image_path))),
     extend w (snd (first_text (plan E image_path)))).
Proof.
  intros Hexists. unfold try_except. rewrite Hexists. cbn [negb].
  unfold bind at 1. rewrite strategy_run.
  unfold plan. cbn [app first_text].
  destruct (text_of E (recognizer_call E false image_path)) as [text1 | e1];
    [| reflexivity].
  unfold hit at 1.
  destruct (nonempty (strip text1)); [reflexivity |].
  unfold bind at 1. rewrite lenient_run.
  destruct (has_predict E).
  - cbn [app first_text].
    destruct (text_of E (predict E image_path (kwargs_for true))) as [text2 | e2];
      [| cbn [fst snd ret]; rewrite !extend_extend; reflexivity].
    unfold hit at 1.
    destruct (nonempty (strip text2));
      [cbn [fst snd ret]; rewrite !extend_extend; reflexivity |].
    destruct (enhanced_run E image_path
                (extend (extend w [call_event E false image_path])
                   [CallPredict image_path (kwargs_for true)]))
      as (found & Hrun & Hfound).
    unfold bind. rewrite Hrun. cbn [fst snd]. rewrite <- Hfound, !extend_extend.
    destruct found; reflexivity.
  - cbn [app].
    destruct (enhanced_run E image_path (extend w [call_event E false image_path]))
      as (found & Hrun & Hfound).
    unfold bind. rewrite Hrun. cbn [fst snd]. rewrite <- Hfound, !extend_extend.
    destruct found; reflexivity.
Qed.

(** The first call on a fresh engine loads PaddleOCR and then goes on as
    a call on an initialized engine does: the result is the same, and the
    engine is initialized afterwards. *)
Theorem recognize_initializes_lazily (image_path : pystr) (w : world) :
  initialized w = false →
  new_paddle E = Ret tt →
  path_exists E image_path = true →
  recognize E image_path w
  = (Ret (fst (first_text (plan E image_path))),
     {| initialized := true;
        trace := trace w ++ CallRecognize image_path :: NewPaddleOCR
                         :: snd (first_text (plan E image_path)) |}).
Proof.
  intros Hinit Hpaddle Hexists. unfold recognize.
  rewrite bind_log, bind_get, initialized_extend, Hinit. cbn [negb].
  unfold bind at 1. rewrite initialize_run, initialized_extend, Hinit, Hpaddle.
  cbn [negb]. rewrite (recognize_try_run image_path _ Hexists).
  unfold extend. cbn [initialized trace]. rewrite <- !app_assoc. reflexivity.
Qed.

(** The result of a search through strategies is empty or not blank. *)
Lemma first_text_not_blank (steps : list step) :
  fst (first_text steps) = []
  ∨ nonempty (strip (fst (first_text steps))) = true.
Proof.
  induction steps as [| [[s [text | e]] evs] rest IH]; [left; reflexivity | |].
  - destruct s; cbn [first_text];
      (destruct (nonempty (strip text)) eqn:Htext; [right; exact Htext | exact IH]).
  - destruct s; cbn [first_text fst]; [right | right | left; reflexivity];
      apply (strip_nonblank 79); reflexivity.
Qed.

(** [recognize] never returns a string of white space only: its result is
    the empty string or a string that is not blank, whatever the engine,
    the files and the recogniser do.  The worker's test
    [not ocr_text.strip()] is then a test for the empty string. *)
Theorem recognize_empty_or_not_blank (image_path : pystr) (w : world) :
  ∃ text,
    fst (recognize E image_path w) = Ret text
    ∧ (text = [] ∨ nonempty (strip text) = true).
Proof.
  unfold recognize. rewrite bind_log, bind_get, initialized_extend.
  assert (Hready : ∀ w1,
    ∃ text,
      fst (bind (ret true)
             (λ ready,
                if negb ready
                then ret (lit "Error: PaddleOCR not initialized or not installed.")
                else
                  try_except
                    (if negb (path_exists E image_path) then ret []
                     else
                       bind (if has_predict E then attempt E (_predict E image_path false)
                             else attempt E (call_ocr E image_path))
                         (λ found,
                            match found with
                            | Some text => ret text
                            | None =>
                                bind (if has_predict E
                                      then attempt E (_predict E image_path true)
                                      else ret None)
                                  (λ found,
                                     match found with
                                     | Some text => ret text
                                     | None =>
                                         bind (enhanced E image_path)
                                           (λ found,
                                              match found with
                                              | Some text => ret text
                                              | None => ret []
                                              end)
                                     end)
                            end))
                    (λ e, ret (lit "OCR Error: " ++ e))) w1) = Ret text
      ∧ (text = [] ∨ nonempty (strip text) = true)).
  { intros w1. rewrite bind_ret. cbn [negb].
    assert (Hcase : path_exists E image_path = true ∨ path_exists E image_path = false)
      by (destruct (path_exists E image_path); auto).
    destruct Hcase as [Hexists | Hexists].
    - rewrite (recognize_try_run image_path w1 Hexists). cbn [fst].
      eexists. split; [reflexivity | apply first_text_not_blank].
    - unfold try_except. rewrite Hexists. cbn [negb ret fst]. eauto. }
  destruct (initialized w) eqn:Hinit; cbn [negb]; [apply Hready |].
  unfold bind at 1. rewrite initialize_run, initialized_extend, Hinit.
  destruct (new_paddle E) as [[] | e].
  - apply (Hready {| initialized := true;
                     trace := trace (extend w [CallRecognize image_path])
                              ++ [NewPaddleOCR] |}).
  - cbn [negb ret fst]. eexists. split; [reflexivity |].
    right. vm_compute. reflexivity.
Qed.

End RecognizeExtras.

Section RecognizeSamples.
Import Ocr.

Lemma recognize_initializes_lazily_witness :
  let E := sample_env (λ _, true) answer_lenient in
  recognize E crop fresh
  = (Ret (fst (first_text (plan E crop))),
     {| initialized := true;
        trace := trace fresh ++ CallRecognize crop :: NewPaddleOCR
                         :: snd (first_text (plan E crop)) |}).
Proof.
  cbv zeta.
  apply (recognize_initializes_lazily (sample_env (λ _, true) answer_lenient) crop fresh);
    reflexivity.
Defined.

End RecognizeSamples.

(** ** More about engine/llm.py and the worker *)

Section LlmExtras.
Import Llm Window.
Context (E : env) (llm_engine : engine).

(** Without a configured client [translate] returns its own error text and
    sends nothing. *)
Theorem translate_without_client (text context : pystr)
    (image_path : option pystr) (use_vision : bool) (w : world) :
  client llm_engine = None →
  translate E llm_engine text context image_path use_vision w
  = (Ret (Some (lit "Error: API not configured. Please go to Settings.")),
     extend w [CallTranslate text context image_path use_vision]).
Proof.
  intros Hclient. rewrite translate_run. cbv zeta. rewrite Hclient. reflexivity.
Qed.

(** Without Vision, [translate] never raises and never reads the image:
    with a client it sends one request whose user message is the text
    part alone, and it returns the answer, or ["API Error: "] followed by
    the message when the service raises. *)
Theorem translate_text_mode (text context : pystr) (image_path : option pystr)
    (w : world) :
  is_Some (client llm_engine) →
  let req := request_of llm_engine context [user_text text image_path false] in
  translate E llm_engine text context image_path false w
  = (Ret (match chat_create E req with
          | Ret answer => answer
          | Raise e => Some (lit "API Error: " ++ e)
          end),
     extend w [CallTranslate text context image_path false; ChatCreate req])
  ∧ (nonempty (strip text) = true →
     user_text text image_path false = TextPart (lit "Original Text:
" ++ text)).
Proof.
  intros [c Hclient]. cbv zeta. split.
  - rewrite translate_run. cbv zeta. rewrite Hclient.
    assert (Himage : user_image E image_path false = Ret []).
    { unfold user_image. destruct image_path; reflexivity. }
    rewrite Himage. reflexivity.
  - intros Htext. unfold user_text. rewrite Htext. reflexivity.
Qed.

(** In Vision mode the only exception [translate] lets through is the one
    raised while reading the image file; no request goes out then. *)
Theorem translate_raises_only_on_read (text context image_path e : pystr) (w : world) :
  fst (translate E llm_engine text context (Some image_path) true w) = Raise e →
  read_bytes E image_path = Raise e
  ∧ path_exists E image_path = true
  ∧ snd (translate E llm_engine text context (Some image_path) true w)
    = extend w [CallTranslate text context (Some image_path) true].
Proof.
  rewrite translate_run. cbv zeta.
  destruct (client llm_engine) as [[] |]; [| discriminate].
  unfold user_image. cbn [andb].
  destruct (nonempty image_path); cbn [andb]; [| discriminate].
  destruct (path_exists E image_path); [| discriminate].
  destruct (read_bytes E image_path) as [data | e']; [discriminate |].
  cbn [fst snd]. intros H. injection H as ->. auto.
Qed.


End LlmExtras.

(** ** The statements about [translate] at work *)

Section LlmSamples.
Import Llm Window.

(** The engine before a key was entered. *)
Definition unconfigured_engine : engine :=
  {| model := lit "google/gemini-2.0-flash-001";
     use_vision := Config.JBool false;
     client := None |}.

(** An environment in which the crop exists and cannot be read. *)
Definition unreadable_env : env :=
  {| str_of := λ _, lit "<object>";
     path_exists := λ _, true;
     read_bytes := λ _, Raise (lit "[Errno 13] Permission denied: '/tmp/pact_crop.png'");
     new_paddle := Ret tt;
     has_predict := true;
     predict := λ _ _, Ret (PList []);
     legacy_ocr := λ _, Ret (PList []);
     image_open := λ _, Ret (200, 80)%Z;
     image_expand := λ _ _, Ret tt;
     image_resize := λ _ _, Ret tt;
     mkstemp := λ _, Ret (lit "/tmp/pact_ocr.png");
     image_save := λ _, Ret tt;
     chat_create := λ _, Ret (Some (lit "你好"));
     signal_takes_none := false |}.

Lemma translate_without_client_witness :
  let E := sample_env (λ _, true) answer_lenient in
  translate E unconfigured_engine (lit "HELLO") [] (Some crop) false ready
  = (Ret (Some (lit "Error: API not configured. Please go to Settings.")),
     extend ready [CallTranslate (lit "HELLO") [] (Some crop) false]).
Proof.
  cbv zeta.
  apply (translate_without_client (sample_env (λ _, true) answer_lenient)
           unconfigured_engine (lit "HELLO") [] (Some crop) false ready).
  reflexivity.
Defined.

Lemma translate_text_mode_witness :
  let E := sample_env (λ _, true) answer_lenient in
  let llm_engine := text_engine in
  let text := lit "HELLO" in
  let context := lit "manga" in
  let image_path := Some crop in
  let w := ready in
  let req := request_of llm_engine context [user_text text image_path false] in
  translate E llm_engine text context image_path false w
  = (Ret (match chat_create E req with
          | Ret answer => answer
          | Raise e => Some (lit "API Error: " ++ e)
          end),
     extend w [CallTranslate text context image_path false; ChatCreate req])
  ∧ (nonempty (strip text) = true →
     user_text text image_path false = TextPart (lit "Original Text:
" ++ text)).
Proof.
  cbv zeta.
  apply (translate_text_mode (sample_env (λ _, true) answer_lenient) text_engine
           (lit "HELLO") (lit "manga") (Some crop) ready).
  exists tt. reflexivity.
Defined.

Lemma translate_raises_only_on_read_witness :
  let E := unreadable_env in
  let e := lit "[Errno 13] Permission denied: '/tmp/pact_crop.png'" in
  read_bytes E crop = Raise e
  ∧ path_exists E crop = true
  ∧ snd (translate E vision_engine [] [] (Some crop) true ready)
    = extend ready [CallTranslate [] [] (Some crop) true].
Proof.
  cbv zeta.
  apply (translate_raises_only_on_read unreadable_env vision_engine [] [] crop
           (lit "[Errno 13] Permission denied: '/tmp/pact_crop.png'") ready).
  vm_compute. reflexivity.
Defined.


End LlmSamples.

(** ** More about utils/config.py and the model history *)

Section ConfigExtras.
Import Config Settings.

(** A successful save carried out: the disk it leaves. *)
Lemma save_config_success (data : gmap pystr json) (d d' : disk) :
  save_config data d = (Ret true, d') →
  ∃ prev, stored_dict d = Some prev
          ∧ on_write d = Writes
          ∧ d' = {| config_json := Stored (JObj (data ∪ prev)); on_write := Writes |}.
Proof.
  rewrite save_config_cases.
  destruct (stored_dict d) as [prev |]; [| discriminate].
  destruct (on_write d); try discriminate.
  intros H. injection H as <-. eauto.
Qed.

(** Two saves in a row are one save of both dicts, the later one winning
    on the keys they share; after a save that succeeded the next one
    succeeds as well. *)
Theorem save_config_twice (data1 data2 : gmap pystr json) (d d1 : disk) :
  save_config data1 d = (Ret true, d1) →
  save_config data2 d1 = save_config (data2 ∪ data1) d
  ∧ fst (save_config data2 d1) = Ret true.
Proof.
  intros Hfirst.
  apply save_config_success in Hfirst as (prev & Hprev & Hw & ->).
  rewrite !save_config_cases, Hprev, Hw, stored_dict_spec. cbn [config_json on_write fst].
  rewrite (assoc_L (∪)). split; reflexivity.
Qed.

(** A save that returns [False] leaves the file as it was, unless
    [json.dump] raised after the file was opened for writing: then the
    configuration that was there is lost, and [load_config] returns the
    empty dict from then on. *)
Theorem save_config_failure (data : gmap pystr json) (d d' : disk) :
  save_config data d = (Ret false, d') →
  d' = d
  ∨ ∃ e, on_write d = DumpRaises e
         ∧ config_json d' = Malformed e
         ∧ load_config d' = (Ret (JObj ∅), d').
Proof.
  rewrite save_config_cases.
  destruct (stored_dict d) as [prev |].
  - destruct (on_write d) as [| e | e] eqn:Hw; try discriminate.
    + intros H. injection H as <-. left. reflexivity.
    + intros H. injection H as <-. right. exists e. auto.
  - intros H. injection H as <-. left. reflexivity.
Qed.

(** A config.json that is missing or cannot be read or parsed does not
    stop a save: the file is written anew and holds [data] alone. *)
Theorem save_config_replaces_unreadable (data : gmap pystr json) (d : disk) :
  (∀ v, config_json d ≠ Stored v) →
  on_write d = Writes →
  save_config data d
  = (Ret true, {| config_json := Stored (JObj data); on_write := Writes |}).
Proof.
  intros Hfile Hw. rewrite save_config_cases, stored_dict_spec, Hw.
  destruct (config_json d) as [| e | e | v];
    try (rewrite (right_id_L ∅ (∪)); reflexivity).
  destruct (Hfile v eq_refl).
Qed.

(** The entries [_load_successful_models] keeps. *)
Definition clean_entry (x : pystr) : Prop := nonempty x = true ∧ strip x = x.

Lemma clean_loop_entries (models : list json) :
  ∀ (cleaned : list pystr) (seen : gset pystr),
    Forall clean_entry cleaned →
    Forall clean_entry (clean_loop models cleaned seen).
Proof.
  induction models as [| item rest IH]; intros cleaned seen H; [exact H |].
  cbn [clean_loop]. destruct item; try (apply IH; exact H).
  destruct (nonempty (strip s)) eqn:Hs; cbn [negb orb]; [| apply IH; exact H].
  case_bool_decide; [apply IH; exact H |].
  apply IH. apply Forall_app. split; [exact H |].
  constructor; [| constructor]. split; [exact Hs | apply strip_strip].
Qed.

(** The loop on a list that is clean already gives it back. *)
Lemma clean_loop_fixed (l : list pystr) :
  ∀ (cleaned : list pystr) (seen : gset pystr),
    NoDup l → Forall clean_entry l → (∀ x, x ∈ l → x ∉ seen) →
    clean_loop (JStr <$> l) cleaned seen = cleaned ++ l.
Proof.
  induction l as [| x rest IH]; intros cleaned seen Hnd Hclean Hseen.
  - cbn. rewrite app_nil_r. reflexivity.
  - apply NoDup_cons in Hnd as [Hx Hnd].
    apply Forall_cons in Hclean as [[Hne Hstrip] Hclean].
    cbn [fmap list_fmap clean_loop]. rewrite Hstrip, Hne. cbn [negb orb].
    rewrite bool_decide_eq_false_2 by (apply Hseen; left).
    rewrite IH; [rewrite <- app_assoc; reflexivity | exact Hnd | exact Hclean |].
    intros y Hy. rewrite elem_of_union, elem_of_singleton.
    intros [-> | Hin]; [contradiction |].
    apply (Hseen y); [right; exact Hy | exact Hin].
Qed.

(** What [_load_successful_models] returns on a configuration that loads
    as a dict. *)
Lemma load_successful_models_run (d : disk) (prev : gmap pystr json) :
  stored_dict d = Some prev →
  _load_successful_models d
  = (Ret (match prev !! lit "successful_models" with
          | Some (JArr items) => clean_loop items [] ∅
          | _ => []
          end), d).
Proof.
  intros Hprev. unfold _load_successful_models, bind.
  rewrite (load_config_of_stored_dict _ _ Hprev).
  unfold lift, config_get.
  destruct (prev !! lit "successful_models") as [v |]; [| reflexivity].
  destruct v; reflexivity.
Qed.


(** A config.json that holds something else than an object makes
    [_save_successful_model] raise: the [AttributeError] of [config.get]
    is not caught, and nothing is written. *)
Theorem save_successful_model_not_a_dict (model : pystr) (g : dialog) :
  nonempty (strip model) = true →
  stored_dict (files g) = None →
  ∃ e, _save_successful_model model g = (Raise e, g).
Proof.
  intros Hmodel Hnone. unfold _save_successful_model.
  rewrite or_empty, Hmodel. cbn [negb].
  unfold bind at 1. unfold on_disk at 1. unfold _load_successful_models, bind at 1.
  destruct (load_config_returns (files g)) as [v Hv]. rewrite Hv.
  unfold stored_dict in Hnone. rewrite Hv in Hnone. cbn [fst] in Hnone.
  destruct g as [combo_ d]. cbn [files model_combo] in *.
  destruct v; try (eexists; reflexivity). discriminate.
Qed.

End ConfigExtras.

(** ** The statements about the configuration file at work *)

Section ConfigSamples.
Import Config Settings.

(** No config.json yet, in a directory that can be written. *)
Definition empty_disk : disk := {| config_json := Absent; on_write := Writes |}.

(** A config.json that holds a key, in a directory that is read-only. *)
Definition read_only_disk : disk :=
  {| config_json := Stored (JObj {[ lit "api_key" := JStr (lit "sk-1") ]});
     on_write := OpenRaises (lit "[Errno 13] Permission denied: 'config.json'") |}.

(** A config.json that was cut off in the middle. *)
Definition broken_disk : disk :=
  {| config_json := Malformed (lit "Expecting value: line 1 column 1 (char 0)");
     on_write := Writes |}.

(** A config.json that holds a list. *)
Definition list_dialog : dialog :=
  {| model_combo := None;
     files := {| config_json := Stored (JArr []); on_write := Writes |} |}.

Lemma save_config_twice_witness :
  let data1 : gmap pystr json := {[ lit "model" := JStr (lit "a") ]} in
  let data2 : gmap pystr json := {[ lit "use_vision" := JBool true ]} in
  let d1 := snd (save_config data1 empty_disk) in
  save_config data2 d1 = save_config (data2 ∪ data1) empty_disk
  ∧ fst (save_config data2 d1) = Ret true.
Proof.
  cbv zeta.
  apply (save_config_twice {[ lit "model" := JStr (lit "a") ]}
           {[ lit "use_vision" := JBool true ]} empty_disk).
  vm_compute. reflexivity.
Defined.

Lemma save_config_failure_witness :
  let data : gmap pystr json := {[ lit "model" := JStr (lit "a") ]} in
  let d := read_only_disk in
  let d' := snd (save_config data d) in
  d' = d
  ∨ ∃ e, on_write d = DumpRaises e
         ∧ config_json d' = Malformed e
         ∧ load_config d' = (Ret (JObj ∅), d').
Proof.
  cbv zeta.
  apply (save_config_failure {[ lit "model" := JStr (lit "a") ]} read_only_disk).
  vm_compute. reflexivity.
Defined.

Lemma save_config_replaces_unreadable_witness :
  let data : gmap pystr json := {[ lit "model" := JStr (lit "a") ]} in
  save_config data broken_disk
  = (Ret true, {| config_json := Stored (JObj data); on_write := Writes |}).
Proof.
  cbv zeta.
  apply (save_config_replaces_unreadable {[ lit "model" := JStr (lit "a") ]} broken_disk).
  - intros v H. discriminate H.
  - reflexivity.
Defined.


Lemma save_successful_model_not_a_dict_witness :
  ∃ e, _save_successful_model (lit "a") list_dialog = (Raise e, list_dialog).
Proof.
  apply (save_successful_model_not_a_dict (lit "a") list_dialog); reflexivity.
Defined.

End ConfigSamples.

(** ** The model history as a most-recently-used list *)

Section HistoryExtras.
Import Config Settings.

(** The models the configuration [prev] remembers. *)
Definition remembered (prev : gmap pystr json) : list pystr :=
  match prev !! lit "successful_models" with
  | Some (JArr items) => clean_loop items [] ∅
  | _ => []
  end.

(** The combo box after [update_combo]. *)
Definition shown (model : pystr) (c : option combo) : option combo :=
  match c with
  | Some c =>
      Some {| items := if bool_decide (model ∈ items c) then items c
                       else model :: items c;
              current_text := model |}
  | None => None
  end.

(** [_save_successful_model] carried out on a configuration that loads as
    a dict and can be written. *)
Lemma save_successful_model_run (model : pystr) (g : dialog) (prev : gmap pystr json) :
  nonempty (strip model) = true →
  stored_dict (files g) = Some prev →
  on_write (files g) = Writes →
  _save_successful_model model g
  = (Ret tt,
     {| model_combo := shown (strip model) (model_combo g);
        files := {| config_json :=
                      Stored (JObj ({[ lit "successful_models" :=
                                         JArr (JStr <$> new_history (strip model)
                                                          (remembered prev)) ]}
                                    ∪ prev));
                    on_write := Writes |} |}).
Proof.
  intros Hmodel Hprev Hw. unfold _save_successful_model.
  rewrite or_empty, Hmodel. cbn [negb].
  unfold bind at 1. unfold on_disk at 1.
  rewrite (load_successful_models_run _ _ Hprev). fold (remembered prev).
  unfold bind at 1. unfold on_disk at 1. cbn [files model_combo].
  rewrite save_config_cases, Hprev, Hw.
  fold (new_history (strip model) (remembered prev)).
  unfold update_combo, modify, shown. cbn [files model_combo].
  destruct (model_combo g); reflexivity.
Qed.

Lemma filter_all {A} (P : A → Prop) `{∀ x, Decision (P x)} (l : list A) :
  Forall P l → filter P l = l.
Proof.
  induction 1 as [| x l Hx _ IH]; [reflexivity |].
  rewrite filter_cons_True by exact Hx. rewrite IH. reflexivity.
Qed.

(** Putting the first model of a history first again changes nothing. *)
Lemma new_history_again (model : pystr) (models : list pystr) :
  new_history model (new_history model models) = new_history model models.
Proof.
  unfold new_history.
  set (others := filter (λ m, m ≠ model) models).
  change (take 30 (model :: others)) with (model :: take 29 others).
  rewrite filter_cons_False by (intros H; apply H; reflexivity).
  rewrite filter_all.
  - change (take 30 (model :: take 29 others)) with (model :: take 29 (take 29 others)).
    rewrite take_take. reflexivity.
  - apply Forall_take. subst others. apply Forall_forall.
    intros x Hx. apply list_elem_of_filter in Hx as [Hx _]. exact Hx.
Qed.

Lemma new_history_entries (model : pystr) (models : list pystr) :
  clean_entry model → Forall clean_entry models →
  Forall clean_entry (new_history model models).
Proof.
  intros Hm Hl. unfold new_history. apply Forall_take. constructor; [exact Hm |].
  apply Forall_forall. intros x Hx. apply list_elem_of_filter in Hx as [_ Hx].
  rewrite Forall_forall in Hl. apply Hl, Hx.
Qed.

Lemma remembered_clean (prev : gmap pystr json) :
  NoDup (remembered prev) ∧ Forall clean_entry (remembered prev).
Proof.
  unfold remembered.
  destruct (prev !! lit "successful_models") as [v |]; [| split; constructor].
  destruct v as [| | | | items |]; try (split; constructor).
  split; [apply clean_loop_NoDup; [constructor | set_solver] |].
  apply clean_loop_entries. constructor.
Qed.

(** Saving a model touches one key of the configuration: every other key
    keeps its value, and the history becomes the model followed by the
    models remembered before, in their order, without the model itself,
    cut off after 30. *)
Theorem save_successful_model_frame (model : pystr) (g : dialog) (prev : gmap pystr json) :
  nonempty (strip model) = true →
  stored_dict (files g) = Some prev →
  on_write (files g) = Writes →
  ∃ g' new,
    _save_successful_model model g = (Ret tt, g')
    ∧ stored_dict (files g') = Some new
    ∧ (∀ k, k ≠ lit "successful_models" → new !! k = prev !! k)
    ∧ new !! lit "successful_models"
      = Some (JArr (JStr <$> take 30 (strip model
                                      :: filter (λ m, m ≠ strip model) (remembered prev)))).
Proof.
  intros Hmodel Hprev Hw.
  rewrite (save_successful_model_run model g prev Hmodel Hprev Hw).
  eexists _, _. split; [reflexivity |].
  cbn [files]. rewrite stored_dict_spec. cbn [config_json].
  split; [reflexivity |]. split.
  - intros k Hk. apply lookup_union_r. apply lookup_singleton_ne. congruence.
  - rewrite lookup_union_l'; [| eexists]; apply lookup_singleton_eq.
Qed.

(** Saving the same model a second time changes nothing: neither the
    file nor the combo box. *)
Theorem save_successful_model_idempotent (model : pystr) (g g1 : dialog) :
  nonempty (strip model) = true →
  is_Some (stored_dict (files g)) →
  on_write (files g) = Writes →
  _save_successful_model model g = (Ret tt, g1) →
  _save_successful_model model g1 = (Ret tt, g1).
Proof.
  intros Hmodel [prev Hprev] Hw Hfirst.
  rewrite (save_successful_model_run model g prev Hmodel Hprev Hw) in Hfirst.
  assert (Hclean : NoDup (new_history (strip model) (remembered prev))
                   ∧ Forall clean_entry (new_history (strip model) (remembered prev))).
  { destruct (remembered_clean prev) as [Hnd Hall]. split.
    - apply (new_history_mru (strip model) _ Hnd).
    - apply new_history_entries; [| exact Hall].
      split; [exact Hmodel | apply strip_strip]. }
  assert (Hfixed : new_history (strip model)
                     (new_history (strip model) (remembered prev))
                   = new_history (strip model) (remembered prev))
    by apply new_history_again.
  remember (new_history (strip model) (remembered prev)) as history eqn:Hhistory.
  remember ({[ lit "successful_models" := JArr (JStr <$> history) ]} ∪ prev)
    as prev1 eqn:Hprev1.
  assert (Hkey : prev1 !! lit "successful_models" = Some (JArr (JStr <$> history))).
  { subst prev1. rewrite lookup_union_l'; [| eexists]; apply lookup_singleton_eq. }
  assert (Hagain : remembered prev1 = history).
  { unfold remembered. rewrite Hkey.
    rewrite clean_loop_fixed; [reflexivity | apply Hclean | apply Hclean | set_solver]. }
  injection Hfirst as <-.
  rewrite (save_successful_model_run model _ prev1 Hmodel);
    [| cbn [files]; rewrite stored_dict_spec; reflexivity | reflexivity].
  rewrite Hagain, Hfixed. cbn [model_combo files].
  assert (Hshown : shown (strip model) (shown (strip model) (model_combo g))
                   = shown (strip model) (model_combo g)).
  { destruct (model_combo g) as [c |]; [| reflexivity]. unfold shown.
    cbn [items current_text]. f_equal. f_equal.
    rewrite bool_decide_eq_true_2; [reflexivity |].
    case_bool_decide; [assumption | left]. }
  assert (Hdict : {[ lit "successful_models" := JArr (JStr <$> history) ]} ∪ prev1 = prev1).
  { subst prev1. rewrite (assoc_L (∪)). f_equal; apply (idemp (∪)). }
  rewrite Hshown, Hdict. reflexivity.
Qed.

End HistoryExtras.

Section HistorySamples.
Import Config Settings.

Lemma save_successful_model_frame_witness :
  let model := lit "a" in
  let g := writable_dialog in
  let prev : gmap pystr json :=
    {[ lit "successful_models" := JArr [JStr (lit "b"); JStr (lit " a ")] ]} in
  ∃ g' new,
    _save_successful_model model g = (Ret tt, g')
    ∧ stored_dict (files g') = Some new
    ∧ (∀ k, k ≠ lit "successful_models" → new !! k = prev !! k)
    ∧ new !! lit "successful_models"
      = Some (JArr (JStr <$> take 30 (strip model
                                      :: filter (λ m, m ≠ strip model) (remembered prev)))).
Proof.
  cbv zeta.
  apply (save_successful_model_frame (lit "a") writable_dialog
           {[ lit "successful_models" := JArr [JStr (lit "b"); JStr (lit " a ")] ]});
    reflexivity.
Defined.

Lemma save_successful_model_idempotent_witness :
  let g1 := snd (_save_successful_model (lit "a") writable_dialog) in
  _save_successful_model (lit "a") g1 = (Ret tt, g1).
Proof.
  cbv zeta.
  apply (save_successful_model_idempotent (lit "a") writable_dialog).
  - reflexivity.
  - rewrite stored_dict_spec. eexists. reflexivity.
  - reflexivity.
  - vm_compute. reflexivity.
Defined.

End HistorySamples.

(** ** More about [on_translation_finished] *)

Section PaneExtras.
Import Window.

(** A replacement only puts in code points of the new text. *)
Lemma replace_from_elem (old new : pystr) (x : N) (s : pystr) :
  ∀ skip, x ∈ replace_from old new skip s → x ∈ new ∨ x ∈ s.
Proof.
  induction s as [| c t IH]; intros skip H; [inversion H |].
  cbn [replace_from] in H. destruct skip as [| k].
  - destruct (startswith old (c :: t)).
    + apply elem_of_app in H as [H | H]; [left; exact H |].
      destruct (IH _ H) as [Hn | Ht]; [left; exact Hn | right; right; exact Ht].
    + apply elem_of_cons in H as [-> | H]; [right; left |].
      destruct (IH _ H) as [Hn | Ht]; [left; exact Hn | right; right; exact Ht].
  - destruct (IH _ H) as [Hn | Ht]; [left; exact Hn | right; right; exact Ht].
Qed.

Lemma replace_elem (old new : pystr) (x : N) (s : pystr) :
  x ∈ replace old new s → x ∈ new ∨ x ∈ s.
Proof. apply replace_from_elem. Qed.

(** Replacing a code point by a text without it removes it. *)
Lemma replace_char_gone (c : N) (new s : pystr) :
  c ∉ new → c ∉ replace [c] new s.
Proof.
  intros Hnew. unfold replace. induction s as [| a t IH]; [inversion 1 |].
  cbn [replace_from startswith]. destruct (N.eqb_spec c a) as [<- | Hne]; cbn [andb].
  - cbn [length Nat.pred]. intros H. apply elem_of_app in H as [H | H]; auto.
  - intros H. apply elem_of_cons in H as [H | H]; auto.
Qed.

Lemma unwrap_quotes_elem (x : N) (s : pystr) : x ∈ unwrap_quotes s → x ∈ s.
Proof.
  unfold unwrap_quotes. destruct s as [| first rest]; [auto |].
  destruct (last (first :: rest)); [| auto].
  destruct (_ && _); [| auto].
  intros H. right.
  destruct rest as [| a r] using rev_ind; [inversion H |].
  rewrite removelast_last in H. apply elem_of_app. left. exact H.
Qed.

Lemma split_elem (sep x : N) (s : pystr) (l : pystr) :
  l ∈ split sep s → x ∈ l → x ∈ s.
Proof.
  revert l. induction s as [| c t IH]; intros l Hl Hx.
  - cbn in Hl. apply list_elem_of_singleton in Hl. subst l. inversion Hx.
  - cbn [split] in Hl. destruct (c =? sep).
    + apply elem_of_cons in Hl as [-> | Hl]; [inversion Hx |].
      right. apply (IH l Hl Hx).
    + destruct (split sep t) as [| w ws] eqn:Hsplit.
      * apply list_elem_of_singleton in Hl. subst l.
        apply list_elem_of_singleton in Hx. subst x. left.
      * apply elem_of_cons in Hl as [-> | Hl].
        -- apply elem_of_cons in Hx as [-> | Hx]; [left | right].
           apply (IH w); [left | exact Hx].
        -- right. apply (IH l); [right; exact Hl | exact Hx].
Qed.

Lemma enhance_elem (l : pystr) (lines : list pystr) :
  l ∈ enhance lines → l = [] ∨ l ∈ lines.
Proof.
  induction lines as [| line rest IH]; [inversion 1 |].
  cbn [enhance]. destruct rest as [| next rest'].
  - intros H. right. exact H.
  - destruct (negb (nonempty (strip line)) || negb (nonempty (strip next))).
    + intros H. apply elem_of_cons in H as [-> | H]; [right; left |].
      destruct (IH H) as [-> | Hin]; [left; reflexivity | right; right; exact Hin].
    + destruct (is_quote_only (strip line) || is_quote_only (strip next)).
      * intros H. apply elem_of_cons in H as [-> | H]; [right; left |].
        destruct (IH H) as [-> | Hin]; [left; reflexivity | right; right; exact Hin].
      * intros H. apply elem_of_cons in H as [-> | H]; [right; left |].
        apply elem_of_cons in H as [-> | H]; [left; reflexivity |].
        destruct (IH H) as [-> | Hin]; [left; reflexivity | right; right; exact Hin].
Qed.

Lemma join_elem (sep : pystr) (x : N) (lines : list pystr) :
  x ∈ join sep lines → x ∈ sep ∨ ∃ l, l ∈ lines ∧ x ∈ l.
Proof.
  induction lines as [| l rest IH]; [inversion 1 |].
  destruct rest as [| l2 rest2].
  - intros H. right. exists l. split; [left | exact H].
  - change (join sep (l :: l2 :: rest2)) with (l ++ sep ++ join sep (l2 :: rest2)).
    intros H. apply elem_of_app in H as [H | H]; [right; exists l; split; [left | exact H] |].
    apply elem_of_app in H as [H | H]; [left; exact H |].
    destruct (IH H) as [Hs | (l' & Hl' & Hx)]; [left; exact Hs |].
    right. exists l'. split; [right; exact Hl' | exact Hx].
Qed.

(** Whatever the model answered, the text put into the translation pane
    holds no carriage return: every line end in it is a line feed. *)
Theorem translation_pane_without_carriage_return (ocr_text trans_text : pystr) (ui : panes) :
  CR ∉ trans_text_edit (on_translation_finished ocr_text trans_text ui).
Proof.
  unfold on_translation_finished. cbn [trans_text_edit].
  unfold normalize_translation.
  set (step1 := replace [CR; LF] [LF] trans_text).
  set (step2 := replace [CR] [LF] step1).
  set (step3 := replace (lit "\n") [LF] (replace (lit "\r\n") [LF] step2)).
  assert (Hnew : CR ∉ [LF]).
  { intros H. apply list_elem_of_singleton in H. discriminate. }
  assert (H2 : CR ∉ step2) by (apply replace_char_gone, Hnew).
  assert (H3 : CR ∉ step3).
  { intros H. subst step3.
    apply replace_elem in H as [H | H]; [contradiction |].
    apply replace_elem in H as [H | H]; contradiction. }
  assert (H4 : CR ∉ unwrap_quotes step3).
  { intros H. apply H3, unwrap_quotes_elem, H. }
  cbv zeta. destruct (1 <? length (split LF (unwrap_quotes step3)))%nat; [| exact H4].
  intros H. apply join_elem in H as [H | (l & Hl & Hx)]; [contradiction |].
  apply enhance_elem in Hl as [-> | Hl]; [inversion Hx |].
  apply H4. apply (split_elem LF CR _ l Hl Hx).
Qed.

(** The loop that spaces the lines out only adds empty lines: the lines
    that are not empty come out as they went in, in the same order. *)
Theorem enhance_keeps_text (lines : list pystr) :
  List.filter nonempty (enhance lines) = List.filter nonempty lines.
Proof.
  induction lines as [| line rest IH]; [reflexivity |].
  cbn [enhance]. destruct rest as [| next rest']; [reflexivity |].
  destruct (negb (nonempty (strip line)) || negb (nonempty (strip next)));
    [| destruct (is_quote_only (strip line) || is_quote_only (strip next))];
    cbn [List.filter nonempty]; rewrite IH; reflexivity.
Qed.

End PaneExtras.

(** ** The window after a task *)

Section SlotFacts.
Import Llm Window MainWindow.
Context (E : env) (llm_engine : engine).

Lemma finished_events_last (ocr_text : pystr) (trans : option pystr) :
  ∃ r, finished_events E ocr_text trans = [r] ∧ is_result r = true.
Proof.
  destruct trans as [t |]; unfold finished_events.
  - eauto.
  - destruct (signal_takes_none E); eauto.
Qed.

Lemma deliver_last (ocr_text text context : pystr) (image_path : option pystr)
    (use_vision : bool) :
  ∃ front r,
    deliver E llm_engine ocr_text text context image_path use_vision = front ++ [r]
    ∧ results front = [] ∧ is_result r = true.
Proof.
  unfold deliver.
  destruct (client llm_engine) as [[] |].
  - destruct (user_image E image_path use_vision) as [image | e].
    + cbv zeta.
      destruct (finished_events_last ocr_text
                  (reply E (request_of llm_engine context
                              (user_text text image_path use_vision :: image))))
        as (r & -> & Hr).
      eexists [_; _], r. split; [reflexivity |]. split; [reflexivity | exact Hr].
    + eexists [_], _. split; [reflexivity |]. split; reflexivity.
  - destruct (finished_events_last ocr_text
                (Some (lit "Error: API not configured. Please go to Settings.")))
      as (r & -> & Hr).
    eexists [_], r. split; [reflexivity |]. split; [reflexivity | exact Hr].
Qed.

(** The events of a run: signals and calls that carry no result, then the
    one result. *)
Lemma run_events (image_path context : pystr) (w : world) :
  ∃ front r,
    trace (snd (run E llm_engine image_path context w)) = trace w ++ front ++ [r]
    ∧ results front = [] ∧ is_result r = true.
Proof.
  destruct (Config.truthy (use_vision llm_engine)) eqn:Hvision.
  - rewrite (run_vision E llm_engine image_path context w Hvision).
    destruct (deliver_last vision_ocr_text [] context (Some image_path) true)
      as (front & r & -> & Hfront & Hr).
    exists (EmitStatus vision_status :: front), r.
    split; [reflexivity |]. split; [exact Hfront | exact Hr].
  - destruct (run_ocr E llm_engine image_path context w Hvision)
      as (ocr_text & ocr_events & _ & Hocr & _ & ->).
    assert (Hhead : results (EmitStatus ocr_status :: CallRecognize image_path
                             :: ocr_events) = []).
    { apply (results_ocr ocr_events) in Hocr. exact Hocr. }
    unfold after_ocr.
    destruct (startswith (lit "OCR Error:") ocr_text).
    { exists (EmitStatus ocr_status :: CallRecognize image_path :: ocr_events),
        (EmitError ocr_text).
      split; [reflexivity |]. split; [exact Hhead | reflexivity]. }
    destruct (negb (nonempty (strip ocr_text))).
    { exists (EmitStatus ocr_status :: CallRecognize image_path :: ocr_events),
        (EmitError no_text).
      split; [reflexivity |]. split; [exact Hhead | reflexivity]. }
    destruct (deliver_last ocr_text ocr_text context (Some image_path) false)
      as (front & r & -> & Hfront & Hr).
    exists ((EmitStatus ocr_status :: CallRecognize image_path :: ocr_events)
            ++ EmitStatus llm_status :: front), r.
    split.
    + f_equal. cbn [app]. do 2 f_equal. rewrite <- app_assoc. reflexivity.
    + split; [| exact Hr]. rewrite results_app, Hhead. exact Hfront.
Qed.

Lemma emitted_extend (w w' : world) (evs : list event) :
  trace w' = trace w ++ evs → emitted w w' = evs.
Proof. intros H. unfold emitted. rewrite H. apply drop_app_length. Qed.

(** C5 says a run signals one result; this says where: the result is the
    last thing a run does.  Nothing is called and nothing is emitted
    after [finished] or [error], so that the slots of the window see
    every status message before they see the result. *)
Theorem run_ends_with_result (image_path context : pystr) (w : world) :
  ∃ front r,
    emitted w (snd (run E llm_engine image_path context w)) = front ++ [r]
    ∧ Forall (λ ev, is_result ev = false) front
    ∧ is_result r = true.
Proof.
  destruct (run_events image_path context w) as (front & r & Htrace & Hfront & Hr).
  exists front, r. split; [apply emitted_extend; exact Htrace |].
  split; [| exact Hr].
  clear Htrace. induction front as [| ev front IH]; [constructor |].
  unfold results in Hfront. cbn [List.filter] in Hfront.
  destruct (is_result ev) eqn:Hev; [discriminate |].
  constructor; [exact Hev | apply IH; exact Hfront].
Qed.

(** Two windows that differ in the status bar at most. *)
Definition same_but_status (a b : window) : Prop :=
  ocr_text_edit (view a) = ocr_text_edit (view b)
  ∧ trans_text_edit (view a) = trans_text_edit (view b)
  ∧ boxes a = boxes b
  ∧ ocr_init_action_enabled a = ocr_init_action_enabled b.

Lemma deliver_signals_quiet (front : list event) :
  results front = [] →
  ∀ win, same_but_status (deliver_signals front win) win.
Proof.
  induction front as [| ev front IH]; intros Hfront win.
  - repeat split.
  - unfold results in Hfront. cbn [List.filter] in Hfront.
    destruct (is_result ev) eqn:Hev; [discriminate |].
    unfold deliver_signals. cbn [foldl].
    destruct (IH Hfront (slot ev win)) as (H1 & H2 & H3 & H4).
    unfold deliver_signals in H1, H2, H3, H4.
    unfold same_but_status. rewrite H1, H2, H3, H4.
    destruct ev; try discriminate; repeat split.
Qed.

Lemma deliver_signals_snoc (front : list event) (r : event) (win : window) :
  deliver_signals (front ++ [r]) win = slot r (deliver_signals front win).
Proof. unfold deliver_signals. rewrite foldl_app. reflexivity. Qed.

(** A confirmed selection whose crop was saved leaves the window in one of
    three states, according to the last signal of the run.  After
    [finished] the panes show the recognised text, the normalised
    translation and ["Translation Complete"], and no box was shown.
    After [error("__OCR_NO_TEXT__")] the OCR pane shows the hint, the
    translation pane is empty, and no box was shown.  After any other
    error the OCR pane shows ["Error"], the translation pane is empty,
    and exactly one warning box with the message was shown. *)
Theorem translate_selection_outcome (temp_path context : pystr) (w : world)
    (win : window) :
  ∃ w' win',
    translate_selection E llm_engine (Ret temp_path) context w win = (w', win')
    ∧ ocr_init_action_enabled win' = ocr_init_action_enabled win
    ∧ ((∃ ocr_text trans_text,
          last (trace w') = Some (EmitFinished ocr_text trans_text)
          ∧ view win' = {| ocr_text_edit := ocr_text;
                           trans_text_edit := normalize_translation trans_text;
                           status_bar := lit "Translation Complete" |}
          ∧ boxes win' = boxes win)
       ∨ (last (trace w') = Some (EmitError no_text)
          ∧ view win' = {| ocr_text_edit := no_text_hint;
                           trans_text_edit := [];
                           status_bar := lit "Error: " ++ no_text_hint |}
          ∧ boxes win' = boxes win)
       ∨ (∃ msg,
            msg ≠ no_text
            ∧ last (trace w') = Some (EmitError msg)
            ∧ view win' = {| ocr_text_edit := lit "Error";
                             trans_text_edit := [];
                             status_bar := lit "Error: " ++ msg |}
            ∧ boxes win' = boxes win ++ [Warning (lit "Task Failed") msg])).
Proof.
  unfold translate_selection. cbv zeta.
  destruct (run_events temp_path context w) as (front & r & Htrace & Hfront & Hr).
  eexists _, _. split; [reflexivity |].
  assert (Hlast : last (trace (snd (run E llm_engine temp_path context w))) = Some r).
  { rewrite Htrace, app_assoc. apply last_snoc. }
  rewrite Hlast.
  rewrite (emitted_extend _ _ _ Htrace), deliver_signals_snoc.
  destruct (deliver_signals_quiet front Hfront
              (clear_translation
                 (set_ocr_text (lit "Processing...")
                    (show_message (lit "Processing selection...") win))))
    as (_ & Htrans & Hboxes & Haction).
  cbn [clear_translation set_ocr_text show_message view trans_text_edit boxes
       ocr_init_action_enabled] in Htrans, Hboxes, Haction.
  destruct r as [p | | p k | p | p | a b c d | req | msg | ocr_text trans_text | msg];
    try discriminate.
  - split; [exact Haction |]. left. exists ocr_text, trans_text.
    split; [reflexivity |]. split; [reflexivity | exact Hboxes].
  - cbn [slot]. unfold on_translation_error. case_bool_decide as Hmsg.
    + subst msg. split; [exact Haction |]. right. left.
      split; [reflexivity |].
      cbn [set_ocr_text show_message view boxes ocr_text_edit trans_text_edit
           status_bar].
      rewrite Htrans. split; [reflexivity | exact Hboxes].
    + split; [exact Haction |]. right. right. exists msg.
      split; [exact Hmsg |]. split; [reflexivity |].
      cbn [set_ocr_text show_message show_box view boxes ocr_text_edit
           trans_text_edit status_bar].
      rewrite Htrans, Hboxes. split; reflexivity.
Qed.

(** [OcrInitWorker.run] always emits an empty reason: [initialize] catches
    what the constructor raises, so the [except] branch of the worker
    never runs. *)
Lemma ocr_init_run_spec (w : world) :
  ∃ ok w',
    ocr_init_run E w = (Ret (ok, []), w')
    ∧ Ocr.initialize E w = (Ret ok, w').
Proof.
  unfold ocr_init_run, try_except, bind.
  destruct (initialize_returns E w) as [ok Hok].
  destruct (Ocr.initialize E w) as [r w'] eqn:Hinit. cbn [fst] in Hok. subst r.
  exists ok, w'. split; reflexivity.
Qed.

(** Warming up the recogniser: what the status bar shows afterwards, in
    every case.  A failed warm-up shows ["OCR 预热失败"] and never a
    reason, because the worker is never given one; the action of the
    menu is enabled again whenever a warm-up ran, and the recogniser is
    ready afterwards exactly when the bar says so. *)
Theorem warmup_ocr_outcome (running : bool) (w : world) (win : window) :
  ∃ w' win',
    warmup_ocr E running w win = (w', win')
    ∧ status_bar (view win')
      = (if initialized w then lit "OCR 已就绪"
         else if running then lit "OCR 预热中..."
         else if initialized w' then lit "OCR 预热完成"
         else lit "OCR 预热失败")
    ∧ ocr_init_action_enabled win'
      = (if initialized w || running then ocr_init_action_enabled win else true)
    ∧ same_but_status win' (set_ocr_init_action (ocr_init_action_enabled win') win)
    ∧ (initialized w = true ∨ running = true → w' = w).
Proof.
  unfold warmup_ocr.
  destruct (initialized w) eqn:Hready.
  { eexists _, _. split; [reflexivity |]. repeat split; auto. }
  destruct running.
  { eexists _, _. split; [reflexivity |]. repeat split; auto. }
  cbv zeta.
  destruct (ocr_init_run_spec w) as (ok & w' & -> & Hinit).
  assert (Hok : initialized w' = ok).
  { rewrite initialize_run, Hready in Hinit.
    destruct (new_paddle E); injection Hinit as <- <-; [reflexivity | exact Hready]. }
  exists w'. eexists. split; [reflexivity |]. rewrite Hok.
  unfold on_ocr_warmup_finished. cbv zeta.
  destruct ok.
  - repeat split; intros [H | H]; discriminate.
  - cbn [nonempty]. repeat split; intros [H | H]; discriminate.
Qed.

End SlotFacts.

(** ** The connection test and the configuration of the engine *)

Section ProbeFacts.
Import Config LlmConfig.
Context (V : services).

Lemma startswith_app (pat rest : pystr) : startswith pat (pat ++ rest) = true.
Proof.
  induction pat as [| c pat IH]; [reflexivity |].
  cbn. rewrite N.eqb_refl. exact IH.
Qed.

Lemma contains_app_r (pat a b : pystr) :
  contains pat b = true → contains pat (a ++ b) = true.
Proof.
  intros H. induction a as [| c a IH]; [exact H |].
  cbn [app contains]. rewrite IH. apply orb_true_r.
Qed.

Lemma contains_here (pat rest : pystr) : contains pat (pat ++ rest) = true.
Proof.
  destruct (pat ++ rest) eqn:Heq; cbn [contains];
    rewrite <- Heq, startswith_app; reflexivity.
Qed.

Lemma join_snoc (sep : pystr) (lines : list pystr) (x : pystr) :
  ∃ front, join sep (lines ++ [x]) = front ++ x.
Proof.
  induction lines as [| l rest [front IH]]; [exists []; reflexivity |].
  destruct rest as [| l2 rest2].
  - exists (l ++ sep). cbn. rewrite <- app_assoc. reflexivity.
  - change (join sep ((l :: l2 :: rest2) ++ [x]))
      with (l ++ sep ++ join sep ((l2 :: rest2) ++ [x])).
    rewrite IH. exists (l ++ sep ++ front). rewrite <- !app_assoc. reflexivity.
Qed.

(** The client the test constructs for an OpenRouter address. *)
Definition probe_client (api_key_ base_url_ : pystr) : openai_client :=
  {| client_base_url := JStr (rstrip_chars [47] base_url_);
     client_api_key := JStr api_key_;
     client_headers := Some openrouter_headers;
     client_timeout := Some 10%Z |}.

(** The test can only succeed for an address that holds ["openrouter.ai"]:
    [default_headers] is bound in that branch alone, so for every other
    address constructing the client raises, the [except] block answers
    [False], and no request is ever sent.  With such an address the test
    answers [True] exactly when the client can be constructed and the
    one request returns. *)
Theorem test_connection_needs_openrouter (api_key_ base_url_ model_ : pystr) (p : probe) :
  ∃ ok message p',
    test_connection V api_key_ base_url_ model_ p = (Ret (ok, message), p')
    ∧ (ok = true ↔
       contains (lit "openrouter.ai") (rstrip_chars [47] base_url_) = true
       ∧ openai_new V (probe_client api_key_ base_url_) = Ret tt
       ∧ ∃ answer, test_chat V (probe_client api_key_ base_url_) (probe_request model_)
                   = Ret answer)
    ∧ (contains (lit "openrouter.ai") (rstrip_chars [47] base_url_) = false →
       ok = false ∧ trace (probe_world p') = trace (probe_world p)).
Proof.
  unfold probe_client, test_connection, try_except, bind, append_line, log_probe,
    modify, lift, raise, ret, get.
  cbn [probe_world debug_info fst snd].
  destruct (contains (lit "openrouter.ai") (rstrip_chars [47] base_url_)).
  - cbn [probe_world debug_info fst snd].
    destruct (openai_new V _) as [[] | e1].
    + cbn [probe_world debug_info fst snd initialized trace].
      destruct (test_chat V _ (probe_request model_)) as [answer | e2].
      * eexists true, _, _. split; [reflexivity |]. split; [| discriminate].
        split; [intros _; eauto | reflexivity].
      * eexists false, _, _. split; [reflexivity |]. split; [| discriminate].
        split; [discriminate | intros (_ & _ & a & Ha); discriminate].
    + eexists false, _, _. split; [reflexivity |]. split; [| discriminate].
      split; [discriminate | intros (_ & H & _); discriminate].
  - eexists false, _, _. split; [reflexivity |]. split.
    + split; [discriminate | intros (H & _); discriminate].
    + intros _. split; reflexivity.
Qed.

(** The text of a failed test holds the API key in full: the line that
    shows the key masks it, the curl command at the end does not. *)
Theorem test_connection_failure_shows_key (api_key_ base_url_ model_ message : pystr)
    (p p' : probe) :
  test_connection V api_key_ base_url_ model_ p = (Ret (false, message), p') →
  contains api_key_ message = true.
Proof.
  assert (Hcurl : ∀ lines,
    contains api_key_
      (join [LF] (lines ++ [curl_cmd (rstrip_chars [47] base_url_) api_key_ model_]))
    = true).
  { intros lines. destruct (join_snoc [LF] lines
                              (curl_cmd (rstrip_chars [47] base_url_) api_key_ model_))
      as [front ->].
    apply contains_app_r. unfold curl_cmd.
    do 3 apply contains_app_r. apply contains_here. }
  unfold test_connection, try_except, bind, append_line, log_probe, modify, lift,
    raise, ret, get.
  cbn [probe_world debug_info fst snd].
  destruct (contains (lit "openrouter.ai") (rstrip_chars [47] base_url_)).
  - cbn [probe_world debug_info fst snd].
    destruct (openai_new V _) as [[] | e1].
    + cbn [probe_world debug_info fst snd initialized trace].
      destruct (test_chat V _ (probe_request model_)) as [answer | e2].
      * discriminate.
      * intros H. injection H as <- _. apply Hcurl.
    + intros H. injection H as <- _. apply Hcurl.
  - intros H. injection H as <- _. apply Hcurl.
Qed.

Lemma lstrip_chars_suffix (chars s : pystr) :
  ∃ gone, s = gone ++ lstrip_chars chars s ∧ Forall (λ c, c ∈ chars) gone.
Proof.
  induction s as [| c t (gone & IH & Hgone)]; [exists []; split; [reflexivity | constructor] |].
  cbn [lstrip_chars]. case_bool_decide as Hc.
  - exists (c :: gone). split; [cbn; rewrite <- IH; reflexivity | constructor; assumption].
  - exists []. split; [reflexivity | constructor].
Qed.

Lemma lstrip_chars_head (chars s : pystr) (c : N) (t : pystr) :
  lstrip_chars chars s = c :: t → c ∉ chars.
Proof.
  induction s as [| a r IH]; [discriminate |].
  cbn [lstrip_chars]. case_bool_decide as Ha; [exact IH |].
  intros H. injection H as <- _. exact Ha.
Qed.

Lemma rev_replicate (n : nat) (c : N) : rev (replicate n c) = replicate n c.
Proof.
  induction n as [| k IH]; [reflexivity |].
  cbn [replicate rev]. rewrite IH. clear IH.
  induction k as [| j IHj]; [reflexivity |].
  cbn [replicate app]. rewrite IHj. reflexivity.
Qed.

Lemma all_slashes (gone : pystr) :
  Forall (λ c, c ∈ [47]) gone → gone = replicate (length gone) 47.
Proof.
  induction 1 as [| c gone Hc _ IH]; [reflexivity |].
  apply list_elem_of_singleton in Hc. subst c.
  cbn [length replicate]. rewrite <- IH. reflexivity.
Qed.

(** [s.rstrip('/')] is [s] without the slashes at its end. *)
Lemma rstrip_slash_spec (s : pystr) :
  (∃ n, s = rstrip_chars [47] s ++ replicate n 47)
  ∧ last (rstrip_chars [47] s) ≠ Some 47.
Proof.
  unfold rstrip_chars. split.
  - destruct (lstrip_chars_suffix [47] (rev s)) as (gone & Hs & Hgone).
    exists (length gone).
    apply (f_equal (@rev N)) in Hs. rewrite rev_involutive, rev_app_distr in Hs.
    rewrite Hs at 1. f_equal.
    rewrite (all_slashes gone Hgone) at 1. apply rev_replicate.
  - intros Hlast. apply last_Some in Hlast as [front Hfront].
    apply (f_equal (@rev N)) in Hfront.
    rewrite rev_involutive, rev_app_distr in Hfront. cbn [rev app] in Hfront.
    apply lstrip_chars_head in Hfront. apply Hfront. left.
Qed.

(** Whatever else [configure] does or fails to do, an address given to it
    is kept without the slashes at its end. *)
Theorem configure_strips_slashes (api_key_ model_ : json) (url : pystr) (s : llm) :
  nonempty url = true →
  ∃ kept n,
    base_url (snd (configure V api_key_ (JStr url) model_ s)) = JStr kept
    ∧ url = kept ++ replicate n 47
    ∧ last kept ≠ Some 47.
Proof.
  intros Hurl.
  destruct (rstrip_slash_spec url) as [[n Hn] Hlast].
  exists (rstrip_chars [47] url), n. split; [| split; assumption].
  unfold configure, bind, set_api_key, set_base_url, set_model, set_client, modify,
    lift, get, ret.
  cbn [truthy rstrip_slash]. rewrite Hurl.
  cbn [api_key base_url model use_vision client fst snd].
  destruct (truthy model_); cbn [api_key base_url model use_vision client fst snd];
    (destruct (truthy api_key_); [| reflexivity]);
    cbn [mentions_openrouter];
    destruct (contains (lit "openrouter.ai") (rstrip_chars [47] url));
    destruct (openai_new V _); reflexivity.
Qed.

End ProbeFacts.

(** ** The statements about the connection test at work *)

Section ProbeSamples.
Import Config LlmConfig.

(** A machine without network: the client is constructed, the request
    fails; no proxy is set. *)
Definition sample_services : services :=
  {| openai_new := λ _, Ret tt;
     test_chat := λ _ _, Raise (lit "Connection error.");
     environ := λ _, None;
     format_exc := λ e, lit "Traceback (most recent call last):" ++ [LF] ++ e |}.

Definition sample_key : pystr := lit "sk-or-v1-0123456789".

Lemma test_connection_failure_shows_key_witness :
  let p := {| probe_world := ready; debug_info := [] |} in
  let r := test_connection sample_services sample_key
             (lit "https://openrouter.ai/api/v1/") (lit "m") p in
  contains sample_key
    (match fst r with Ret (_, message) => message | Raise _ => [] end) = true.
Proof.
  cbv zeta.
  apply (test_connection_failure_shows_key sample_services sample_key
           (lit "https://openrouter.ai/api/v1/") (lit "m") _
           {| probe_world := ready; debug_info := [] |}
           (snd (test_connection sample_services sample_key
                   (lit "https://openrouter.ai/api/v1/") (lit "m")
                   {| probe_world := ready; debug_info := [] |}))).
  vm_compute. reflexivity.
Defined.

Lemma configure_strips_slashes_witness :
  let url := lit "https://openrouter.ai/api/v1//" in
  ∃ kept n,
    base_url (snd (configure sample_services (JStr sample_key) (JStr url)
                     (JStr (lit "m")) blank_llm)) = JStr kept
    ∧ url = kept ++ replicate n 47
    ∧ last kept ≠ Some 47.
Proof.
  cbv zeta.
  apply (configure_strips_slashes sample_services (JStr sample_key) (JStr (lit "m"))
           (lit "https://openrouter.ai/api/v1//") blank_llm).
  vm_compute. reflexivity.
Defined.

End ProbeSamples.

(** ** The buttons of the settings dialog *)

Section DialogFacts.
Import Config LlmConfig SettingsDialog.
Context (V : services).

Lemma lstrip_chars_fixed (chars s : pystr) :
  lstrip_chars chars (lstrip_chars chars s) = lstrip_chars chars s.
Proof.
  induction s as [| c t IH]; [reflexivity |].
  cbn [lstrip_chars]. case_bool_decide as Hc; [exact IH |].
  cbn [lstrip_chars]. rewrite bool_decide_eq_false_2 by exact Hc. reflexivity.
Qed.

Lemma rstrip_chars_fixed (chars s : pystr) :
  rstrip_chars chars (rstrip_chars chars s) = rstrip_chars chars s.
Proof.
  unfold rstrip_chars. rewrite rev_involutive, lstrip_chars_fixed. reflexivity.
Qed.

(** The attributes [configure] sets before it constructs the client. *)
Definition configured (key url : pystr) (m : json) (e : llm) : llm :=
  {| api_key := JStr key;
     base_url := if nonempty url then JStr (rstrip_chars [47] url) else base_url e;
     model := if truthy m then m else model e;
     use_vision := use_vision e;
     client := client e |}.

(** The client [configure] constructs for an engine whose address is a
    string. *)
Definition client_for (e : llm) (address : pystr) : openai_client :=
  {| client_base_url := base_url e;
     client_api_key := api_key e;
     client_headers :=
       if contains (lit "openrouter.ai") address then Some openrouter_headers else None;
     client_timeout := None |}.

Definition with_client (e : llm) (c : openai_client) : llm :=
  {| api_key := api_key e; base_url := base_url e; model := model e;
     use_vision := use_vision e; client := Some c |}.

Lemma configure_run (key url : pystr) (m : json) (e : llm) (address : pystr) :
  nonempty key = true →
  base_url (configured key url m e) = JStr address →
  configure V (JStr key) (JStr url) m e =
    match openai_new V (client_for (configured key url m e) address) with
    | Ret _ => (Ret tt, with_client (configured key url m e)
                          (client_for (configured key url m e) address))
    | Raise x => (Raise x, configured key url m e)
    end.
Proof.
  intros Hkey Haddress.
  unfold configure, bind, set_api_key, set_base_url, set_model, set_client, modify,
    lift, get, ret, client_for, with_client.
  unfold configured in *. cbn [api_key base_url model use_vision client] in *.
  cbn [truthy rstrip_slash].
  destruct (nonempty url);
    cbn [api_key base_url model use_vision client fst snd] in *;
    destruct (truthy m);
    cbn [api_key base_url model use_vision client fst snd truthy];
    rewrite Hkey, Haddress; cbn [mentions_openrouter];
    destruct (contains (lit "openrouter.ai") address);
    destruct (openai_new V _) as [[] | x]; reflexivity.
Qed.

Lemma settings_keys_distinct :
  lit "api_key" ≠ lit "base_url" ∧ lit "api_key" ≠ lit "model"
  ∧ lit "api_key" ≠ lit "use_vision" ∧ lit "base_url" ≠ lit "model"
  ∧ lit "base_url" ≠ lit "use_vision" ∧ lit "model" ≠ lit "use_vision".
Proof.
  repeat split; intros H; vm_compute in H; discriminate H.
Qed.

Lemma four_lookups (k1 k2 k3 k4 : pystr) (v1 v2 v3 v4 : json) (prev : gmap pystr json) :
  k1 ≠ k2 ∧ k1 ≠ k3 ∧ k1 ≠ k4 ∧ k2 ≠ k3 ∧ k2 ≠ k4 ∧ k3 ≠ k4 →
  let m := ({[ k1 := v1; k2 := v2; k3 := v3; k4 := v4 ]} : gmap pystr json) ∪ prev in
  m !! k1 = Some v1 ∧ m !! k2 = Some v2 ∧ m !! k3 = Some v3 ∧ m !! k4 = Some v4.
Proof.
  intros (H12 & H13 & H14 & H23 & H24 & H34) m. subst m.
  repeat split; apply lookup_union_Some_l.
  - apply lookup_insert_eq.
  - rewrite lookup_insert_ne by exact H12. apply lookup_insert_eq.
  - rewrite !lookup_insert_ne by assumption. apply lookup_insert_eq.
  - rewrite !lookup_insert_ne by assumption. apply lookup_singleton_eq.
Qed.

(** What is saved is what a restart loads: when the key and the address
    fields are not blank and the configuration file can be read as a
    dict and written, a successful [save_settings] closes the dialog,
    and an [LLMEngine()] constructed from the file it wrote is the engine
    the dialog configured, attribute for attribute, the client
    included. *)
Theorem save_settings_round_trip (s s' : settings) (prev : gmap pystr json) :
  save_settings V s = (Ret tt, s') →
  nonempty (strip (api_key_edit s)) = true →
  nonempty (strip (base_url_edit s)) = true →
  stored_dict (Settings.files (history s)) = Some prev →
  on_write (Settings.files (history s)) = Writes →
  new_llm V (Settings.files (history s')) = (Ret tt, engine s') ∧ accepted s' = true.
Proof.
  intros Hsave Hkey Hurl Hprev Hw.
  unfold save_settings, current_model, on_engine, on_history, Settings.on_disk,
    notify, accept, set_use_vision, bind, get, modify, ret, raise in Hsave.
  cbv zeta in Hsave. rewrite Hkey in Hsave. cbn [negb fst snd] in Hsave.
  destruct (Settings.model_combo (history s)) as [c |] eqn:Hcombo; [| discriminate].
  cbn [engine history api_key_edit base_url_edit vision_check net notices accepted]
    in Hsave.
  set (key := strip (api_key_edit s)) in *.
  set (url := strip (base_url_edit s)) in *.
  set (m := JStr (strip (Settings.current_text c))) in *.
  assert (Haddress : base_url (configured key url m (engine s))
                     = JStr (rstrip_chars [47] url)).
  { unfold configured. cbn [base_url]. rewrite Hurl. reflexivity. }
  rewrite (configure_run key url m (engine s) _ Hkey Haddress) in Hsave.
  remember (configured key url m (engine s)) as e0 eqn:He0.
  remember (client_for e0 (rstrip_chars [47] url)) as c0 eqn:Hc0.
  destruct (openai_new V c0) as [[] | x] eqn:Hnew; [| discriminate].
  cbn [engine history api_key_edit base_url_edit vision_check net notices accepted
       api_key base_url model use_vision client with_client fst snd] in Hsave.
  rewrite save_config_cases, Hprev, Hw in Hsave.
  cbn [Settings.files Settings.model_combo fst snd] in Hsave.
  injection Hsave as <-.
  cbn [engine history accepted Settings.files]. split; [| reflexivity].
  unfold new_llm.
  erewrite load_config_of_stored_dict by (rewrite stored_dict_spec; reflexivity).
  unfold _load_from_config, config_get, bind, lift, set_api_key, set_base_url,
    set_model, set_use_vision, get, modify, ret.
  destruct (four_lookups (lit "api_key") (lit "base_url") (lit "model")
              (lit "use_vision") (JStr key) (base_url e0) (model e0)
              (JBool (vision_check s)) prev settings_keys_distinct)
    as (-> & -> & -> & ->).
  cbn [api_key base_url model use_vision client fst snd blank_llm truthy].
  rewrite Hkey, Haddress.
  assert (Hagain : configured key (rstrip_chars [47] url) (model e0)
                     {| api_key := JStr key; base_url := JStr (rstrip_chars [47] url);
                        model := model e0; use_vision := JBool (vision_check s);
                        client := None |}
                   = {| api_key := JStr key; base_url := JStr (rstrip_chars [47] url);
                        model := model e0; use_vision := JBool (vision_check s);
                        client := None |}).
  { unfold configured. cbn [api_key base_url model use_vision client].
    rewrite rstrip_chars_fixed.
    destruct (nonempty (rstrip_chars [47] url)); destruct (truthy (model e0));
      reflexivity. }
  rewrite (configure_run key (rstrip_chars [47] url) (model e0) _
             (rstrip_chars [47] url) Hkey); rewrite Hagain; [| reflexivity].
  assert (Hclient : client_for
                      {| api_key := JStr key; base_url := JStr (rstrip_chars [47] url);
                         model := model e0; use_vision := JBool (vision_check s);
                         client := None |} (rstrip_chars [47] url) = c0).
  { rewrite Hc0. unfold client_for. cbn [api_key base_url]. rewrite Haddress.
    rewrite He0. reflexivity. }
  rewrite Hclient, Hnew. unfold with_client.
  cbn [api_key base_url model use_vision client].
  rewrite He0. reflexivity.
Qed.

(** The connection test on an address without ["openrouter.ai"]. *)
Lemma test_connection_elsewhere (api_key_ base_url_ model_ : pystr) (p : probe) :
  contains (lit "openrouter.ai") (rstrip_chars [47] base_url_) = false →
  ∃ message p',
    test_connection V api_key_ base_url_ model_ p = (Ret (false, message), p')
    ∧ probe_world p' = probe_world p.
Proof.
  intros Hurl.
  unfold test_connection, try_except, bind, append_line, log_probe, modify, lift,
    raise, ret, get.
  cbn [probe_world debug_info fst snd]. rewrite Hurl.
  eexists _, _. split; reflexivity.
Qed.

(** With a key and an address that does not hold ["openrouter.ai"], the
    button Test Connection always ends in the debug dialog: no request
    is sent, the model is not added to the history, the combo box and the
    configuration file stay as they are, and the engine is not touched. *)
Theorem test_connection_clicked_elsewhere (s : settings) (c : Settings.combo) :
  Settings.model_combo (history s) = Some c →
  nonempty (strip (api_key_edit s)) = true →
  contains (lit "openrouter.ai") (rstrip_chars [47] (strip (base_url_edit s))) = false →
  ∃ message s',
    test_connection_clicked V s = (Ret tt, s')
    ∧ notices s' = notices s ++ [DebugDialog (lit "Connection Failed - Debug Info") message]
    ∧ history s' = history s
    ∧ net s' = net s
    ∧ engine s' = engine s.
Proof.
  intros Hcombo Hkey Hurl.
  destruct (test_connection_elsewhere (strip (api_key_edit s)) (strip (base_url_edit s))
              (strip (Settings.current_text c))
              {| probe_world := net s; debug_info := [] |} Hurl)
    as (message & p' & Htest & Hworld).
  exists message.
  unfold test_connection_clicked, current_model, on_net, on_history, notify, bind, get,
    modify, ret, raise.
  cbv zeta. rewrite Hcombo. cbn [fst snd]. rewrite Hkey. cbn [negb].
  rewrite Htest. cbn [fst snd].
  eexists. split; [reflexivity |].
  cbn [notices history net engine]. rewrite Hworld. repeat split.
Qed.

End DialogFacts.

(** ** The statements about the dialog at work *)

Section DialogSamples.
Import Config LlmConfig SettingsDialog.

(** The dialog as the user filled it in, over a directory without
    config.json; [address] is the text of the address field. *)
Definition filled_in (address : pystr) : settings :=
  {| api_key_edit := lit " sk-or-v1-0123456789 ";
     base_url_edit := address;
     vision_check := true;
     history := {| Settings.model_combo :=
                     Some {| Settings.items := [lit "google/gemini-2.0-flash-001"];
                             Settings.current_text := lit "google/gemini-2.0-flash-001" |};
                   Settings.files := empty_disk |};
     engine := blank_llm;
     net := ready;
     notices := [];
     accepted := false |}.

Lemma save_settings_round_trip_witness :
  let s' := snd (save_settings sample_services
                   (filled_in (lit "https://openrouter.ai/api/v1/"))) in
  new_llm sample_services (Settings.files (history s')) = (Ret tt, engine s')
  ∧ accepted s' = true.
Proof.
  cbv zeta.
  apply (save_settings_round_trip sample_services
           (filled_in (lit "https://openrouter.ai/api/v1/")) _ ∅).
  - vm_compute. reflexivity.
  - vm_compute. reflexivity.
  - vm_compute. reflexivity.
  - reflexivity.
  - reflexivity.
Defined.

Lemma test_connection_clicked_elsewhere_witness :
  let s := filled_in (lit "https://api.openai.com/v1") in
  ∃ message s',
    test_connection_clicked sample_services s = (Ret tt, s')
    ∧ notices s' = notices s ++ [DebugDialog (lit "Connection Failed - Debug Info") message]
    ∧ history s' = history s
    ∧ net s' = net s
    ∧ engine s' = engine s.
Proof.
  cbv zeta.
  apply (test_connection_clicked_elsewhere sample_services
           (filled_in (lit "https://api.openai.com/v1"))
           {| Settings.items := [lit "google/gemini-2.0-flash-001"];
              Settings.current_text := lit "google/gemini-2.0-flash-001" |}).
  - reflexivity.
  - vm_compute. reflexivity.
  - vm_compute. reflexivity.
Defined.

End DialogSamples.

(** ** Facts about setup_check.py *)

Section SetupFacts.
Import SetupCheck.
Context (Sh : shell).

(** The packages pip was run for, in order. *)
Definition pips (t : console) : list pystr :=
  omap (λ a, match a with PipInstall name => Some name | _ => None end) t.

(** The questions put to the user. *)
Definition asks (t : console) : list pystr :=
  omap (λ a, match a with Input prompt => Some prompt | _ => None end) t.

Lemma pips_app (a b : console) : pips (a ++ b) = pips a ++ pips b.
Proof. apply omap_app. Qed.

Lemma asks_app (a b : console) : asks (a ++ b) = asks a ++ asks b.
Proof. apply omap_app. Qed.

Lemma bind_say {A} (a : action) (k : unit → M console A) (t : console) :
  bind (say a) k t = k tt (t ++ [a]).
Proof. reflexivity. Qed.

(** The packages the install loop runs pip for: those of the list up to
    the first one pip does not install. *)
Fixpoint attempted (missing_packages : list pystr) : list pystr :=
  match missing_packages with
  | [] => []
  | pkg :: rest =>
      pkg :: match check_call_pip Sh pkg with
             | PipOk => attempted rest
             | _ => []
             end
  end.

(** How the install loop ends. *)
Fixpoint install_result (missing_packages : list pystr) : outcome ending :=
  match missing_packages with
  | [] => Ret Returned
  | pkg :: rest =>
      match check_call_pip Sh pkg with
      | PipOk => install_result rest
      | PipFailed => Ret (Exit 1)
      | PipRaised e => Raise e
      end
  end.

Lemma attempted_subset (missing_packages : list pystr) (name : pystr) :
  name ∈ attempted missing_packages → name ∈ missing_packages.
Proof.
  induction missing_packages as [| pkg rest IH]; [easy |].
  cbn [attempted]. rewrite !elem_of_cons. intros [-> | Hin]; [left; reflexivity |].
  right. destruct (check_call_pip Sh pkg); [exact (IH Hin) | |];
    apply elem_of_nil in Hin; destruct Hin.
Qed.

Lemma install_result_returned (missing_packages : list pystr) :
  install_result missing_packages = Ret Returned
  ↔ Forall (λ pkg, check_call_pip Sh pkg = PipOk) missing_packages.
Proof.
  induction missing_packages as [| pkg rest IH]; cbn [install_result].
  - split; [constructor | reflexivity].
  - rewrite Forall_cons. destruct (check_call_pip Sh pkg).
    + rewrite IH. tauto.
    + split; [discriminate | intros [H _]; discriminate H].
    + split; [discriminate | intros [H _]; discriminate H].
Qed.

Lemma install_result_exit (missing_packages : list pystr) (code : Z) :
  install_result missing_packages = Ret (Exit code) → code = 1%Z.
Proof.
  induction missing_packages as [| pkg rest IH]; cbn [install_result]; [discriminate |].
  destruct (check_call_pip Sh pkg); [exact IH | | discriminate].
  intros H. injection H as <-. reflexivity.
Qed.

Lemma check_package_run (package_name install_name : pystr) (t : console) :
  ∃ evs,
    check_package Sh package_name install_name t
    = (find_spec Sh package_name, t ++ evs)
    ∧ pips evs = [] ∧ asks evs = [].
Proof.
  unfold check_package. rewrite !bind_say, bind_lift.
  destruct (find_spec Sh package_name) as [[] | e].
  - rewrite bind_say. eexists [_; _; _]. cbn [ret]. rewrite <- !app_assoc.
    repeat split.
  - rewrite bind_say. eexists [_; _; _]. cbn [ret]. rewrite <- !app_assoc.
    repeat split.
  - eexists [_; _]. rewrite <- !app_assoc. repeat split.
Qed.

Lemma install_package_run (install_name : pystr) (t : console) :
  ∃ evs,
    install_package Sh install_name t
    = (match check_call_pip Sh install_name with
       | PipOk => Ret true
       | PipFailed => Ret false
       | PipRaised e => Raise e
       end, t ++ evs)
    ∧ pips evs = [install_name] ∧ asks evs = [].
Proof.
  unfold install_package. rewrite !bind_say.
  destruct (check_call_pip Sh install_name) as [| | e].
  - rewrite bind_say. eexists [_; _; _]. cbn [ret]. rewrite <- !app_assoc.
    repeat split.
  - rewrite bind_say. eexists [_; _; _]. cbn [ret]. rewrite <- !app_assoc.
    repeat split.
  - eexists [_; _]. unfold raise. rewrite <- !app_assoc. repeat split.
Qed.

Lemma check_loop_cons (pkg name : pystr) (rest : list (pystr * pystr))
    (all_good : bool) (missing_packages : list pystr) (t : console) :
  check_loop Sh ((pkg, name) :: rest) all_good missing_packages t
  = match check_package Sh pkg name t with
    | (Ret ok, t1) =>
        if negb ok then check_loop Sh rest false (missing_packages ++ [name]) t1
        else check_loop Sh rest all_good missing_packages t1
    | (Raise e, t1) => (Raise e, t1)
    end.
Proof.
  cbn [check_loop]. unfold bind at 1.
  destruct (check_package Sh pkg name t) as [[[] | e] t1]; reflexivity.
Qed.

(** The check loop runs pip for nothing and asks nothing; what it adds to
    the list are install names of packages that were looked for and not
    found. *)
Lemma check_loop_spec (packages : list (pystr * pystr)) :
  ∀ (all_good : bool) (missing_packages : list pystr) (t : console),
  ∃ evs,
    snd (check_loop Sh packages all_good missing_packages t) = t ++ evs
    ∧ pips evs = [] ∧ asks evs = []
    ∧ ∀ g m,
        fst (check_loop Sh packages all_good missing_packages t) = Ret (g, m) →
        ∃ new,
          m = missing_packages ++ new
          ∧ Forall (λ name, ∃ pkg, (pkg, name) ∈ packages
                                   ∧ find_spec Sh pkg = Ret false) new.
Proof.
  induction packages as [| [pkg name] rest IH]; intros all_good missing_packages t.
  - exists []. cbn. rewrite app_nil_r. repeat split.
    intros g m H. injection H as <- <-. exists []. rewrite app_nil_r. split; constructor.
  - rewrite check_loop_cons.
    destruct (check_package_run pkg name t) as (evs1 & -> & Hp1 & Ha1).
    destruct (find_spec Sh pkg) as [[] | e] eqn:Hfind; cbn [negb].
    + destruct (IH all_good missing_packages (t ++ evs1)) as (evs & Hsnd & Hp & Ha & Hret).
      exists (evs1 ++ evs). rewrite Hsnd, app_assoc, pips_app, asks_app, Hp1, Hp, Ha1, Ha.
      repeat split. intros g m H. destruct (Hret g m H) as (new & -> & Hall).
      exists new. split; [reflexivity |].
      eapply Forall_impl; [exact Hall |]. intros x (p & Hin & Hp'). exists p.
      split; [right; exact Hin | exact Hp'].
    + destruct (IH false (missing_packages ++ [name]) (t ++ evs1))
        as (evs & Hsnd & Hp & Ha & Hret).
      exists (evs1 ++ evs). rewrite Hsnd, app_assoc, pips_app, asks_app, Hp1, Hp, Ha1, Ha.
      repeat split. intros g m H. destruct (Hret g m H) as (new & -> & Hall).
      exists (name :: new). split; [rewrite <- app_assoc; reflexivity |].
      constructor.
      * exists pkg. split; [left | exact Hfind].
      * eapply Forall_impl; [exact Hall |]. intros x (p & Hin & Hp'). exists p.
        split; [right; exact Hin | exact Hp'].
    + exists evs1. cbn [fst snd]. repeat split; try assumption. discriminate.
Qed.

Lemma install_loop_run (missing_packages : list pystr) :
  ∀ t : console,
  ∃ evs,
    install_loop Sh missing_packages t = (install_result missing_packages, t ++ evs)
    ∧ pips evs = attempted missing_packages ∧ asks evs = [].
Proof.
  induction missing_packages as [| pkg rest IH]; intros t.
  - exists []. cbn. rewrite app_nil_r. repeat split.
  - cbn [install_loop install_result attempted]. unfold bind at 1.
    destruct (install_package_run pkg t) as (evs1 & -> & Hp1 & Ha1).
    destruct (check_call_pip Sh pkg) as [| | e]; cbn [negb].
    + destruct (IH (t ++ evs1)) as (evs & -> & Hp & Ha).
      exists (evs1 ++ evs). rewrite app_assoc, pips_app, asks_app, Hp1, Hp, Ha1, Ha.
      repeat split.
    + rewrite bind_say. eexists (evs1 ++ [_]).
      rewrite app_assoc, pips_app, asks_app, Hp1, Ha1. repeat split.
    + exists evs1. repeat split; assumption.
Qed.

(** pip is never run behind the user's back.  Whatever the imports, pip
    and the terminal do, also when one of them raises: if the script runs
    pip for a name, then the user was asked and the answer, stripped and
    lowered, was empty, ["y"] or ["yes"], and the name is the install
    name of a required package that was looked for and not found. *)
Theorem main_installs_only_with_consent (t : console) :
  ∃ evs,
    snd (main Sh t) = t ++ evs
    ∧ ∀ name, name ∈ pips evs →
        (∃ line, input_line Sh = Ret line
                 ∧ consents (lower Sh (strip line)) = true)
        ∧ asks evs ≠ []
        ∧ ∃ pkg, (pkg, name) ∈ REQUIRED_PACKAGES ∧ find_spec Sh pkg = Ret false.
Proof.
  unfold main. rewrite bind_say. unfold bind at 1.
  destruct (check_loop_spec REQUIRED_PACKAGES true []
              (t ++ [Print (lit "=== BubbleTrans Environment Check ===" ++ [LF])]))
    as (evs1 & Hsnd & Hp1 & Ha1 & Hret).
  destruct (check_loop Sh REQUIRED_PACKAGES true [] _) as [[[g m] | e] t1];
    cbn [fst snd] in Hsnd, Hret; subst t1.
  2: { eexists (_ :: evs1). rewrite <- app_assoc. split; [reflexivity |].
       intros name Hin. change (name ∈ pips evs1) in Hin. rewrite Hp1 in Hin.
       apply elem_of_nil in Hin. destruct Hin. }
  destruct (Hret g m eq_refl) as (new & -> & Hall). clear Hret.
  cbv zeta. cbn [fst snd app]. destruct g; cbn [negb].
  { rewrite bind_say. eexists (_ :: evs1 ++ [_]). cbn [ret snd].
    rewrite <- !app_assoc. split; [reflexivity |].
    intros name Hin. change (name ∈ pips (evs1 ++ [Print ([LF] ++ lit "Environment is ready!" ++ [LF])])) in Hin.
    rewrite pips_app, Hp1 in Hin. apply elem_of_nil in Hin. destruct Hin. }
  rewrite !bind_say. unfold bind at 1, lift.
  destruct (input_line Sh) as [line | e].
  2: { eexists (_ :: evs1 ++ [_; _]). cbn [snd]. rewrite <- !app_assoc.
       split; [reflexivity |]. intros name Hin.
       change (name ∈ pips (evs1 ++ [Print ([LF] ++ lit "Missing dependencies detected." ++ [LF]);
                                    Input (lit "Do you want to try installing missing packages? ("
                                           ++ join (lit ", ") new ++ lit ") [Y/n]: ")])) in Hin.
       rewrite pips_app, Hp1 in Hin. apply elem_of_nil in Hin. destruct Hin. }
  cbv zeta. destruct (consents (lower Sh (strip line))) eqn:Hconsent.
  2: { rewrite bind_say. eexists (_ :: evs1 ++ [_; _; _]). cbn [ret snd].
       rewrite <- !app_assoc. split; [reflexivity |]. intros name Hin.
       change (name ∈ pips (evs1 ++ [Print ([LF] ++ lit "Missing dependencies detected." ++ [LF]);
                                    Input (lit "Do you want to try installing missing packages? ("
                                           ++ join (lit ", ") new ++ lit ") [Y/n]: ");
                                    Print (lit "Please install missing packages manually to run BubbleTrans." ++ [LF])])) in Hin.
       rewrite pips_app, Hp1 in Hin. apply elem_of_nil in Hin. destruct Hin. }
  unfold bind at 1.
  match goal with
  | |- context [install_loop Sh new ?t0] =>
      destruct (install_loop_run new t0) as (evs2 & -> & Hp2 & Ha2)
  end.
  assert (Hdone : ∀ tail : console,
    pips tail = [] →
    ∀ name,
      name ∈ pips (Print (lit "=== BubbleTrans Environment Check ===" ++ [LF])
                   :: evs1
                   ++ [Print ([LF] ++ lit "Missing dependencies detected." ++ [LF]);
                       Input (lit "Do you want to try installing missing packages? ("
                              ++ join (lit ", ") new ++ lit ") [Y/n]: ")]
                   ++ evs2 ++ tail) →
      (∃ line0, Ret line = Ret line0 ∧ consents (lower Sh (strip line0)) = true)
      ∧ asks (Print (lit "=== BubbleTrans Environment Check ===" ++ [LF])
              :: evs1
              ++ [Print ([LF] ++ lit "Missing dependencies detected." ++ [LF]);
                  Input (lit "Do you want to try installing missing packages? ("
                         ++ join (lit ", ") new ++ lit ") [Y/n]: ")]
              ++ evs2 ++ tail) ≠ []
      ∧ ∃ pkg, (pkg, name) ∈ REQUIRED_PACKAGES ∧ find_spec Sh pkg = Ret false).
  { intros tail Htail name Hin.
    change (name ∈ pips (evs1
                   ++ [Print ([LF] ++ lit "Missing dependencies detected." ++ [LF]);
                       Input (lit "Do you want to try installing missing packages? ("
                              ++ join (lit ", ") new ++ lit ") [Y/n]: ")]
                   ++ evs2 ++ tail)) in Hin.
    rewrite !pips_app, Hp1, Hp2, Htail, app_nil_r in Hin.
    change (name ∈ attempted new) in Hin.
    split; [exists line; split; [reflexivity | exact Hconsent] |]. split.
    - change (asks (evs1
                   ++ [Print ([LF] ++ lit "Missing dependencies detected." ++ [LF]);
                       Input (lit "Do you want to try installing missing packages? ("
                              ++ join (lit ", ") new ++ lit ") [Y/n]: ")]
                   ++ evs2 ++ tail) ≠ []).
      rewrite !asks_app, Ha1. discriminate.
    - apply attempted_subset in Hin.
      rewrite Forall_forall in Hall. exact (Hall name Hin). }
  destruct (install_result new) as [[| code] | e].
  - rewrite bind_say. eexists (_ :: evs1 ++ [_; _] ++ evs2 ++ [_]). cbn [ret snd].
    split; [rewrite <- !app_assoc; reflexivity | apply Hdone; reflexivity].
  - eexists (_ :: evs1 ++ [_; _] ++ evs2 ++ []). cbn [ret snd].
    split; [rewrite <- !app_assoc, app_nil_r; reflexivity | apply Hdone; reflexivity].
  - eexists (_ :: evs1 ++ [_; _] ++ evs2 ++ []). cbn [snd].
    split; [rewrite <- !app_assoc, app_nil_r; reflexivity | apply Hdone; reflexivity].
Qed.

(** The install names of the packages that are not found. *)
Definition missing_of (found : pystr → bool) (packages : list (pystr * pystr))
  : list pystr :=
  snd <$> List.filter (λ p, negb (found (fst p))) packages.

Lemma check_loop_found (found : pystr → bool) (packages : list (pystr * pystr)) :
  (∀ pkg, find_spec Sh pkg = Ret (found pkg)) →
  ∀ (all_good : bool) (missing_packages : list pystr) (t : console),
  ∃ evs,
    check_loop Sh packages all_good missing_packages t
    = (Ret (match missing_of found packages with [] => all_good | _ => false end,
            missing_packages ++ missing_of found packages), t ++ evs)
    ∧ pips evs = [] ∧ asks evs = [].
Proof.
  intros Hfound.
  induction packages as [| [pkg name] rest IH]; intros all_good missing_packages t.
  - exists []. cbn. rewrite !app_nil_r. repeat split.
  - rewrite check_loop_cons.
    destruct (check_package_run pkg name t) as (evs1 & -> & Hp1 & Ha1).
    rewrite Hfound. unfold missing_of. cbn [List.filter fst].
    destruct (found pkg); cbn [negb fmap list_fmap snd].
    + destruct (IH all_good missing_packages (t ++ evs1)) as (evs & -> & Hp & Ha).
      exists (evs1 ++ evs). rewrite app_assoc, pips_app, asks_app, Hp1, Hp, Ha1, Ha.
      repeat split.
    + destruct (IH false (missing_packages ++ [name]) (t ++ evs1)) as (evs & -> & Hp & Ha).
      exists (evs1 ++ evs). rewrite app_assoc, pips_app, asks_app, Hp1, Hp, Ha1, Ha.
      rewrite <- app_assoc. fold (missing_of found rest).
      destruct (missing_of found rest); repeat split.
Qed.

(** What the script does when looking for a package never raises: with
    [missing] the install names of the packages not found, in the order
    of [REQUIRED_PACKAGES], the user is asked exactly when [missing] is
    not empty; pip is run, only after a consenting answer, for the names
    of [missing] in order up to the first one it fails on; [main] returns
    exactly when nothing is missing, or the user consented and pip
    installed every missing package; and when the process exits, the
    status is 1. *)
Theorem main_outcome (found : pystr → bool) (t : console) :
  (∀ pkg, find_spec Sh pkg = Ret (found pkg)) →
  let missing := missing_of found REQUIRED_PACKAGES in
  let consented :=
    match input_line Sh with
    | Ret line => consents (lower Sh (strip line))
    | Raise _ => false
    end in
  ∃ evs r,
    main Sh t = (r, t ++ evs)
    ∧ length (asks evs) = (match missing with [] => 0 | _ => 1 end)%nat
    ∧ pips evs = (if consented then attempted missing else [])
    ∧ (r = Ret Returned
       ↔ missing = []
         ∨ (consented = true
            ∧ Forall (λ pkg, check_call_pip Sh pkg = PipOk) missing))
    ∧ (∀ code, r = Ret (Exit code) → code = 1%Z).
Proof.
  intros Hfound missing consented.
  unfold main. rewrite bind_say. unfold bind at 1.
  destruct (check_loop_found found REQUIRED_PACKAGES Hfound true []
              (t ++ [Print (lit "=== BubbleTrans Environment Check ===" ++ [LF])]))
    as (evs1 & -> & Hp1 & Ha1).
  fold missing. cbv zeta. cbn [fst snd app].
  destruct missing as [| name rest] eqn:Hmissing; cbn [negb].
  { rewrite bind_say. eexists (_ :: evs1 ++ [_]), (Ret Returned). cbn [ret].
    rewrite <- !app_assoc. split; [reflexivity |].
    change (length (asks (evs1 ++ [Print ([LF] ++ lit "Environment is ready!" ++ [LF])]))
            = 0%nat
            ∧ pips (evs1 ++ [Print ([LF] ++ lit "Environment is ready!" ++ [LF])])
              = (if consented then attempted [] else [])
            ∧ (Ret Returned = Ret Returned
               ↔ @nil pystr = [] ∨ consented = true
                          ∧ Forall (λ pkg, check_call_pip Sh pkg = PipOk) [])
            ∧ (∀ code, Ret Returned = Ret (Exit code) → code = 1%Z)).
    rewrite asks_app, pips_app, Ha1, Hp1.
    split; [reflexivity |]. split; [destruct consented; reflexivity |].
    split; [tauto | discriminate]. }
  rewrite !bind_say. unfold bind at 1, lift. subst consented.
  set (prompt := lit "Do you want to try installing missing packages? ("
                 ++ join (lit ", ") (name :: rest) ++ lit ") [Y/n]: ").
  set (head := [Print ([LF] ++ lit "Missing dependencies detected." ++ [LF]);
                Input prompt]).
  assert (Hhead : pips (evs1 ++ head) = [] ∧ asks (evs1 ++ head) = [prompt]).
  { rewrite pips_app, asks_app, Hp1, Ha1. split; reflexivity. }
  destruct Hhead as [Hp Ha].
  destruct (input_line Sh) as [line | e].
  2: { exists (Print (lit "=== BubbleTrans Environment Check ===" ++ [LF])
               :: evs1 ++ head), (Raise e).
       split; [rewrite <- !app_assoc; reflexivity |].
       change (length (asks (evs1 ++ head)) = 1%nat
               ∧ pips (evs1 ++ head) = []
               ∧ (Raise e = Ret Returned
                  ↔ name :: rest = [] ∨ false = true
                                       ∧ Forall (λ pkg, check_call_pip Sh pkg = PipOk)
                                                (name :: rest))
               ∧ (∀ code, Raise e = Ret (Exit code) → code = 1%Z)).
       rewrite Ha, Hp. split; [reflexivity |]. split; [reflexivity |].
       split; [| discriminate].
       split; [discriminate | intros [H | [H _]]; discriminate H]. }
  destruct (consents (lower Sh (strip line))) eqn:Hconsent.
  2: { rewrite bind_say.
       exists (Print (lit "=== BubbleTrans Environment Check ===" ++ [LF])
               :: (evs1 ++ head)
               ++ [Print (lit "Please install missing packages manually to run BubbleTrans." ++ [LF])]),
         (Ret (Exit 1)).
       cbn [ret]. split; [rewrite <- !app_assoc; reflexivity |].
       change (length (asks ((evs1 ++ head)
                 ++ [Print (lit "Please install missing packages manually to run BubbleTrans." ++ [LF])]))
               = 1%nat
               ∧ pips ((evs1 ++ head)
                  ++ [Print (lit "Please install missing packages manually to run BubbleTrans." ++ [LF])])
                 = []
               ∧ (Ret (Exit 1) = Ret Returned
                  ↔ name :: rest = [] ∨ false = true
                                       ∧ Forall (λ pkg, check_call_pip Sh pkg = PipOk)
                                                (name :: rest))
               ∧ (∀ code, Ret (Exit 1) = Ret (Exit code) → code = 1%Z)).
       rewrite asks_app, pips_app, Ha, Hp.
       split; [reflexivity |]. split; [reflexivity |]. split.
       - split; [discriminate | intros [H | [H _]]; discriminate H].
       - intros code H. injection H as <-. reflexivity. }
  unfold bind at 1.
  match goal with
  | |- context [install_loop Sh (name :: rest) ?t0] =>
      destruct (install_loop_run (name :: rest) t0) as (evs2 & -> & Hp2 & Ha2)
  end.
  assert (Hdone : ∀ (tail : console) (r : outcome ending),
    pips tail = [] → asks tail = [] →
    (r = Ret Returned ↔ install_result (name :: rest) = Ret Returned) →
    (∀ code, r = Ret (Exit code) → code = 1%Z) →
    length (asks ((evs1 ++ head) ++ evs2 ++ tail)) = 1%nat
    ∧ pips ((evs1 ++ head) ++ evs2 ++ tail) = attempted (name :: rest)
    ∧ (r = Ret Returned
       ↔ name :: rest = [] ∨ true = true
                            ∧ Forall (λ pkg, check_call_pip Sh pkg = PipOk) (name :: rest))
    ∧ (∀ code, r = Ret (Exit code) → code = 1%Z)).
  { intros tail r Htp Hta Hr Hcode.
    rewrite (asks_app (evs1 ++ head)), (pips_app (evs1 ++ head)), Ha, Hp.
    rewrite asks_app, pips_app, Hp2, Ha2, Htp, Hta, !app_nil_r.
    split; [reflexivity |]. split; [reflexivity |].
    split; [| exact Hcode].
    rewrite Hr, install_result_returned. split; [auto |].
    intros [H | [_ H]]; [discriminate H | exact H]. }
  pose proof (install_result_exit (name :: rest)) as Hexit.
  destruct (install_result (name :: rest)) as [[| code] | e] eqn:Hresult.
  - rewrite bind_say. cbn [ret].
    exists (Print (lit "=== BubbleTrans Environment Check ===" ++ [LF])
            :: (evs1 ++ head) ++ evs2
            ++ [Print ([LF] ++ lit "All dependencies installed successfully!" ++ [LF])]),
      (Ret Returned).
    split; [rewrite <- !app_assoc; reflexivity |].
    apply (Hdone [_] (Ret Returned)); [reflexivity | reflexivity | tauto | discriminate].
  - cbn [ret].
    exists (Print (lit "=== BubbleTrans Environment Check ===" ++ [LF])
            :: (evs1 ++ head) ++ evs2 ++ []), (Ret (Exit code)).
    split; [rewrite <- !app_assoc, app_nil_r; reflexivity |].
    apply (Hdone [] (Ret (Exit code))); [reflexivity | reflexivity | | ].
    + split; discriminate.
    + intros c H. injection H as <-. apply Hexit. reflexivity.
  - exists (Print (lit "=== BubbleTrans Environment Check ===" ++ [LF])
            :: (evs1 ++ head) ++ evs2 ++ []), (Raise e).
    split; [rewrite <- !app_assoc, app_nil_r; reflexivity |].
    apply (Hdone [] (Raise e)); [reflexivity | reflexivity | | discriminate].
    split; discriminate.
Qed.

End SetupFacts.


(** ** The statement about the script at work *)

Section SetupSamples.
Import SetupCheck.

(** [s.lower()] on the letters of ASCII. *)
Definition ascii_lower (s : pystr) : pystr :=
  (λ c, if (65 <=? c) && (c <=? 90) then c + 32 else c) <$> s.

(** A machine without Paddle and Pillow. *)
Definition sample_found (pkg : pystr) : bool :=
  negb (bool_decide (pkg ∈ [lit "paddle"; lit "PIL"])).

(** pip installs Paddle and fails on Pillow; the user answers [" Y "]. *)
Definition sample_shell : shell :=
  {| find_spec := λ pkg, Ret (sample_found pkg);
     check_call_pip := λ name,
       if bool_decide (name = lit "paddlepaddle") then PipOk else PipFailed;
     input_line := Ret (lit " Y ");
     lower := ascii_lower |}.

Lemma main_outcome_witness :
  let Sh := sample_shell in
  let t : console := [] in
  let missing := missing_of sample_found REQUIRED_PACKAGES in
  let consented :=
    match input_line Sh with
    | Ret line => consents (lower Sh (strip line))
    | Raise _ => false
    end in
  ∃ evs r,
    main Sh t = (r, t ++ evs)
    ∧ length (asks evs) = (match missing with [] => 0 | _ => 1 end)%nat
    ∧ pips evs = (if consented then attempted Sh missing else [])
    ∧ (r = Ret Returned
       ↔ missing = []
         ∨ (consented = true
            ∧ Forall (λ pkg, check_call_pip Sh pkg = PipOk) missing))
    ∧ (∀ code, r = Ret (Exit code) → code = 1%Z).
Proof.
  cbv zeta. apply (main_outcome sample_shell sample_found []).
  intros pkg. reflexivity.
Defined.

Example main_sample :
  fst (main sample_shell []) = Ret (Exit 1)
  ∧ pips (snd (main sample_shell [])) = [lit "paddlepaddle"; lit "Pillow"].
Proof. vm_compute. split; reflexivity. Qed.

End SetupSamples.

(** ** Facts about the list of image files *)

Section FileListFacts.
Import MainWindow FileList.
Context (F : folder_env).

Lemma str_le_total (a b : pystr) : str_le a b = true ∨ str_le b a = true.
Proof.
  revert b. induction a as [| x a IH]; intros [| y b]; cbn [str_le]; auto.
  destruct (N.lt_trichotomy x y) as [H | [H | H]].
  - left. apply N.ltb_lt in H. rewrite H. reflexivity.
  - subst y. rewrite N.eqb_refl, N.ltb_irrefl. cbn [orb andb]. apply IH.
  - right. apply N.ltb_lt in H. rewrite H. reflexivity.
Qed.

Lemma str_le_cons (x y : N) (a b : pystr) :
  str_le (x :: a) (y :: b) = true ↔ (x < y) ∨ (x = y ∧ str_le a b = true).
Proof.
  cbn [str_le]. rewrite orb_true_iff, andb_true_iff, N.ltb_lt, N.eqb_eq. reflexivity.
Qed.

Lemma str_le_trans (a b c : pystr) :
  str_le a b = true → str_le b c = true → str_le a c = true.
Proof.
  revert b c. induction a as [| x a IH]; intros [| y b] [| z c]; try easy.
  rewrite !str_le_cons. intros [Hxy | [-> Hab]] [Hyz | [-> Hbc]].
  - left. lia.
  - left. exact Hxy.
  - left. exact Hyz.
  - right. split; [reflexivity | exact (IH b c Hab Hbc)].
Qed.

Lemma str_le_antisym (a b : pystr) :
  str_le a b = true → str_le b a = true → a = b.
Proof.
  revert b. induction a as [| x a IH]; intros [| y b]; try easy.
  rewrite !str_le_cons. intros [Hxy | [-> Hab]] [Hyx | [Heq Hba]]; try lia.
  f_equal. exact (IH b Hab Hba).
Qed.

Lemma str_order_total : Total str_order.
Proof. intros a b. apply str_le_total. Qed.

Lemma str_order_trans : Transitive str_order.
Proof. intros a b c. apply str_le_trans. Qed.

Lemma str_order_antisym : AntiSymm (=) str_order.
Proof. intros a b. apply str_le_antisym. Qed.

(** After [load_file_list] on a folder that can be listed, the list of
    the window holds the names with an image extension and nothing
    else, each as often as [os.listdir] gave it, in ascending order of
    [str]; what the list held before is gone and no box is shown.  The
    list is determined by that: it is the only ascending arrangement of
    those names. *)
Theorem load_file_list_sorted (b : browser) (names : list pystr) :
  listdir F (current_folder b) = Ret names →
  Sorted str_order (file_list (load_file_list F b))
  ∧ file_list (load_file_list F b) ≡ₚ List.filter (is_image F) names
  ∧ (∀ name, name ∈ file_list (load_file_list F b) ↔ name ∈ names ∧ is_image F name = true)
  ∧ (∀ l, Sorted str_order l → l ≡ₚ List.filter (is_image F) names →
          l = file_list (load_file_list F b))
  ∧ shown_boxes (load_file_list F b) = shown_boxes b.
Proof.
  intros Hlist. unfold load_file_list. cbv zeta.
  cbn [current_folder file_list shown_boxes]. rewrite Hlist.
  cbn [current_folder file_list shown_boxes app]. unfold sorted.
  pose proof (merge_sort_Permutation str_order (List.filter (is_image F) names))
    as Hperm.
  pose proof (@Sorted_merge_sort _ str_order _ str_order_total
                (List.filter (is_image F) names)) as Hsorted.
  split; [exact Hsorted |]. split; [exact Hperm |]. split; [| split; [| reflexivity]].
  - intros name. rewrite Hperm, list_elem_of_In, List.filter_In, <- list_elem_of_In.
    reflexivity.
  - intros l Hl Hl'.
    apply (@Sorted_unique _ str_order str_order_trans str_order_antisym);
      [exact Hl | exact Hsorted |].
    rewrite Hl', Hperm. reflexivity.
Qed.

End FileListFacts.

(** ** The statement about the list of files at work *)

Section FileListSamples.
Import MainWindow FileList.

(** A folder with two pictures and a text file. *)
Definition sample_folder : folder_env :=
  {| listdir := λ _, Ret [lit "b.png"; lit "notes.txt"; lit "a.JPG"; lit ".png"];
     lower := ascii_lower |}.

Definition stale_browser : browser :=
  {| file_list := [lit "old.png"]; current_folder := lit "/pages"; shown_boxes := [] |}.

Lemma load_file_list_sorted_witness :
  let F := sample_folder in
  let b := stale_browser in
  let names := [lit "b.png"; lit "notes.txt"; lit "a.JPG"; lit ".png"] in
  Sorted str_order (file_list (load_file_list F b))
  ∧ file_list (load_file_list F b) ≡ₚ List.filter (is_image F) names
  ∧ (∀ name, name ∈ file_list (load_file_list F b) ↔ name ∈ names ∧ is_image F name = true)
  ∧ (∀ l, Sorted str_order l → l ≡ₚ List.filter (is_image F) names →
          l = file_list (load_file_list F b))
  ∧ shown_boxes (load_file_list F b) = shown_boxes b.
Proof.
  cbv zeta.
  apply (load_file_list_sorted sample_folder stale_browser
           [lit "b.png"; lit "notes.txt"; lit "a.JPG"; lit ".png"]).
  reflexivity.
Defined.

Example load_file_list_sample :
  file_list (load_file_list sample_folder stale_browser) = [lit "a.JPG"; lit "b.png"].
Proof. vm_compute. reflexivity. Qed.

End FileListSamples.

